(** * Gesture engine of the HandTracking component

    A shallow embedding of the interaction part of [HandTracking.tsx]
    (the richer variant, with drop zone, generate button and chart view):
    pinch detection, the drag manager, the swipe detector, the chart
    animation state and the table-initialisation effect.

    Conventions of the embedding.
    - A JavaScript [number] is a binary64 float ([PrimFloat.float]), with the
      IEEE operations of the kernel; [Date.now()] readings are integral
      milliseconds and are kept in [Z].
    - React state ([useState]) and refs ([useRef]) are fields of one record
      [State]; a state setter is an immediate write.
    - [setTimeout] appends a pending callback to [timers]; a later event runs
      it.  [fetchTableData] is asynchronous and talks to the catalog: only
      the request it issues is recorded.
    - Canvas drawing writes no state and is left out.
    - A hand is the array of landmarks MediaPipe delivers, 21 points long;
      the model reads a missing index as the origin where the source would
      raise a [TypeError]. *)

From Stdlib Require Import List Ascii String ZArith Bool Lia Floats DecimalString.
From Stdlib Require Uint63 DecimalNat DecimalFacts.
Import ListNotations.

Set Warnings "-inexact-float".

(** ** JavaScript numbers and the [Math] object *)

Module Math.
Local Open Scope float_scope.

Definition is_pos_zero (f : float) : bool := is_zero f && negb (get_sign f).
Definition is_neg_zero (f : float) : bool := is_zero f && get_sign f.

(** [Math.min(a, b)] of ECMAScript: NaN if either is NaN, -0 below +0,
    otherwise the lesser by [<]. *)
Definition min (a b : float) : float :=
  if is_nan a || is_nan b then nan
  else if is_pos_zero a && is_neg_zero b then b
  else if b <? a then b else a.

(** [Math.max(a, b)]: NaN if either is NaN, +0 above -0. *)
Definition max (a b : float) : float :=
  if is_nan a || is_nan b then nan
  else if is_neg_zero a && is_pos_zero b then b
  else if a <? b then b else a.

Definition abs (a : float) : float := PrimFloat.abs a.
Definition sqrt (a : float) : float := PrimFloat.sqrt a.

(** [Math.pow(a, 2)], the only exponent the component uses. *)
Definition pow2 (a : float) : float := a * a.

(** An array index as a number. *)
Definition of_index (i : nat) : float := of_uint63 (Uint63.of_Z (Z.of_nat i)).
End Math.

(** [a > b] and [a >= b] of JavaScript, false on NaN like [<] and [<=]. *)
Definition gtb (a b : float) : bool := PrimFloat.ltb b a.
Definition geb (a b : float) : bool := PrimFloat.leb b a.

(** Decimal rendering inside template strings. *)
Definition string_of_nat (n : nat) : string := NilZero.string_of_uint (Nat.to_uint n).
Definition string_of_Z (z : Z) : string := NilZero.string_of_int (Z.to_int z).

(** ** Data model *)

Module Landmark.
Record t := mk { x : float; y : float; z : float }.
End Landmark.

(** [results.multiHandLandmarks[i]] *)
Definition Hand := list Landmark.t.

Definition origin : Landmark.t := Landmark.mk 0 0 0.

(** [landmarks[i]] *)
Definition at_index (landmarks : Hand) (i : nat) : Landmark.t := nth i landmarks origin.

Module TableObject.
Record t := mk {
  id : string;
  name : string;
  x : float;
  y : float;
  isDragging : bool
}.

Definition set_isDragging (b : bool) (o : t) : t := mk (id o) (name o) (x o) (y o) b.
Definition set_xy (x' y' : float) (o : t) : t := mk (id o) (name o) x' y' (isDragging o).
End TableObject.

Module PinchState.
Record t := mk { isPinching : bool; x : float; y : float }.
End PinchState.

Module SwipeState.
Record t := mk {
  isTracking : bool;
  startX : float;
  startY : float;
  currentX : float;
  currentY : float;
  startTime : Z
}.

Definition set_isTracking (b : bool) (s : t) : t :=
  mk b (startX s) (startY s) (currentX s) (currentY s) (startTime s).
Definition set_current (cx cy : float) (s : t) : t :=
  mk (isTracking s) (startX s) (startY s) cx cy (startTime s).
End SwipeState.

Inductive AnimationState := entering | visible | exiting | hidden.

Inductive ToastType := info | error.

(** The bodies handed to [setTimeout]. *)
Inductive Callback :=
| ClearToast            (* () => setToast(null), after 3000 ms *)
| ShowChart             (* () => showChartWithAnimation(), after 500 ms *)
| EntranceDone          (* () => setChartAnimationState('visible'), after 800 ms *)
| ExitDone.             (* the exit callback of hideChartWithAnimation, after 600 ms *)

Record State := mkState {
  (* useState *)
  showChart : bool;
  chartAnimationState : AnimationState;
  chartData : list string;                  (* chartData.tables *)
  toast : option (string * ToastType);
  loadingData : bool;
  (* useRef *)
  chartAnimationStartRef : Z;
  tablesRef : list TableObject.t;
  draggedTableRef : option string;
  tablesInitialized : bool;
  droppedTablesRef : list string;
  generateButtonHoverRef : bool;
  buttonClickedRef : bool;
  pinchStateRef : PinchState.t;
  swipeStateRef : SwipeState.t;
  (* environment *)
  timers : list (Z * Callback);             (* pending setTimeout callbacks, with due time *)
  requests : list (list string)             (* fetchTableData calls issued so far *)
}.

Definition initialState : State := {|
  showChart := false;
  chartAnimationState := hidden;
  chartData := [];
  toast := None;
  loadingData := false;
  chartAnimationStartRef := 0;
  tablesRef := [];
  draggedTableRef := None;
  tablesInitialized := false;
  droppedTablesRef := [];
  generateButtonHoverRef := false;
  buttonClickedRef := false;
  pinchStateRef := PinchState.mk false 0 0;
  swipeStateRef := SwipeState.mk false 0 0 0 0 0;
  timers := [];
  requests := []
|}.

(** Field writes. *)
Definition set_showChart v s :=
  mkState v (chartAnimationState s) (chartData s) (toast s) (loadingData s)
    (chartAnimationStartRef s) (tablesRef s) (draggedTableRef s) (tablesInitialized s)
    (droppedTablesRef s) (generateButtonHoverRef s) (buttonClickedRef s)
    (pinchStateRef s) (swipeStateRef s) (timers s) (requests s).
Definition set_chartAnimationState v s :=
  mkState (showChart s) v (chartData s) (toast s) (loadingData s)
    (chartAnimationStartRef s) (tablesRef s) (draggedTableRef s) (tablesInitialized s)
    (droppedTablesRef s) (generateButtonHoverRef s) (buttonClickedRef s)
    (pinchStateRef s) (swipeStateRef s) (timers s) (requests s).
Definition set_chartData v s :=
  mkState (showChart s) (chartAnimationState s) v (toast s) (loadingData s)
    (chartAnimationStartRef s) (tablesRef s) (draggedTableRef s) (tablesInitialized s)
    (droppedTablesRef s) (generateButtonHoverRef s) (buttonClickedRef s)
    (pinchStateRef s) (swipeStateRef s) (timers s) (requests s).
Definition set_toast v s :=
  mkState (showChart s) (chartAnimationState s) (chartData s) v (loadingData s)
    (chartAnimationStartRef s) (tablesRef s) (draggedTableRef s) (tablesInitialized s)
    (droppedTablesRef s) (generateButtonHoverRef s) (buttonClickedRef s)
    (pinchStateRef s) (swipeStateRef s) (timers s) (requests s).
Definition set_loadingData v s :=
  mkState (showChart s) (chartAnimationState s) (chartData s) (toast s) v
    (chartAnimationStartRef s) (tablesRef s) (draggedTableRef s) (tablesInitialized s)
    (droppedTablesRef s) (generateButtonHoverRef s) (buttonClickedRef s)
    (pinchStateRef s) (swipeStateRef s) (timers s) (requests s).
Definition set_chartAnimationStartRef v s :=
  mkState (showChart s) (chartAnimationState s) (chartData s) (toast s) (loadingData s)
    v (tablesRef s) (draggedTableRef s) (tablesInitialized s)
    (droppedTablesRef s) (generateButtonHoverRef s) (buttonClickedRef s)
    (pinchStateRef s) (swipeStateRef s) (timers s) (requests s).
Definition set_tablesRef v s :=
  mkState (showChart s) (chartAnimationState s) (chartData s) (toast s) (loadingData s)
    (chartAnimationStartRef s) v (draggedTableRef s) (tablesInitialized s)
    (droppedTablesRef s) (generateButtonHoverRef s) (buttonClickedRef s)
    (pinchStateRef s) (swipeStateRef s) (timers s) (requests s).
Definition set_draggedTableRef v s :=
  mkState (showChart s) (chartAnimationState s) (chartData s) (toast s) (loadingData s)
    (chartAnimationStartRef s) (tablesRef s) v (tablesInitialized s)
    (droppedTablesRef s) (generateButtonHoverRef s) (buttonClickedRef s)
    (pinchStateRef s) (swipeStateRef s) (timers s) (requests s).
Definition set_tablesInitialized v s :=
  mkState (showChart s) (chartAnimationState s) (chartData s) (toast s) (loadingData s)
    (chartAnimationStartRef s) (tablesRef s) (draggedTableRef s) v
    (droppedTablesRef s) (generateButtonHoverRef s) (buttonClickedRef s)
    (pinchStateRef s) (swipeStateRef s) (timers s) (requests s).
Definition set_droppedTablesRef v s :=
  mkState (showChart s) (chartAnimationState s) (chartData s) (toast s) (loadingData s)
    (chartAnimationStartRef s) (tablesRef s) (draggedTableRef s) (tablesInitialized s)
    v (generateButtonHoverRef s) (buttonClickedRef s)
    (pinchStateRef s) (swipeStateRef s) (timers s) (requests s).
Definition set_generateButtonHoverRef v s :=
  mkState (showChart s) (chartAnimationState s) (chartData s) (toast s) (loadingData s)
    (chartAnimationStartRef s) (tablesRef s) (draggedTableRef s) (tablesInitialized s)
    (droppedTablesRef s) v (buttonClickedRef s)
    (pinchStateRef s) (swipeStateRef s) (timers s) (requests s).
Definition set_buttonClickedRef v s :=
  mkState (showChart s) (chartAnimationState s) (chartData s) (toast s) (loadingData s)
    (chartAnimationStartRef s) (tablesRef s) (draggedTableRef s) (tablesInitialized s)
    (droppedTablesRef s) (generateButtonHoverRef s) v
    (pinchStateRef s) (swipeStateRef s) (timers s) (requests s).
Definition set_pinchStateRef v s :=
  mkState (showChart s) (chartAnimationState s) (chartData s) (toast s) (loadingData s)
    (chartAnimationStartRef s) (tablesRef s) (draggedTableRef s) (tablesInitialized s)
    (droppedTablesRef s) (generateButtonHoverRef s) (buttonClickedRef s)
    v (swipeStateRef s) (timers s) (requests s).
Definition set_swipeStateRef v s :=
  mkState (showChart s) (chartAnimationState s) (chartData s) (toast s) (loadingData s)
    (chartAnimationStartRef s) (tablesRef s) (draggedTableRef s) (tablesInitialized s)
    (droppedTablesRef s) (generateButtonHoverRef s) (buttonClickedRef s)
    (pinchStateRef s) v (timers s) (requests s).
Definition set_timers v s :=
  mkState (showChart s) (chartAnimationState s) (chartData s) (toast s) (loadingData s)
    (chartAnimationStartRef s) (tablesRef s) (draggedTableRef s) (tablesInitialized s)
    (droppedTablesRef s) (generateButtonHoverRef s) (buttonClickedRef s)
    (pinchStateRef s) (swipeStateRef s) v (requests s).
Definition set_requests v s :=
  mkState (showChart s) (chartAnimationState s) (chartData s) (toast s) (loadingData s)
    (chartAnimationStartRef s) (tablesRef s) (draggedTableRef s) (tablesInitialized s)
    (droppedTablesRef s) (generateButtonHoverRef s) (buttonClickedRef s)
    (pinchStateRef s) (swipeStateRef s) (timers s) v.

(** [setTimeout(cb, delay)] issued at time [now]. *)
Definition setTimeout (now : Z) (cb : Callback) (delay : Z) (s : State) : State :=
  set_timers (timers s ++ [((now + delay)%Z, cb)]) s.

(** ** Toast and chart animation (component-level helpers) *)

(** [showToast(message, type)] *)
Definition showToast (now : Z) (message : string) (type : ToastType) (s : State) : State :=
  setTimeout now ClearToast 3000 (set_toast (Some (message, type)) s).

(** [showChartWithAnimation()] *)
Definition showChartWithAnimation (now : Z) (s : State) : State :=
  setTimeout now EntranceDone 800
    (set_chartAnimationStartRef now
      (set_chartAnimationState entering
        (set_showChart true s))).

(** [hideChartWithAnimation()] *)
Definition hideChartWithAnimation (now : Z) (s : State) : State :=
  setTimeout now ExitDone 600
    (set_chartAnimationStartRef now
      (set_chartAnimationState exiting s)).

(** [fetchTableData(tableNames)]: the synchronous prefix sets the loading
    flag; the request to the catalog is recorded. *)
Definition fetchTableData (tableNames : list string) (s : State) : State :=
  set_requests (requests s ++ [tableNames]) (set_loadingData true s).

(** What a pending callback does when it runs at time [now]. *)
Definition runCallback (now : Z) (cb : Callback) (s : State) : State :=
  match cb with
  | ClearToast => set_toast None s
  | ShowChart => showChartWithAnimation now s
  | EntranceDone => set_chartAnimationState visible s
  | ExitDone =>
      set_droppedTablesRef []
        (set_chartData []
          (set_chartAnimationState hidden
            (set_showChart false s)))
  end.

(** ** Swipe detector: the [if (showChart)] branch of [renderLoop] *)

Section Swipe.
Local Open Scope float_scope.

Definition swipeComplete (deltaX deltaY : float) (timeElapsed : Z) : bool :=
  gtb (Math.abs deltaX) 0.3 && (deltaY <? 0.2) && (timeElapsed <? 1000)%Z.

Definition chartFrame (now : Z) (results : list Hand) (s : State) : State :=
  match results with
  | [] => s
  | landmarks :: _ =>
      let indexTip := at_index landmarks 8 in
      let currentTime := now in
      let indexExtended := Landmark.y indexTip <? Landmark.y (at_index landmarks 6) in
      if indexExtended then
        let currentX := Landmark.x indexTip in
        let currentY := Landmark.y indexTip in
        if negb (SwipeState.isTracking (swipeStateRef s)) then
          set_swipeStateRef
            (SwipeState.mk true currentX currentY currentX currentY currentTime) s
        else
          let s1 := set_swipeStateRef
                      (SwipeState.set_current currentX currentY (swipeStateRef s)) s in
          let deltaX := currentX - SwipeState.startX (swipeStateRef s1) in
          let deltaY := Math.abs (currentY - SwipeState.startY (swipeStateRef s1)) in
          let timeElapsed := (currentTime - SwipeState.startTime (swipeStateRef s1))%Z in
          if swipeComplete deltaX deltaY timeElapsed then
            let s2 := hideChartWithAnimation now s1 in
            set_swipeStateRef (SwipeState.set_isTracking false (swipeStateRef s2)) s2
          else if (timeElapsed >? 1000)%Z then
            set_swipeStateRef (SwipeState.set_isTracking false (swipeStateRef s1)) s1
          else s1
      else
        set_swipeStateRef (SwipeState.set_isTracking false (swipeStateRef s)) s
  end.

End Swipe.

(** ** Pinch detector and drag manager: the manipulation branch *)

Section Drag.
Local Open Scope float_scope.

(** The drop zone configuration object. *)
Definition dropZone_x : float := 0.5.
Definition dropZone_y : float := 0.7.
Definition dropZone_width : float := 0.3.
Definition dropZone_height : float := 0.2.

Definition pinchThreshold : float := 0.05.

(** [Math.sqrt(Math.pow(a.x - b.x, 2) + Math.pow(a.y - b.y, 2))] *)
Definition dist (ax ay bx by_ : float) : float :=
  Math.sqrt (Math.pow2 (ax - bx) + Math.pow2 (ay - by_)).

(** [distance] between thumb tip (4) and index tip (8). *)
Definition distance (landmarks : Hand) : float :=
  let thumbTip := at_index landmarks 4 in
  let indexTip := at_index landmarks 8 in
  dist (Landmark.x thumbTip) (Landmark.y thumbTip) (Landmark.x indexTip) (Landmark.y indexTip).

Definition pinchX (landmarks : Hand) : float :=
  (Landmark.x (at_index landmarks 4) + Landmark.x (at_index landmarks 8)) / 2.
Definition pinchY (landmarks : Hand) : float :=
  (Landmark.y (at_index landmarks 4) + Landmark.y (at_index landmarks 8)) / 2.

(** The generate button's rectangle contains the pinch point. *)
Definition onButton (canvasWidth canvasHeight px py : float) : bool :=
  let dropZoneX := dropZone_x * canvasWidth in
  let dropZoneY := dropZone_y * canvasHeight in
  let dropZoneWidth := dropZone_width * canvasWidth in
  let buttonX := (dropZoneX + dropZoneWidth / 2 + 60) / canvasWidth in
  let buttonY := dropZoneY / canvasHeight in
  let buttonWidth := 120 / canvasWidth in
  let buttonHeight := 40 / canvasHeight in
  let buttonLeft := buttonX - buttonWidth / 2 in
  let buttonRight := buttonX + buttonWidth / 2 in
  let buttonTop := buttonY - buttonHeight / 2 in
  let buttonBottom := buttonY + buttonHeight / 2 in
  geb px buttonLeft && (px <=? buttonRight) && geb py buttonTop && (py <=? buttonBottom).

(** The drop zone's rectangle contains the table centre. *)
Definition inDropZone (tableX tableY : float) : bool :=
  let dropZoneLeft := dropZone_x - dropZone_width / 2 in
  let dropZoneRight := dropZone_x + dropZone_width / 2 in
  let dropZoneTop := dropZone_y - dropZone_height / 2 in
  let dropZoneBottom := dropZone_y + dropZone_height / 2 in
  geb tableX dropZoneLeft && (tableX <=? dropZoneRight) &&
  geb tableY dropZoneTop && (tableY <=? dropZoneBottom).

(** The body of the button branch once the latch is taken. *)
Definition generate (now : Z) (s : State) : State :=
  if (List.length (droppedTablesRef s) =? 0)%nat then
    showToast now "Please drop at least one table into the drop zone" error s
  else
    let s1 := showToast now
                ("Creating chart with " ++ string_of_nat (List.length (droppedTablesRef s))
                   ++ " table(s)") info s in
    let s2 := fetchTableData (droppedTablesRef s1) s1 in
    setTimeout now ShowChart 500 s2.

(** [for (const table of currentTables) { if (distToTable < tableSize) { ...; break } }]:
    the id of the first table hit, if any, and the array after the write. *)
Fixpoint grabFirst (px py tableSize : float) (tables : list TableObject.t)
  : option string * list TableObject.t :=
  match tables with
  | [] => (None, [])
  | table :: rest =>
      let distToTable := dist px py (TableObject.x table) (TableObject.y table) in
      if distToTable <? tableSize then
        (Some (TableObject.id table), TableObject.set_isDragging true table :: rest)
      else
        let (hit, rest') := grabFirst px py tableSize rest in
        (hit, table :: rest')
  end.

(** Truthiness of [draggedTableRef.current : string | null]. *)
Definition truthy (r : option string) : bool :=
  match r with
  | Some s => negb (s =? "")%string
  | None => false
  end.

(** [t.id === draggedTableRef.current] *)
Definition isDragged (r : option string) (t : TableObject.t) : bool :=
  match r with
  | Some s => (TableObject.id t =? s)%string
  | None => false
  end.

(** A write through the reference [currentTables.find(p)] returned. *)
Fixpoint updateFound (p : TableObject.t -> bool) (f : TableObject.t -> TableObject.t)
  (tables : list TableObject.t) : list TableObject.t :=
  match tables with
  | [] => []
  | t :: rest => if p t then f t :: rest else t :: updateFound p f rest
  end.

Definition clamp (v : float) : float := Math.max 0.05 (Math.min 0.95 v).

(** The three edges of the pinch detector, for one hand. *)

Definition pinchStart (now : Z) (canvasWidth canvasHeight px py : float) (s : State) : State :=
  let s1 :=
    if onButton canvasWidth canvasHeight px py then
      let s' := set_generateButtonHoverRef true s in
      if negb (buttonClickedRef s') then generate now (set_buttonClickedRef true s')
      else s'
    else
      let tableSize := 60 / Math.min canvasWidth canvasHeight in
      match grabFirst px py tableSize (tablesRef s) with
      | (Some i, tables') => set_tablesRef tables' (set_draggedTableRef (Some i) s)
      | (None, _) => s
      end in
  set_pinchStateRef (PinchState.mk true px py) s1.

Definition pinchContinue (px py : float) (s : State) : State :=
  let pinchState := pinchStateRef s in
  let s1 :=
    if truthy (draggedTableRef s) then
      let deltaX := px - PinchState.x pinchState in
      let deltaY := py - PinchState.y pinchState in
      set_tablesRef
        (updateFound (isDragged (draggedTableRef s))
           (fun draggedTable =>
              TableObject.set_xy
                (clamp (TableObject.x draggedTable + deltaX))
                (clamp (TableObject.y draggedTable + deltaY))
                draggedTable)
           (tablesRef s)) s
    else s in
  set_pinchStateRef (PinchState.mk true px py) s1.

(** [droppedTablesRef.current.includes(name)] *)
Definition includes (names : list string) (n : string) : bool :=
  existsb (fun m => (m =? n)%string) names.

Definition pinchRelease (s : State) : State :=
  let s1 := set_buttonClickedRef false (set_generateButtonHoverRef false s) in
  let s2 :=
    if truthy (draggedTableRef s1) then
      let s' :=
        match find (isDragged (draggedTableRef s1)) (tablesRef s1) with
        | Some draggedTable =>
            let s'' := set_tablesRef
                         (updateFound (isDragged (draggedTableRef s1))
                            (TableObject.set_isDragging false) (tablesRef s1)) s1 in
            if inDropZone (TableObject.x draggedTable) (TableObject.y draggedTable) then
              if negb (includes (droppedTablesRef s'') (TableObject.name draggedTable)) then
                set_droppedTablesRef
                  (droppedTablesRef s'' ++ [TableObject.name draggedTable]) s''
              else s''
            else s''
        | None => s1
        end in
      set_draggedTableRef None s'
    else s1 in
  set_pinchStateRef (PinchState.mk false 0 0) s2.

(** The body of the loop over [results.multiHandLandmarks]. *)
Definition processHand (now : Z) (canvasWidth canvasHeight : float)
  (s : State) (landmarks : Hand) : State :=
  let isPinching := distance landmarks <? pinchThreshold in
  let pinchState := pinchStateRef s in
  if isPinching then
    if negb (PinchState.isPinching pinchState) then
      pinchStart now canvasWidth canvasHeight (pinchX landmarks) (pinchY landmarks) s
    else
      pinchContinue (pinchX landmarks) (pinchY landmarks) s
  else if PinchState.isPinching pinchState then
    pinchRelease s
  else s.

(** The [else if (pinchStateRef.current.isPinching)] branch taken when no
    hand is detected. *)
Definition noHandsRelease (s : State) : State :=
  let s1 := set_generateButtonHoverRef false s in
  let s2 :=
    if truthy (draggedTableRef s1) then
      set_draggedTableRef None
        (set_tablesRef
           (updateFound (isDragged (draggedTableRef s1))
              (TableObject.set_isDragging false) (tablesRef s1)) s1)
    else s1 in
  set_pinchStateRef (PinchState.mk false 0 0) s2.

Definition dragFrame (now : Z) (canvasWidth canvasHeight : float)
  (results : list Hand) (s : State) : State :=
  match results with
  | _ :: _ => fold_left (processHand now canvasWidth canvasHeight) results s
  | [] => if PinchState.isPinching (pinchStateRef s) then noHandsRelease s else s
  end.

End Drag.

(** ** Render loops and their closures

    [renderLoop] is created by the effect of the component, once per run of
    the effect, and the effect runs again whenever [cameraId], [showChart],
    [toast], [chartData], [loadingData] or [chartAnimationState] changes.  A
    loop reads the refs through [.current], but the [showChart] it branches
    on is the constant its closure captured.  The cleanup of a run cancels
    the frame its loop has requested; a loop that starts only after its
    cleanup has run ([setupCamera] is asynchronous) is never cancelled and
    keeps ticking with the [showChart] it captured.

    [loopTick shown] is one executed tick of a loop that captured [shown]:
    [results] is [handResultsRef.current] ([[]] when there is no result or
    no hand), the canvas has just been sized to the window. *)
Definition loopTick (shown : bool) (now : Z) (canvasWidth canvasHeight : float)
  (results : list Hand) (s : State) : State :=
  if shown then chartFrame now results s
  else dragFrame now canvasWidth canvasHeight results s.

(** One executed tick of the loop of the latest run of the effect, whose
    closure holds the [showChart] of the current render. *)
Definition renderLoop (now : Z) (canvasWidth canvasHeight : float)
  (results : list Hand) (s : State) : State :=
  if showChart s then chartFrame now results s
  else dragFrame now canvasWidth canvasHeight results s.

(** ** The effect that creates the table objects *)

Section Init.
Local Open Scope float_scope.

Definition fallbackTables : list string := ["users"; "posts"; "comments"; "products"]%string.

Definition newTable (now : Z) (tableName : string) (index : nat) : TableObject.t :=
  TableObject.mk
    (tableName ++ "-" ++ string_of_Z now ++ "-" ++ string_of_nat index)%string
    tableName
    (0.1 + (Math.of_index index * 0.15))
    0.1
    false.

(** [array.map((element, index) => f(element, index))], from [index] on. *)
Fixpoint mapi_from {A B : Type} (f : A -> nat -> B) (index : nat) (l : list A) : list B :=
  match l with
  | [] => []
  | a :: rest => f a index :: mapi_from f (S index) rest
  end.

Definition initTables (now : Z) (availableTables : list string) (tablesLoading : bool)
  (s : State) : State :=
  if negb tablesLoading && negb (tablesInitialized s) then
    let displayTables :=
      if (0 <? List.length availableTables)%nat then availableTables else fallbackTables in
    let tableObjects := mapi_from (newTable now) 0 displayTables in
    set_tablesInitialized true (set_tablesRef tableObjects s)
  else s.

End Init.

(** ** Events of the single-threaded event loop *)

(** [Tick] is a tick of the loop of the latest run of the effect
    ([renderLoop] above); ticks of loops that outlive their run come with
    [Action] below. *)
Inductive Event :=
| Tick (now : Z) (canvasWidth canvasHeight : float) (results : list Hand)
| Timer (now : Z) (n : nat)          (* the [n]-th pending callback runs *)
| TablesEffect (now : Z) (availableTables : list string) (tablesLoading : bool).

Fixpoint remove_nth {A : Type} (n : nat) (l : list A) : list A :=
  match l, n with
  | [], _ => []
  | _ :: rest, O => rest
  | a :: rest, S n' => a :: remove_nth n' rest
  end.

Definition step (s : State) (e : Event) : State :=
  match e with
  | Tick now w h results => renderLoop now w h results s
  | Timer now n =>
      match nth_error (timers s) n with
      | Some (due, cb) =>
          if (due <=? now)%Z then runCallback now cb (set_timers (remove_nth n (timers s)) s)
          else s
      | None => s
      end
  | TablesEffect now availableTables tablesLoading =>
      initTables now availableTables tablesLoading s
  end.

Definition run (events : list Event) (s : State) : State := fold_left step events s.

Definition reachable (s : State) : Prop := exists events, s = run events initialState.

(** The same with every loop that may be alive: a tick may come from a loop
    that captured either value of [showChart], whatever the current one is. *)
Inductive Action :=
| LoopTick (shown : bool) (now : Z) (canvasWidth canvasHeight : float) (results : list Hand)
| Fires (now : Z) (n : nat)          (* the [n]-th pending callback runs *)
| Effect (now : Z) (availableTables : list string) (tablesLoading : bool).

Definition act (s : State) (a : Action) : State :=
  match a with
  | LoopTick shown now w h results => loopTick shown now w h results s
  | Fires now n => step s (Timer now n)
  | Effect now availableTables tablesLoading =>
      step s (TablesEffect now availableTables tablesLoading)
  end.

Definition attainable (s : State) : Prop :=
  exists actions, s = fold_left act actions initialState.

(** ** The 30 Hz cap of the render loop *)

Section Throttle.
Local Open Scope float_scope.

Definition targetFPS : float := 30.
Definition frameInterval : float := 1000 / targetFPS.

(** One [requestAnimationFrame] callback. *)
Record Frame := mkFrame {
  currentTime : float;              (* the timestamp handed to [renderLoop] *)
  frameNow : Z;                     (* [Date.now()] during the callback *)
  innerWidth : float;
  innerHeight : float;
  handResults : list Hand           (* [handResultsRef.current] *)
}.

(** [renderLoop(currentTime)] with its guard, for a loop that captured
    [shown]; the canvas, the video and the drawing context are there.
    [lastFrameTime] is a local of the run of the effect that created the
    loop: it starts at 0 and only this loop reads or writes it.  A callback
    that comes too early only re-arms the loop. *)
Definition animationFrame (shown : bool) (ls : float * State) (f : Frame) : float * State :=
  let (lastFrameTime, s) := ls in
  if currentTime f - lastFrameTime <? frameInterval then ls
  else (currentTime f,
        loopTick shown (frameNow f) (innerWidth f) (innerHeight f) (handResults f) s).

(** What happens during the life of one loop: its own callbacks and, in
    between, whatever else writes the shared state (timer callbacks, ticks
    of other loops, effects). *)
Inductive LoopStep :=
| Own (f : Frame)
| Meanwhile (g : State -> State).

Definition loopStep (shown : bool) (ls : float * State) (x : LoopStep) : float * State :=
  match x with
  | Own f => animationFrame shown ls f
  | Meanwhile g => (fst ls, g (snd ls))
  end.

Definition loopRun (shown : bool) (steps : list LoopStep) (ls : float * State)
  : float * State :=
  fold_left (loopStep shown) steps ls.

End Throttle.

(** ** The basic variant of the component

    The second [HandTracking.tsx] of the repository has no drop zone, no
    button and no chart: its state is the table array, the drag target and
    the pinch state (and the flag of the creation effect, which is the same
    code as above and is not repeated).  Its canvas is sized to the video
    ([videoWidth] x [videoHeight]), not to the window. *)

Module Basic.
Section Basic.
Local Open Scope float_scope.

Record State := mkState {
  tablesRef : list TableObject.t;
  draggedTableRef : option string;
  pinchStateRef : PinchState.t
}.

Definition pinchStart (canvasWidth canvasHeight px py : float) (s : State) : State :=
  let tableSize := 60 / Math.min canvasWidth canvasHeight in
  match grabFirst px py tableSize (tablesRef s) with
  | (Some i, tables') => mkState tables' (Some i) (PinchState.mk true px py)
  | (None, _) => mkState (tablesRef s) (draggedTableRef s) (PinchState.mk true px py)
  end.

Definition pinchContinue (px py : float) (s : State) : State :=
  let pinchState := pinchStateRef s in
  let tables' :=
    if truthy (draggedTableRef s) then
      let deltaX := px - PinchState.x pinchState in
      let deltaY := py - PinchState.y pinchState in
      updateFound (isDragged (draggedTableRef s))
        (fun draggedTable =>
           TableObject.set_xy
             (clamp (TableObject.x draggedTable + deltaX))
             (clamp (TableObject.y draggedTable + deltaY))
             draggedTable)
        (tablesRef s)
    else tablesRef s in
  mkState tables' (draggedTableRef s) (PinchState.mk true px py).

(** The [else if (pinchState.isPinching)] branch of the loop over the hands. *)
Definition pinchRelease (s : State) : State :=
  if truthy (draggedTableRef s) then
    mkState
      (updateFound (isDragged (draggedTableRef s)) (TableObject.set_isDragging false)
         (tablesRef s))
      None (PinchState.mk false 0 0)
  else mkState (tablesRef s) (draggedTableRef s) (PinchState.mk false 0 0).

Definition processHand (canvasWidth canvasHeight : float) (s : State) (landmarks : Hand)
  : State :=
  let isPinching := distance landmarks <? pinchThreshold in
  let pinchState := pinchStateRef s in
  if isPinching then
    if negb (PinchState.isPinching pinchState) then
      pinchStart canvasWidth canvasHeight (pinchX landmarks) (pinchY landmarks) s
    else
      pinchContinue (pinchX landmarks) (pinchY landmarks) s
  else if PinchState.isPinching pinchState then
    pinchRelease s
  else s.

(** The branch taken when no hand is detected. *)
Definition noHandsRelease (s : State) : State :=
  let tables' :=
    if truthy (draggedTableRef s) then
      updateFound (isDragged (draggedTableRef s)) (TableObject.set_isDragging false)
        (tablesRef s)
    else tablesRef s in
  let dragged' := if truthy (draggedTableRef s) then None else draggedTableRef s in
  mkState tables' dragged' (PinchState.mk false 0 0).

Definition renderLoop (canvasWidth canvasHeight : float) (results : list Hand) (s : State)
  : State :=
  match results with
  | _ :: _ => fold_left (processHand canvasWidth canvasHeight) results s
  | [] => if PinchState.isPinching (pinchStateRef s) then noHandsRelease s else s
  end.

End Basic.
End Basic.

(** The part of the richer component's state the basic variant has too. *)
Definition basic_of (s : State) : Basic.State :=
  Basic.mkState (tablesRef s) (draggedTableRef s) (pinchStateRef s).

(** ** Strings of JavaScript

    A string is the sequence of its UTF-8 bytes.  The methods below act on
    it as the JavaScript methods act on the string it encodes, for the
    arguments the component passes (the needles and suffixes are ASCII).
    [toLowerCase] is a parameter of the code that uses it. *)

Module JSString.
Local Open Scope string_scope.

(** [s.startsWith(p)] *)
Definition startsWith (s p : string) : bool := prefix p s.

(** [s.includes(sub)] *)
Fixpoint includes (s sub : string) : bool :=
  prefix sub s ||
  match s with
  | EmptyString => false
  | String _ rest => includes rest sub
  end.

(** [s.endsWith(suf)] *)
Fixpoint endsWith (s suf : string) : bool :=
  (s =? suf) ||
  match s with
  | EmptyString => false
  | String _ rest => endsWith rest suf
  end.

(** [s.slice(0, -k)] for [k > 0] *)
Definition dropLast (k : nat) (s : string) : string :=
  substring 0 (String.length s - k) s.

(** Truthiness of a string. *)
Definition nonEmpty (s : string) : bool := negb (s =? "").

(** The last character of the string, if there is one, is ASCII: then
    [slice(0, -1)], which drops a UTF-16 unit, drops exactly the last byte. *)
Fixpoint asciiEnd (s : string) : bool :=
  match s with
  | EmptyString => true
  | String c rest =>
      match rest with
      | EmptyString => (nat_of_ascii c <? 128)%nat
      | String _ _ => asciiEnd rest
      end
  end.

(** A lower-casing that agrees with [toLowerCase] on ASCII strings. *)
Definition asciiLower (s : string) : string :=
  string_of_list_ascii
    (map (fun c => let n := nat_of_ascii c in
                   if (65 <=? n)%nat && (n <=? 90)%nat then ascii_of_nat (n + 32) else c)
       (list_ascii_of_string s)).

End JSString.

(** ** Foreign keys guessed from column names ([useSupabaseTables]) *)

Module Column.
Record raw := mkRaw { column_name : string; data_type : string }.
Record t := mk { name : string; type : string; foreignKey : option string }.
End Column.

Module TableSchema.
Record t := mk { name : string; columns : list Column.t }.
End TableSchema.

Module TableRelationship.
Record t := mk {
  table1 : string;
  table2 : string;
  foreignKey : string;
  referencingTable : string;
  referencedTable : string
}.
End TableRelationship.

Section ForeignKeys.
Local Open Scope string_scope.

Variable toLowerCase : string -> string.

(** The callback of [columns.map] in [detectForeignKeys]. *)
Definition detectForeignKey (tableName : string) (col : Column.raw) : Column.t :=
  let colName := toLowerCase (Column.column_name col) in
  let foreignKey :=
    if JSString.endsWith colName "_id" || JSString.endsWith colName "id" then
      let referencedTable :=
        if JSString.endsWith colName "_id" then JSString.dropLast 3 colName
        else if negb (colName =? "id") && JSString.endsWith colName "id"
             then JSString.dropLast 2 colName
             else "" in
      if JSString.nonEmpty referencedTable
         && negb (referencedTable =? toLowerCase tableName)
      then Some referencedTable else None
    else None in
  Column.mk (Column.column_name col) (Column.data_type col) foreignKey.

Definition detectForeignKeys (tableName : string) (columns : list Column.raw)
  : list Column.t :=
  map (detectForeignKey tableName) columns.

(** [schemas.find(s => ...)] for the foreign key [fk] of a column.
    [slice(0, -1)] drops the last UTF-16 unit and [dropLast 1] the last
    byte: the two agree on keys that end in an ASCII character. *)
Definition referenced (fk : string) (s : TableSchema.t) : bool :=
  (toLowerCase (TableSchema.name s) =? toLowerCase fk) ||
  (toLowerCase (TableSchema.name s) =? toLowerCase fk ++ "s") ||
  (toLowerCase (TableSchema.name s) =? JSString.dropLast 1 (toLowerCase fk)).

(** What one column pushes to [relationships]. *)
Definition columnRelationships (schemas : list TableSchema.t) (schema : TableSchema.t)
  (column : Column.t) : list TableRelationship.t :=
  match Column.foreignKey column with
  | Some fk =>
      if JSString.nonEmpty fk then
        match find (referenced fk) schemas with
        | Some referencedTable =>
            [TableRelationship.mk (TableSchema.name schema)
               (TableSchema.name referencedTable) (Column.name column)
               (TableSchema.name schema) (TableSchema.name referencedTable)]
        | None => []
        end
      else []
  | None => []
  end.

Definition findTableRelationships (schemas : list TableSchema.t)
  : list TableRelationship.t :=
  flat_map (fun schema =>
              flat_map (columnRelationships schemas schema) (TableSchema.columns schema))
    schemas.

(** The loop of [fetchTables] over the table names.  A table comes with the
    columns of its sample row, or with [None] when the request for the
    sample fails or the table has no row; it is then left out. *)
Definition sampledSchemas (samples : list (string * option (list Column.raw)))
  : list TableSchema.t :=
  flat_map (fun sample =>
              match snd sample with
              | Some columns =>
                  [TableSchema.mk (fst sample) (detectForeignKeys (fst sample) columns)]
              | None => []
              end)
    samples.

(** What [fetchTables] hands to [setRelationships]. *)
Definition fetchedRelationships (samples : list (string * option (list Column.raw)))
  : list TableRelationship.t :=
  findTableRelationships (sampledSchemas samples).

End ForeignKeys.

(** ** Relationship between the two charted tables ([detectTableRelationships]) *)

Module Row.
(** A fetched record, as far as the detection reads it: its [_table] tag and
    its own keys in the order of [Object.keys]. *)
Record t := mk { _table : string; keys : list string }.
End Row.

Module Relationship.
Record t := mk {
  foreignKey : string;
  referencingTable : string;
  referencedTable : string;
  referencingData : list Row.t;
  referencedData : list Row.t
}.
End Relationship.

Section TableRelationships.
Local Open Scope string_scope.

Variable toLowerCase : string -> string.

(** The test of the two [filter] calls on the columns. *)
Definition refersTo (table col : string) : bool :=
  JSString.includes (toLowerCase col) (toLowerCase table) ||
  (toLowerCase col =? toLowerCase table ++ "_id") ||
  (toLowerCase col =? toLowerCase table ++ "id").

(** [Object.keys(rows[0] || {}).filter(key => !key.startsWith('_'))] *)
Definition columnsOf (rows : list Row.t) : list string :=
  filter (fun key => negb (JSString.startsWith key "_"))
    (match rows with
     | first :: _ => Row.keys first
     | [] => []
     end).

Definition detectTableRelationships (tableNames : list string) (allData : list Row.t)
  : option Relationship.t :=
  match tableNames with
  | [table1; table2] =>
      let table1Data := filter (fun item => Row._table item =? table1) allData in
      let table2Data := filter (fun item => Row._table item =? table2) allData in
      if (List.length table1Data =? 0)%nat || (List.length table2Data =? 0)%nat then None
      else
        let table1Columns := columnsOf table1Data in
        let table2Columns := columnsOf table2Data in
        let table2RefColumns := filter (refersTo table2) table1Columns in
        let found :=
          match table2RefColumns with
          | foreignKey :: _ => Some (foreignKey, table1, table2)
          | [] =>
              match filter (refersTo table1) table2Columns with
              | foreignKey :: _ => Some (foreignKey, table2, table1)
              | [] => None
              end
          end in
        match found with
        | Some (foreignKey, referencingTable, referencedTable) =>
            if JSString.nonEmpty foreignKey then
              Some (Relationship.mk foreignKey referencingTable referencedTable
                      (if referencingTable =? table1 then table1Data else table2Data)
                      (if referencedTable =? table1 then table1Data else table2Data))
            else None
        | None => None
        end
  | _ => None
  end.

End TableRelationships.

(** ** The chart's x axis and bars ([renderChartView]) *)

Module XAxisType.
Inductive t := date | name | id | other.
End XAxisType.

Section XAxis.
Local Open Scope string_scope.

Variable toLowerCase : string -> string.

Definition dateFields : list string :=
  ["createdAt"; "created_at"; "updatedAt"; "updated_at"; "date"; "timestamp"].

(** [chartData.data[0]?.hasOwnProperty(field)], [keys] being the own keys of
    the first record. *)
Definition hasOwnProperty (keys : list string) (field : string) : bool :=
  existsb (fun key => key =? field) keys.

Definition isNameField (key : string) : bool :=
  JSString.includes (toLowerCase key) "name" || JSString.includes (toLowerCase key) "title".

(** The choice of [xAxisField] and [xAxisType] from the keys of the first
    record, in the four steps of the source. *)
Definition chooseXAxis (keys : list string) : string * XAxisType.t :=
  (* First priority: name/title fields, 'title' preferred *)
  let nameFields := filter isNameField keys in
  let r1 :=
    match nameFields with
    | first :: _ =>
        (match find (fun f => JSString.includes (toLowerCase f) "title") nameFields with
         | Some f => if JSString.nonEmpty f then f else first
         | None => first
         end, XAxisType.name)
    | [] => ("", XAxisType.other)
    end in
  (* Second priority: date fields *)
  let r2 :=
    if JSString.nonEmpty (fst r1) then r1
    else match find (hasOwnProperty keys) dateFields with
         | Some field => (field, XAxisType.date)
         | None => r1
         end in
  (* Third priority: id *)
  let r3 :=
    if negb (JSString.nonEmpty (fst r2)) && hasOwnProperty keys "id"
    then ("id", XAxisType.id) else r2 in
  (* Last resort: first available field *)
  if JSString.nonEmpty (fst r3) then r3
  else
    match filter (fun key => negb (JSString.startsWith key "_") && negb (key =? "id")) keys with
    | first :: _ => (first, XAxisType.other)
    | [] => ("id", XAxisType.id)
    end.

End XAxis.

Module Group.
(** An entry of [groupedData]. *)
Record t := mk { label : string; count : nat; table : string }.
End Group.

Section Grouping.
Local Open Scope string_scope.

(** [valueGroups], a [Map] in insertion order: value, count and table. *)
Definition ValueGroups := list (string * (nat * string)).

Definition has (groups : ValueGroups) (value : string) : bool :=
  existsb (fun entry => fst entry =? value) groups.

(** [valueGroups.get(value)!.count++] *)
Fixpoint increment (value : string) (groups : ValueGroups) : ValueGroups :=
  match groups with
  | [] => []
  | (v, (count, table)) :: rest =>
      if v =? value then (v, (S count, table)) :: rest
      else (v, (count, table)) :: increment value rest
  end.

(** The body of [chartData.data.forEach] in the grouping by value; an item
    is given by [String(item[xAxisField] || 'Unknown')] and [item._table]. *)
Definition addItem (groups : ValueGroups) (item : string * string) : ValueGroups :=
  let (value, table) := item in
  let groups' := if negb (has groups value) then (groups ++ [(value, (0%nat, table))])%list
                 else groups in
  increment value groups'.

Definition valueGroups (items : list (string * string)) : ValueGroups :=
  fold_left addItem items [].

(** [Array.from(valueGroups.entries()).map(...).slice(0, 20)] *)
Definition groupByValue (items : list (string * string)) : list Group.t :=
  firstn 20
    (map (fun entry => Group.mk (fst entry) (fst (snd entry)) (snd (snd entry)))
       (valueGroups items)).

End Grouping.

(** ** Choosing the camera ([CameraSelector] and [App]) *)

Module MediaDeviceInfo.
Record t := mk { kind : string; deviceId : string; label : string }.
End MediaDeviceInfo.

Module CameraDevice.
Record t := mk { deviceId : string; label : string }.
End CameraDevice.

(** The state of [CameraSelector]. *)
Module Selector.
Record t := mk {
  cameras : list CameraDevice.t;
  selectedCamera : string;
  loading : bool;
  error : string
}.
End Selector.

Section Camera.
Local Open Scope string_scope.

(** [devices.filter(...).map((device, index) => ...)] of [getCameras]. *)
Definition videoDevices (devices : list MediaDeviceInfo.t) : list CameraDevice.t :=
  mapi_from
    (fun device index =>
       CameraDevice.mk (MediaDeviceInfo.deviceId device)
         (if JSString.nonEmpty (MediaDeviceInfo.label device)
          then MediaDeviceInfo.label device
          else "Camera " ++ string_of_nat (index + 1)))
    0
    (filter (fun device => MediaDeviceInfo.kind device =? "videoinput") devices).

(** The state of [App], with the selector below it. *)
Record App := mkApp {
  selectedCameraId : option string;
  selector : Selector.t
}.

Definition initialApp : App := mkApp None (Selector.mk [] "" true "").

(** [App] renders [HandTracking] once [selectedCameraId] is truthy. *)
Definition tracking (a : App) : bool := truthy (selectedCameraId a).

Inductive AppEvent :=
| Enumerated (devices : option (list MediaDeviceInfo.t))
    (* [getCameras] settles: the device list, or an exception *)
| Change (value : string)       (* [onChange] of the select *)
| StartTracking.                (* click on the button *)

(** [getCameras], from the answer of the browser on: the device list, or
    [None] when [getUserMedia] or [enumerateDevices] throws. *)
Definition getCameras (devices : option (list MediaDeviceInfo.t)) (c : Selector.t)
  : Selector.t :=
  match devices with
  | Some devices =>
      match videoDevices devices with
      | [] =>
          Selector.mk (Selector.cameras c) (Selector.selectedCamera c) false
            "No cameras found on this device"
      | first :: rest =>
          Selector.mk (first :: rest) (CameraDevice.deviceId first) false (Selector.error c)
      end
  | None =>
      Selector.mk (Selector.cameras c) (Selector.selectedCamera c) false
        "Unable to access cameras. Please ensure you have granted camera permissions."
  end.

(** The select and the button exist when the selector is mounted, has
    finished loading and shows no error. *)
Definition formShown (a : App) : bool :=
  negb (tracking a) && negb (Selector.loading (selector a))
  && negb (JSString.nonEmpty (Selector.error (selector a))).

(** One event of the start screen.  Once [HandTracking] is rendered the
    selector is unmounted and its events have no effect. *)
Definition appStep (a : App) (e : AppEvent) : App :=
  match e with
  | Enumerated devices =>
      if tracking a then a else mkApp (selectedCameraId a) (getCameras devices (selector a))
  | Change value =>
      if formShown a then
        mkApp (selectedCameraId a)
          (Selector.mk (Selector.cameras (selector a)) value (Selector.loading (selector a))
             (Selector.error (selector a)))
      else a
  | StartTracking =>
      if formShown a then
        if JSString.nonEmpty (Selector.selectedCamera (selector a))
        then mkApp (Some (Selector.selectedCamera (selector a))) (selector a)
        else a
      else a
  end.

Definition appRun (events : list AppEvent) (a : App) : App := fold_left appStep events a.

End Camera.

(** * Sample inputs and auxiliary notions *)

Section Samples.
Local Open Scope float_scope.

Definition pt (x y : float) : Landmark.t := Landmark.mk x y 0.

(** A 21-point hand with the given thumb tip (4), index PIP (6) and index
    tip (8); the other landmarks sit at the origin. *)
Definition hand (thumbTip indexPIP indexTip : Landmark.t) : Hand :=
  [origin; origin; origin; origin; thumbTip; origin; indexPIP; origin; indexTip;
   origin; origin; origin; origin; origin; origin; origin; origin; origin;
   origin; origin; origin].

(** Thumb and index tips together at [(x, y)]. *)
Definition pinchAt (x y : float) : Hand := hand (pt x y) (pt x y) (pt x y).

(** Thumb and index tips far apart. *)
Definition openHand : Hand := hand (pt 0.2 0.2) (pt 0.5 0.5) (pt 0.8 0.8).

(** Index finger extended, its tip at [(x, y)]. *)
Definition pointAt (x y : float) : Hand := hand origin (pt x (y + 0.2)) (pt x y).

(** One table named orders, grabbed at its initial place and carried to the
    centre of the drop zone on a 1280 x 720 canvas; the pinch is still held. *)
Definition carrying : State :=
  run [TablesEffect 0 ["orders"%string] false;
       Tick 100 1280 720 [pinchAt 0.1 0.1];
       Tick 133 1280 720 [pinchAt 0.5 0.7]] initialState.

(** The table dropped, then the generate button pinched and the chart shown:
    the view is [entering], 800 ms short of [visible]. *)
Definition chartEntering : State :=
  run [Tick 166 1280 720 [openHand];
       Tick 200 1280 720 [pinchAt 0.7 0.7];
       Timer 700 1] carrying.

(** The write of the continue step to the dragged table. *)
Definition moved (px py : float) (s : State) (t : TableObject.t) : TableObject.t :=
  TableObject.set_xy
    (clamp (TableObject.x t + (px - PinchState.x (pinchStateRef s))))
    (clamp (TableObject.y t + (py - PinchState.y (pinchStateRef s)))) t.

(** Scenario D: the table sits at (0.02, 0.5) and is being dragged; the
    pinch point was at (0.5, 0.5). *)
Definition scenarioD : State :=
  set_pinchStateRef (PinchState.mk true 0.5 0.5)
    (set_draggedTableRef (Some "orders-0-0"%string)
      (set_tablesRef [TableObject.mk "orders-0-0" "orders" 0.02 0.5 true] initialState)).

(** While the view state is [hidden] the chart is not shown. *)
Definition hidden_not_shown (s : State) : Prop :=
  chartAnimationState s = hidden -> showChart s = false.

(** The view state a callback leaves behind. *)
Definition callbackSets (cb : Callback) (before : AnimationState) : AnimationState :=
  match cb with
  | ClearToast => before
  | ShowChart => entering
  | EntranceDone => visible
  | ExitDone => hidden
  end.

(** The state one tick before the swipe completes: the index finger has
    started a swipe at (0.2, 0.5) while the view is still [entering]. *)
Definition swipeStarted : State := step chartEntering (Tick 710 1280 720 [pointAt 0.2 0.5]).

(** The error toast is up: the button was pinched with an empty DroppedSet
    and the pinch is still held, the latch taken. *)
Definition latched : State := renderLoop 50 1280 720 [pinchAt 0.7 0.7] initialState.

(** [after] is [before] with names appended at the end. *)
Definition appended (before after : list string) : Prop :=
  exists added, after = before ++ added.

(** The event is the exit callback of [hideChartWithAnimation], due. *)
Definition exitRuns (s : State) (e : Event) : Prop :=
  exists now n due,
    e = Timer now n /\ nth_error (timers s) n = Some (due, ExitDone) /\ (due <= now)%Z.

(** orders has been dropped once and is held over the drop zone again. *)
Definition carryingAgain : State :=
  run [Tick 166 1280 720 [openHand]; Tick 200 1280 720 [pinchAt 0.5 0.7]] carrying.

(** The x a table gets at creation. *)
Definition initialX (index : nat) : float := 0.1 + (Math.of_index index * 0.15).

(** Seven table names. *)
Definition sevenTables : list string :=
  ["a"; "b"; "c"; "d"; "e"; "f"; "g"]%string.

(** A single table lying under the generate button of a 1280 x 720 canvas. *)
Definition underButton : State :=
  set_tablesRef [TableObject.mk "orders-0-0" "orders" 0.7 0.7 false] initialState.

(** [latched] after a frame without hands, with orders put into DroppedSet:
    the pinch is over, the latch is still taken. *)
Definition stillLatched : State :=
  set_droppedTablesRef ["orders"%string] (renderLoop 166 1280 720 [] latched).

(** orders dropped into the zone, no pinch held. *)
Definition ordersDropped : State := renderLoop 166 1280 720 [openHand] carrying.

(** The table's centre lies within [tableSize] of the point [(px, py)]: the
    test of the grab loop. *)
Definition hit (px py tableSize : float) (t : TableObject.t) : bool :=
  dist px py (TableObject.x t) (TableObject.y t) <? tableSize.

(** What never changes of a table, and what a drag changes. *)
Definition identity (t : TableObject.t) : string * string :=
  (TableObject.id t, TableObject.name t).
Definition position (t : TableObject.t) : float * float :=
  (TableObject.x t, TableObject.y t).

(** No character of the string is a dash. *)
Fixpoint dashless (s : string) : bool :=
  match s with
  | EmptyString => true
  | String c rest => negb (Ascii.eqb c "-"%char) && dashless rest
  end.

(** The drag manager's bookkeeping is consistent: ids are distinct and not
    empty, a stored drag target is not the empty string, there is none
    outside a pinch, and a table flagged as dragging is the drag target. *)
Definition consistent (tables : list TableObject.t) (dragged : option string)
  (pinching : bool) : Prop :=
  NoDup (map TableObject.id tables) /\
  Forall (fun i => i <> ""%string) (map TableObject.id tables) /\
  (forall i, dragged = Some i -> i <> ""%string) /\
  (pinching = false -> dragged = None) /\
  (forall t, In t tables -> TableObject.isDragging t = true ->
             dragged = Some (TableObject.id t)).

Definition drag_consistent (s : State) : Prop :=
  consistent (tablesRef s) (draggedTableRef s) (PinchState.isPinching (pinchStateRef s)).

(** A catalog request is well formed for the tables [names]: it asks for at
    least one table, for no table twice, and only for tables of the list. *)
Definition request_ok (names : list string) (r : list string) : Prop :=
  r <> [] /\ NoDup r /\ incl r names.

(** DroppedSet and the requests issued so far only name existing tables. *)
Definition names_known (s : State) : Prop :=
  (tablesInitialized s = false -> tablesRef s = []) /\
  NoDup (droppedTablesRef s) /\
  incl (droppedTablesRef s) (map TableObject.name (tablesRef s)) /\
  Forall (request_ok (map TableObject.name (tablesRef s))) (requests s).

(** The callbacks that get past the guard, [last] being the timestamp of the
    last one that did. *)
Fixpoint passes (last : float) (frames : list Frame) : list Frame :=
  match frames with
  | [] => []
  | f :: rest =>
      if currentTime f - last <? frameInterval then passes last rest
      else f :: passes (currentTime f) rest
  end.

(** Each timestamp is not less than [frameInterval] after the one before. *)
Fixpoint spaced (last : float) (stamps : list float) : Prop :=
  match stamps with
  | [] => True
  | t :: rest => (t - last <? frameInterval) = false /\ spaced t rest
  end.

(** The callbacks of the loop among the steps of its life. *)
Fixpoint ownFrames (steps : list LoopStep) : list Frame :=
  match steps with
  | [] => []
  | Own f :: rest => f :: ownFrames rest
  | Meanwhile _ :: rest => ownFrames rest
  end.

(** What the steps do to the shared state: the ticks of the callbacks that
    get past the guard, and what happens meanwhile, in their order. *)
Fixpoint effects (shown : bool) (last : float) (steps : list LoopStep)
  : list (State -> State) :=
  match steps with
  | [] => []
  | Own f :: rest =>
      if currentTime f - last <? frameInterval then effects shown last rest
      else loopTick shown (frameNow f) (innerWidth f) (innerHeight f) (handResults f)
           :: effects shown (currentTime f) rest
  | Meanwhile g :: rest => g :: effects shown last rest
  end.

(** Three callbacks 16 ms apart after a tick at time 0, with the toast
    expiring in between. *)
Definition threeCallbacks : list LoopStep :=
  [Own (mkFrame 16 16 1280 720 []); Meanwhile (set_toast None);
   Own (mkFrame 32 32 1280 720 []); Own (mkFrame 48 48 1280 720 [])].

(** A tracked swipe completes in this tick of a loop that shows the chart:
    the test of the swipe branch. *)
Definition completes (now : Z) (results : list Hand) (s : State) : bool :=
  match results with
  | [] => false
  | landmarks :: _ =>
      (Landmark.y (at_index landmarks 8) <? Landmark.y (at_index landmarks 6))
      && SwipeState.isTracking (swipeStateRef s)
      && swipeComplete
           (Landmark.x (at_index landmarks 8) - SwipeState.startX (swipeStateRef s))
           (Math.abs (Landmark.y (at_index landmarks 8)
                      - SwipeState.startY (swipeStateRef s)))
           (now - SwipeState.startTime (swipeStateRef s))
  end.

(** The swipe of [swipeStarted] completes during the entrance, the exit
    callback runs at 1350 ms and the entrance callback, still pending, after
    it at 1500 ms. *)
Definition lateEntrance : State :=
  run [Tick 750 1280 720 [pointAt 0.6 0.5]; Timer 1350 2; Timer 1500 1] swipeStarted.

(** The chart is visible; a swipe completes at 2000 ms and a second one at
    2200 ms, during the exit: two exit callbacks are pending. *)
Definition exitingTwice : State :=
  run [Timer 1500 1;
       Tick 1600 1280 720 [pointAt 0.2 0.5]; Tick 2000 1280 720 [pointAt 0.55 0.55];
       Tick 2033 1280 720 [pointAt 0.2 0.5]; Tick 2200 1280 720 [pointAt 0.6 0.5]]
    chartEntering.

(** The first exit callback has run at 2600 ms and the view is [hidden];
    the hand lets go of the button, grabs orders where it lies in the drop
    zone and releases it there. *)
Definition droppedAfterExit : State :=
  run [Timer 2600 1;
       Tick 2633 1280 720 [openHand]; Tick 2666 1280 720 [pinchAt 0.5 0.7];
       Tick 2700 1280 720 [openHand]]
    exitingTwice.

(** One table named orders, at its initial place (0.1, 0.1). *)
Definition ordersCreated : State := step initialState (TablesEffect 0 ["orders"%string] false).

(** Every foreign key of the schemas, lower-cased, ends in an ASCII
    character. *)
Definition asciiKeys (toLowerCase : string -> string) (schemas : list TableSchema.t) : bool :=
  forallb (fun schema =>
             forallb (fun column =>
                        match Column.foreignKey column with
                        | Some fk => JSString.asciiEnd (toLowerCase fk)
                        | None => true
                        end)
               (TableSchema.columns schema))
    schemas.

(** The number of sampled columns. *)
Definition columnCount (samples : list (string * option (list Column.raw))) : nat :=
  list_sum (map (fun sample => match snd sample with
                               | Some columns => List.length columns
                               | None => 0%nat
                               end) samples).

(** Three tables of a blog; the sample of the last one could not be read. *)
Definition blogTables : list (string * option (list Column.raw)) :=
  [("users", Some [Column.mkRaw "id" "number"; Column.mkRaw "name" "string"]);
   ("posts", Some [Column.mkRaw "id" "number"; Column.mkRaw "User_ID" "number";
                   Column.mkRaw "title" "string"]);
   ("logs", None)]%string.

(** A table whose singular is the prefix of one of its own columns. *)
Definition selfTable : list (string * option (list Column.raw)) :=
  [("users", Some [Column.mkRaw "id" "number"; Column.mkRaw "user_id" "number"])]%string.

(** Rows of two charted tables, post and user: a post and its user. *)
Definition blogRows : list Row.t :=
  [Row.mk "post" ["id"; "user_id"; "title"; "_table"];
   Row.mk "user" ["id"; "name"; "_table"]]%string.

(** The same rows in tables with plural names. *)
Definition pluralRows : list Row.t :=
  [Row.mk "posts" ["id"; "user_id"; "title"; "_table"];
   Row.mk "users" ["id"; "name"; "_table"]]%string.




(** The keys of a record of a posts table. *)
Definition postKeys : list string :=
  ["id"; "created_at"; "Title"; "user_name"; "_table"]%string.

(** Two cameras without labels and a microphone. *)
Definition someDevices : list MediaDeviceInfo.t :=
  [MediaDeviceInfo.mk "videoinput" "cam-a" ""; MediaDeviceInfo.mk "audioinput" "mic" "Mic";
   MediaDeviceInfo.mk "videoinput" "cam-b" ""]%string.

(** What the start screen keeps true: the camera handed to the tracker is
    the selected one and is not empty, and a form without error has cameras. *)
Definition app_ok (a : App) : Prop :=
  (forall id, selectedCameraId a = Some id ->
              JSString.nonEmpty id = true /\
              id = Selector.selectedCamera (selector a) /\
              Selector.cameras (selector a) <> [] /\
              Selector.loading (selector a) = false /\
              Selector.error (selector a) = ""%string) /\
  (Selector.loading (selector a) = false -> Selector.error (selector a) = ""%string ->
   Selector.cameras (selector a) <> []).

End Samples.

(** ** Proof automation *)

Ltac unfold_ops :=
  unfold pinchStart, pinchContinue, pinchRelease, noHandsRelease, generate, showToast,
    fetchTableData, showChartWithAnimation, hideChartWithAnimation, setTimeout.

Ltac split_branches :=
  repeat match goal with
    | |- context [if ?b then _ else _] => destruct b eqn:?
    | |- context [match ?x with Some _ => _ | None => _ end] => destruct x eqn:?
    | |- context [match ?x with (_, _) => _ end] => destruct x eqn:?
    end.

(** Closed goals: conjunctions of equations decided by evaluation. *)
Ltac by_evaluation := repeat apply conj; vm_compute; reflexivity.

(** Field reads through field writes. *)
Ltac read_fields :=
  cbn [showChart chartAnimationState chartData toast loadingData chartAnimationStartRef
       tablesRef draggedTableRef tablesInitialized droppedTablesRef generateButtonHoverRef
       buttonClickedRef pinchStateRef swipeStateRef timers requests
       set_showChart set_chartAnimationState set_chartData set_toast set_loadingData
       set_chartAnimationStartRef set_tablesRef set_draggedTableRef set_tablesInitialized
       set_droppedTablesRef set_generateButtonHoverRef set_buttonClickedRef
       set_pinchStateRef set_swipeStateRef set_timers set_requests].

(** * Properties *)

(** ** Order facts on binary64 *)

Lemma ltb_leb (a b : float) : PrimFloat.ltb a b = true -> PrimFloat.leb a b = true.
Proof.
  rewrite ltb_spec, leb_spec. unfold SFltb, SFleb.
  destruct (SFcompare (Prim2SF a) (Prim2SF b)) as [[ | | ]|]; intros H;
    first [reflexivity | discriminate H].
Qed.

(** ** The clamp of the continue step *)

Section Clamp.
Local Open Scope float_scope.

(** What [clamp] returns, case by case. *)
Lemma clamp_cases (v : float) :
  (is_nan v = true /\ clamp v = nan) \/
  (is_nan v = false /\ (v <? 0.95) = false /\ clamp v = 0.95) \/
  (is_nan v = false /\ (v <? 0.95) = true /\ (0.05 <? v) = false /\ clamp v = 0.05) \/
  (is_nan v = false /\ (v <? 0.95) = true /\ (0.05 <? v) = true /\ clamp v = v).
Proof.
  unfold clamp, Math.min, Math.max.
  change (is_nan 0.95) with false. change (is_nan 0.05) with false.
  change (Math.is_pos_zero 0.95) with false. change (Math.is_neg_zero 0.05) with false.
  cbn [orb andb].
  destruct (is_nan v) eqn:Hnan.
  - left. split; reflexivity.
  - right. destruct (v <? 0.95) eqn:Hhi.
    + right. rewrite Hnan. destruct (0.05 <? v) eqn:Hlo.
      * right. repeat split.
      * left. repeat split.
    + left. repeat split.
Qed.

Lemma clamp_in_range (v : float) :
  is_nan v = false -> (0.05 <=? clamp v) = true /\ (clamp v <=? 0.95) = true.
Proof.
  intros Hnan.
  destruct (clamp_cases v) as [[H _]|[(_ & _ & ->)|[(_ & _ & _ & ->)|(_ & Hhi & Hlo & ->)]]].
  - congruence.
  - split; reflexivity.
  - split; reflexivity.
  - split; apply ltb_leb; assumption.
Qed.

Lemma clamp_idempotent (v : float) : clamp (clamp v) = clamp v.
Proof.
  destruct (clamp_cases v) as [[_ ->]|[(_ & _ & ->)|[(_ & _ & _ & ->)|(Hnan & Hhi & Hlo & E)]]];
    try reflexivity.
  rewrite E.
  destruct (clamp_cases v) as [[H _]|[(_ & H & _)|[(_ & _ & H & _)|(_ & _ & _ & E')]]];
    congruence.
Qed.

End Clamp.

(** ** Writes through [find] *)

Section Found.
Variable p : TableObject.t -> bool.
Variable f : TableObject.t -> TableObject.t.

Lemma updateFound_none (l : list TableObject.t) :
  find p l = None -> updateFound p f l = l.
Proof.
  induction l as [|u l IH]; simpl; [reflexivity|].
  destruct (p u); [discriminate|]. intros H. now rewrite IH.
Qed.

Lemma updateFound_split (l : list TableObject.t) (t : TableObject.t) :
  find p l = Some t ->
  exists l1 l2, l = l1 ++ t :: l2 /\ (forall u, In u l1 -> p u = false) /\ p t = true /\
                updateFound p f l = l1 ++ f t :: l2.
Proof.
  induction l as [|u l IH]; simpl; [discriminate|].
  destruct (p u) eqn:Hu.
  - intros [= ->]. exists [], l. repeat split; try assumption. intros v [].
  - intros H. destruct (IH H) as (l1 & l2 & -> & Hl1 & Ht & E).
    exists (u :: l1), l2. rewrite E. repeat split; try assumption.
    intros v [<-|Hv]; [assumption | now apply Hl1].
Qed.

Lemma find_updateFound (l : list TableObject.t) (t : TableObject.t) :
  find p l = Some t -> p (f t) = true -> find p (updateFound p f l) = Some (f t).
Proof.
  induction l as [|u l IH]; simpl; [discriminate|].
  destruct (p u) eqn:Hu.
  - intros [= ->] Hf. simpl. now rewrite Hf.
  - intros H Hf. simpl. rewrite Hu. now apply IH.
Qed.

End Found.

Lemma isDragged_set_xy r a b t :
  isDragged r (TableObject.set_xy a b t) = isDragged r t.
Proof. destruct r; reflexivity. Qed.

Lemma isDragged_set_isDragging r b t :
  isDragged r (TableObject.set_isDragging b t) = isDragged r t.
Proof. destruct r; reflexivity. Qed.

(** ** The continue step *)

Section Continue.
Local Open Scope float_scope.

Lemma processHand_continue now w h s landmarks :
  PinchState.isPinching (pinchStateRef s) = true ->
  (distance landmarks <? pinchThreshold) = true ->
  processHand now w h s landmarks = pinchContinue (pinchX landmarks) (pinchY landmarks) s.
Proof. intros Hp Hd. unfold processHand. now rewrite Hd, Hp. Qed.

Lemma pinchContinue_tables px py s :
  tablesRef (pinchContinue px py s) =
  if truthy (draggedTableRef s)
  then updateFound (isDragged (draggedTableRef s)) (moved px py s) (tablesRef s)
  else tablesRef s.
Proof. unfold pinchContinue. destruct (truthy (draggedTableRef s)); reflexivity. Qed.

(** C3. After a pinch-continue step the dragged object's coordinates are
    both within [0.05, 0.95], whatever the displacement (the sum only has to
    be a number), and clamping them again changes nothing; in scenario D
    (object at (0.02, 0.5), pinch point moving from 0.5 to 0.4, a displacement
    of about -0.1) the new x is 0.05. *)
Theorem continue_keeps_dragged_in_bounds :
  (forall now w h s landmarks t,
      PinchState.isPinching (pinchStateRef s) = true ->
      (distance landmarks <? pinchThreshold) = true ->
      truthy (draggedTableRef s) = true ->
      find (isDragged (draggedTableRef s)) (tablesRef s) = Some t ->
      is_nan (TableObject.x t + (pinchX landmarks - PinchState.x (pinchStateRef s))) = false ->
      is_nan (TableObject.y t + (pinchY landmarks - PinchState.y (pinchStateRef s))) = false ->
      exists t',
        find (isDragged (draggedTableRef s)) (tablesRef (processHand now w h s landmarks))
          = Some t' /\
        (0.05 <=? TableObject.x t') = true /\ (TableObject.x t' <=? 0.95) = true /\
        (0.05 <=? TableObject.y t') = true /\ (TableObject.y t' <=? 0.95) = true /\
        clamp (TableObject.x t') = TableObject.x t' /\
        clamp (TableObject.y t') = TableObject.y t') /\
  (forall v, clamp (clamp v) = clamp v) /\
  clamp 0.05 = 0.05 /\ clamp 0.95 = 0.95 /\
  tablesRef (processHand 0 1280 720 scenarioD (pinchAt 0.4 0.5))
    = [TableObject.mk "orders-0-0" "orders" 0.05 0.5 true].
Proof.
  split; [|repeat split; try reflexivity; apply clamp_idempotent].
  intros now w h s landmarks t Hp Hd Htr Hfind Hx Hy.
  rewrite (processHand_continue _ _ _ _ _ Hp Hd), pinchContinue_tables, Htr.
  exists (moved (pinchX landmarks) (pinchY landmarks) s t). split.
  - apply find_updateFound; [assumption|].
    unfold moved. rewrite isDragged_set_xy.
    destruct (updateFound_split _ (fun u => u) _ _ Hfind) as (_ & _ & _ & _ & Ht & _).
    exact Ht.
  - unfold moved; simpl.
    destruct (clamp_in_range _ Hx) as [? ?]. destruct (clamp_in_range _ Hy) as [? ?].
    repeat split; try assumption; apply clamp_idempotent.
Qed.

(** C3 in scenario D. *)
Lemma continue_keeps_dragged_in_bounds_witness :
  exists t',
    find (isDragged (draggedTableRef scenarioD))
      (tablesRef (processHand 0 1280 720 scenarioD (pinchAt 0.4 0.5))) = Some t' /\
    (0.05 <=? TableObject.x t') = true /\ (TableObject.x t' <=? 0.95) = true /\
    (0.05 <=? TableObject.y t') = true /\ (TableObject.y t' <=? 0.95) = true /\
    clamp (TableObject.x t') = TableObject.x t' /\
    clamp (TableObject.y t') = TableObject.y t'.
Proof.
  apply (proj1 continue_keeps_dragged_in_bounds 0%Z 1280 720 scenarioD (pinchAt 0.4 0.5)
           (TableObject.mk "orders-0-0" "orders" 0.02 0.5 true)); reflexivity.
Defined.

End Continue.

Section ContinueFrame.
Local Open Scope float_scope.

Lemma set_tablesRef_same s : set_tablesRef (tablesRef s) s = s.
Proof. destruct s; reflexivity. Qed.

(** C9. A pinch-continue step writes the stored pinch point and at most the
    x and y of one table, the first one whose id is the drag target: the
    other tables, that table's id, name and dragging flag, DroppedSet, the
    hover flag, the latch and every other field keep their values, and with
    no drag target (none stored, or none found) no table changes at all. *)
Theorem continue_changes_only_dragged_position :
  forall now w h s landmarks,
    PinchState.isPinching (pinchStateRef s) = true ->
    (distance landmarks <? pinchThreshold) = true ->
    let s' := processHand now w h s landmarks in
    s' = set_pinchStateRef (PinchState.mk true (pinchX landmarks) (pinchY landmarks))
           (set_tablesRef (tablesRef s') s) /\
    droppedTablesRef s' = droppedTablesRef s /\
    generateButtonHoverRef s' = generateButtonHoverRef s /\
    buttonClickedRef s' = buttonClickedRef s /\
    draggedTableRef s' = draggedTableRef s /\
    (tablesRef s' = tablesRef s \/
     exists l1 t l2 x' y',
       tablesRef s = l1 ++ t :: l2 /\
       isDragged (draggedTableRef s) t = true /\
       (forall u, In u l1 -> isDragged (draggedTableRef s) u = false) /\
       tablesRef s' =
         l1 ++ TableObject.mk (TableObject.id t) (TableObject.name t) x' y'
                 (TableObject.isDragging t) :: l2) /\
    (truthy (draggedTableRef s) = false -> tablesRef s' = tablesRef s) /\
    (find (isDragged (draggedTableRef s)) (tablesRef s) = None -> tablesRef s' = tablesRef s).
Proof.
  intros now w h s landmarks Hp Hd s'. subst s'.
  rewrite (processHand_continue _ _ _ _ _ Hp Hd).
  assert (Hshape : pinchContinue (pinchX landmarks) (pinchY landmarks) s =
                   set_pinchStateRef (PinchState.mk true (pinchX landmarks) (pinchY landmarks))
                     (set_tablesRef
                        (tablesRef (pinchContinue (pinchX landmarks) (pinchY landmarks) s)) s)).
  { rewrite pinchContinue_tables. unfold pinchContinue.
    destruct (truthy (draggedTableRef s)); [reflexivity|].
    now rewrite set_tablesRef_same. }
  split; [exact Hshape|].
  rewrite Hshape. cbn [droppedTablesRef generateButtonHoverRef buttonClickedRef
                       draggedTableRef tablesRef set_pinchStateRef set_tablesRef].
  repeat (split; [reflexivity|]).
  rewrite pinchContinue_tables.
  destruct (truthy (draggedTableRef s)) eqn:Htr.
  - destruct (find (isDragged (draggedTableRef s)) (tablesRef s)) as [t|] eqn:Hfind.
    + destruct (updateFound_split _ (moved (pinchX landmarks) (pinchY landmarks) s) _ _ Hfind)
        as (l1 & l2 & E & Hl1 & Ht & E').
      split; [|split; [discriminate|discriminate]].
      right. exists l1, t, l2. do 2 eexists.
      repeat split; [exact E | exact Ht | exact Hl1 | rewrite E'; reflexivity].
    + rewrite (updateFound_none _ _ _ Hfind).
      split; [left; reflexivity|split; reflexivity].
  - split; [left; reflexivity|split; reflexivity].
Qed.

(** C9 in scenario D, and in the same state with no drag target. *)
Lemma continue_changes_only_dragged_position_witness :
  droppedTablesRef (processHand 0 1280 720 scenarioD (pinchAt 0.4 0.5)) = [] /\
  tablesRef (processHand 0 1280 720 (set_draggedTableRef None scenarioD) (pinchAt 0.4 0.5))
    = tablesRef scenarioD.
Proof.
  split.
  - apply (continue_changes_only_dragged_position 0%Z 1280 720 scenarioD (pinchAt 0.4 0.5));
      reflexivity.
  - apply (continue_changes_only_dragged_position 0%Z 1280 720
             (set_draggedTableRef None scenarioD) (pinchAt 0.4 0.5)); reflexivity.
Defined.

End ContinueFrame.

(** ** The pinch detector *)

Section Pinch.
Local Open Scope float_scope.

Lemma processHand_pinchState now w h s landmarks :
  pinchStateRef (processHand now w h s landmarks) =
  if distance landmarks <? pinchThreshold
  then PinchState.mk true (pinchX landmarks) (pinchY landmarks)
  else if PinchState.isPinching (pinchStateRef s) then PinchState.mk false 0 0
       else pinchStateRef s.
Proof.
  unfold processHand.
  destruct (distance landmarks <? pinchThreshold);
    destruct (PinchState.isPinching (pinchStateRef s)); reflexivity.
Qed.

(** C4. After a hand has been processed, the pinch flag is set exactly when
    the distance between thumb tip (4) and index tip (8) is below 0.05, a
    distance of exactly 0.05 is no pinch, and the stored pinch point of a
    pinch is the midpoint of the two landmarks. *)
Theorem pinch_iff_distance_below_threshold :
  forall now w h s landmarks,
    let thumbTip := at_index landmarks 4 in
    let indexTip := at_index landmarks 8 in
    let d := PrimFloat.sqrt
               ((Landmark.x thumbTip - Landmark.x indexTip)
                  * (Landmark.x thumbTip - Landmark.x indexTip)
                + (Landmark.y thumbTip - Landmark.y indexTip)
                  * (Landmark.y thumbTip - Landmark.y indexTip)) in
    let s' := processHand now w h s landmarks in
    (PinchState.isPinching (pinchStateRef s') = true <-> (d <? 0.05) = true) /\
    (d = 0.05 -> PinchState.isPinching (pinchStateRef s') = false) /\
    (PinchState.isPinching (pinchStateRef s') = true ->
     PinchState.x (pinchStateRef s') = (Landmark.x thumbTip + Landmark.x indexTip) / 2 /\
     PinchState.y (pinchStateRef s') = (Landmark.y thumbTip + Landmark.y indexTip) / 2).
Proof.
  intros now w h s landmarks thumbTip indexTip d s'.
  assert (Hd : distance landmarks = d) by reflexivity.
  assert (Hs : pinchStateRef s' =
               if d <? 0.05 then PinchState.mk true (pinchX landmarks) (pinchY landmarks)
               else if PinchState.isPinching (pinchStateRef s) then PinchState.mk false 0 0
                    else pinchStateRef s).
  { subst s'. rewrite processHand_pinchState, Hd. reflexivity. }
  clearbody d s'. rewrite Hs.
  destruct (d <? 0.05) eqn:Hlt.
  - repeat split. intros ->. discriminate Hlt.
  - destruct (PinchState.isPinching (pinchStateRef s)) eqn:Hp; simpl.
    + repeat split; discriminate.
    + rewrite Hp. repeat split; discriminate.
Qed.

(** Thumb tip 0.05 to the right of the index tip: the distance is exactly
    the threshold, and the hand does not pinch. *)
Example pinch_boundary :
  distance (hand (pt 0.05 0) origin (pt 0 0)) = 0.05 /\
  PinchState.isPinching
    (pinchStateRef (processHand 0 1280 720 initialState (hand (pt 0.05 0) origin (pt 0 0))))
  = false.
Proof. split; reflexivity. Qed.

End Pinch.

(** ** Reachable states *)

Lemma run_app (es1 es2 : list Event) (s : State) :
  run (es1 ++ es2) s = run es2 (run es1 s).
Proof. apply fold_left_app. Qed.

Lemma reachable_initial : reachable initialState.
Proof. exists []. reflexivity. Qed.

Lemma reachable_step (s : State) (e : Event) : reachable s -> reachable (step s e).
Proof. intros [es ->]. exists (es ++ [e]). now rewrite run_app. Qed.

Lemma reachable_run (es : list Event) (s : State) : reachable s -> reachable (run es s).
Proof.
  revert s. induction es as [|e es IH]; intros s H; [exact H|].
  apply IH, reachable_step, H.
Qed.

Lemma reachable_induction (P : State -> Prop) :
  P initialState -> (forall s e, reachable s -> P s -> P (step s e)) ->
  forall s, reachable s -> P s.
Proof.
  intros H0 Hstep s [es ->].
  induction es as [|e es IH] using rev_ind; [exact H0|].
  rewrite run_app. apply Hstep; [now exists es | exact IH].
Qed.

(** ** Which fields each operation writes *)

(** A hand processed in manipulation mode leaves the view alone. *)
Lemma processHand_view now w h s landmarks :
  showChart (processHand now w h s landmarks) = showChart s /\
  chartAnimationState (processHand now w h s landmarks) = chartAnimationState s.
Proof. unfold processHand. unfold_ops. split_branches; split; reflexivity. Qed.

Lemma fold_processHand_view now w h results s :
  showChart (fold_left (processHand now w h) results s) = showChart s /\
  chartAnimationState (fold_left (processHand now w h) results s) = chartAnimationState s.
Proof.
  revert s. induction results as [|landmarks results IH]; intros s; simpl; [now split|].
  destruct (IH (processHand now w h s landmarks)) as [-> ->]. apply processHand_view.
Qed.

Lemma dragFrame_view now w h results s :
  showChart (dragFrame now w h results s) = showChart s /\
  chartAnimationState (dragFrame now w h results s) = chartAnimationState s.
Proof.
  unfold dragFrame. destruct results as [|landmarks results].
  - unfold_ops. split_branches; split; reflexivity.
  - apply fold_processHand_view.
Qed.

(** A tick of the chart view keeps [showChart] and either keeps the view
    state or, on a completed swipe, sets it to [exiting]. *)
Lemma chartFrame_view now results s :
  showChart (chartFrame now results s) = showChart s /\
  (chartAnimationState (chartFrame now results s) = chartAnimationState s \/
   chartAnimationState (chartFrame now results s) = exiting).
Proof.
  unfold chartFrame. destruct results as [|landmarks rest].
  - split; [reflexivity | left; reflexivity].
  - cbv zeta. unfold_ops.
    split_branches; split; first [reflexivity | left; reflexivity | right; reflexivity].
Qed.

Lemma renderLoop_view now w h results s :
  showChart (renderLoop now w h results s) = showChart s /\
  (chartAnimationState (renderLoop now w h results s) = chartAnimationState s \/
   (showChart s = true /\ chartAnimationState (renderLoop now w h results s) = exiting)).
Proof.
  unfold renderLoop. destruct (showChart s) eqn:Hshow.
  - destruct (chartFrame_view now results s) as [E [H|H]].
    + split; [congruence | now left].
    + split; [congruence | right; now split].
  - destruct (dragFrame_view now w h results s) as [E H].
    split; [congruence | now left].
Qed.

Lemma initTables_view now names loading s :
  showChart (initTables now names loading s) = showChart s /\
  chartAnimationState (initTables now names loading s) = chartAnimationState s.
Proof. unfold initTables. split_branches; split; reflexivity. Qed.

Lemma hidden_not_shown_step s e : hidden_not_shown s -> hidden_not_shown (step s e).
Proof.
  unfold hidden_not_shown. intros I. destruct e as [now w h results|now n|now names loading].
  - simpl. destruct (renderLoop_view now w h results s) as [-> [->|[_ ->]]];
      [exact I | discriminate].
  - simpl. destruct (nth_error (timers s) n) as [[due cb]|]; [|exact I].
    destruct (due <=? now)%Z; [|exact I].
    destruct cb; simpl; first [exact I | discriminate | reflexivity].
  - simpl. destruct (initTables_view now names loading s) as [-> ->]. exact I.
Qed.

Lemma reachable_hidden_not_shown s : reachable s -> hidden_not_shown s.
Proof.
  apply reachable_induction.
  - intros _. reflexivity.
  - intros s' e _. apply hidden_not_shown_step.
Qed.

(** ** The view state machine *)

Lemma runCallback_view now cb s :
  chartAnimationState (runCallback now cb s) = callbackSets cb (chartAnimationState s).
Proof. destruct cb; reflexivity. Qed.

(** C2, as stated, fails: the view is [entering] and a swipe is tracked from
    (0.2, 0.5); 40 ms later the finger is at (0.6, 0.5), the swipe completes,
    and the view state becomes [exiting] without having been [visible]. *)
Lemma swipe_while_entering_exits :
  reachable swipeStarted /\
  chartAnimationState swipeStarted = entering /\
  chartAnimationState (step swipeStarted (Tick 750 1280 720 [pointAt 0.6 0.5])) = exiting.
Proof.
  split; [|split; reflexivity].
  apply reachable_step. unfold chartEntering, carrying.
  do 2 apply reachable_run. apply reachable_initial.
Qed.

(** The view state after a tick of the chart view. *)
Lemma chartFrame_state now results s :
  chartAnimationState (chartFrame now results s)
  = if completes now results s then exiting else chartAnimationState s.
Proof.
  unfold chartFrame, completes. destruct results as [|landmarks rest]; [reflexivity|].
  cbv zeta.
  destruct (Landmark.y (at_index landmarks 8) <? Landmark.y (at_index landmarks 6))%float;
    [|reflexivity].
  destruct (SwipeState.isTracking (swipeStateRef s)); [|reflexivity].
  cbn [negb andb]. read_fields.
  cbn [SwipeState.set_current SwipeState.startX SwipeState.startY SwipeState.startTime].
  destruct (swipeComplete _ _ _); [reflexivity|].
  destruct (_ >? 1000)%Z; reflexivity.
Qed.

Lemma loopTick_state shown now w h results s :
  chartAnimationState (loopTick shown now w h results s)
  = if shown && completes now results s then exiting else chartAnimationState s.
Proof.
  destruct shown; cbn [loopTick andb]; [apply chartFrame_state | apply dragFrame_view].
Qed.

Lemma loopTick_showChart shown now w h results s :
  showChart (loopTick shown now w h results s) = showChart s.
Proof.
  destruct shown; cbn [loopTick]; [apply chartFrame_view | apply dragFrame_view].
Qed.

Lemma step_state s e :
  chartAnimationState (step s e) =
  match e with
  | Tick now _ _ results =>
      if showChart s && completes now results s then exiting else chartAnimationState s
  | Timer now n =>
      match nth_error (timers s) n with
      | Some (due, cb) =>
          if (due <=? now)%Z then callbackSets cb (chartAnimationState s)
          else chartAnimationState s
      | None => chartAnimationState s
      end
  | TablesEffect _ _ _ => chartAnimationState s
  end.
Proof.
  destruct e as [now w h results|now n|now names loading]; cbn [step].
  - exact (loopTick_state (showChart s) now w h results s).
  - destruct (nth_error (timers s) n) as [[due cb]|]; [|reflexivity].
    destruct (due <=? now)%Z; [|reflexivity]. rewrite runCallback_view. reflexivity.
  - apply initTables_view.
Qed.

(** Every loop that may be alive keeps the chart hidden from view while the
    view state is [hidden]. *)
Lemma act_hidden_not_shown s a : hidden_not_shown s -> hidden_not_shown (act s a).
Proof.
  unfold hidden_not_shown. intros I.
  destruct a as [shown now w h results|now n|now names loading].
  - cbn [act]. rewrite loopTick_state, loopTick_showChart.
    destruct (shown && completes now results s); [discriminate | exact I].
  - exact (hidden_not_shown_step s (Timer now n) I).
  - exact (hidden_not_shown_step s (TablesEffect now names loading) I).
Qed.

Lemma attainable_act s a : attainable s -> attainable (act s a).
Proof. intros [actions ->]. exists (actions ++ [a]). now rewrite fold_left_app. Qed.

Lemma attainable_hidden_not_shown s : attainable s -> hidden_not_shown s.
Proof.
  intros [actions ->]. induction actions as [|a actions IH] using rev_ind.
  - intros _. reflexivity.
  - rewrite fold_left_app. apply act_hidden_not_shown, IH.
Qed.

(** The runs in which every tick comes from the loop of the latest run of
    the effect are among those of the loops that may be alive. *)
Lemma reachable_attainable s : reachable s -> attainable s.
Proof.
  apply (reachable_induction attainable).
  - now exists [].
  - intros s' e _ H. destruct e as [now w h results|now n|now names loading].
    + exact (attainable_act s' (LoopTick (showChart s') now w h results) H).
    + exact (attainable_act s' (Fires now n) H).
    + exact (attainable_act s' (Effect now names loading) H).
Qed.

(** C2, amended.  Nothing that writes the view state looks at the state it
    replaces.  A tick sets [exiting] exactly when its loop captured
    [showChart = true] and a tracked swipe completes in it, and keeps the
    view state otherwise: so a completed swipe gives [exiting] from
    [entering] and [exiting] as from [visible], and gives nothing, in
    whatever view state, in a loop that captured [showChart = false].  A
    callback that runs sets [entering] (the scheduled show), [visible] (800
    ms after the show) or [hidden] (600 ms after a swipe), whatever the
    state before; the creation effect keeps the view state.  In every state
    the program can be in, [hidden] comes with [showChart = false], so a loop
    created while the view is [hidden] never leaves [hidden] by a swipe. *)
Theorem view_state_writes :
  (forall s a,
      chartAnimationState (act s a) =
      match a with
      | LoopTick shown now _ _ results =>
          if shown && completes now results s then exiting else chartAnimationState s
      | Fires now n =>
          match nth_error (timers s) n with
          | Some (due, cb) =>
              if (due <=? now)%Z then callbackSets cb (chartAnimationState s)
              else chartAnimationState s
          | None => chartAnimationState s
          end
      | Effect _ _ _ => chartAnimationState s
      end) /\
  (forall s, attainable s -> chartAnimationState s = hidden -> showChart s = false) /\
  (forall s now w h results,
      attainable s -> chartAnimationState s = hidden ->
      chartAnimationState (loopTick (showChart s) now w h results s) = hidden).
Proof.
  split; [|split].
  - intros s a. destruct a as [shown now w h results|now n|now names loading]; cbn [act].
    + apply loopTick_state.
    + exact (step_state s (Timer now n)).
    + exact (step_state s (TablesEffect now names loading)).
  - intros s Ha. exact (attainable_hidden_not_shown s Ha).
  - intros s now w h results Ha Hh.
    rewrite loopTick_state, (attainable_hidden_not_shown s Ha Hh). exact Hh.
Qed.

(** The cycle is left in a second way: the entrance callback is not
    cancelled by a swipe.  After the swipe above the exit callback runs at
    1350 ms and sets [hidden]; the entrance callback runs at 1500 ms and sets
    [visible], with the chart not shown.  In that state the loop of the
    current render detects no swipe: the view stays [visible]. *)
Example late_entrance_callback :
  reachable lateEntrance /\
  chartAnimationState (run [Tick 750 1280 720 [pointAt 0.6 0.5]; Timer 1350 2] swipeStarted)
    = hidden /\
  chartAnimationState lateEntrance = visible /\
  showChart lateEntrance = false /\
  chartAnimationState
    (run [Tick 1600 1280 720 [pointAt 0.2 0.5]; Tick 1640 1280 720 [pointAt 0.6 0.5]]
       lateEntrance) = visible.
Proof.
  split; [|by_evaluation].
  unfold lateEntrance. apply reachable_run, reachable_step.
  unfold chartEntering, carrying. do 2 apply reachable_run. apply reachable_initial.
Qed.

(** Nor is [hidden] safe from a loop that outlives the chart.  After the
    exit callback the view is [hidden] and the chart not shown; a swipe seen
    by a loop that captured [showChart = true] sets [exiting], where the
    same swipe seen by the loop of the current render changes nothing. *)
Example stale_loop_exits_from_hidden :
  let s := step exitingTwice (Timer 2600 1) in
  chartAnimationState s = hidden /\ showChart s = false /\
  chartAnimationState
    (fold_left act [LoopTick true 2633 1280 720 [pointAt 0.2 0.5];
                    LoopTick true 2666 1280 720 [pointAt 0.6 0.5]] s) = exiting /\
  chartAnimationState
    (run [Tick 2633 1280 720 [pointAt 0.2 0.5]; Tick 2666 1280 720 [pointAt 0.6 0.5]] s)
  = hidden.
Proof. by_evaluation. Qed.

(** The nominal cycle (scenarios B and C): orders is dropped, the button
    pinched, the chart shown; 800 ms later the view is [visible]; a swipe then
    sets [exiting], and 600 ms later the view is [hidden] again with an empty
    DroppedSet. *)
Example nominal_cycle :
  let s1 := step chartEntering (Timer 1500 1) in
  let s2 := run [Tick 1600 1280 720 [pointAt 0.2 0.5];
                 Tick 2000 1280 720 [pointAt 0.55 0.55]] s1 in
  let s3 := step s2 (Timer 2600 1) in
  droppedTablesRef chartEntering = ["orders"%string] /\
  chartAnimationState chartEntering = entering /\
  chartAnimationState s1 = visible /\
  chartAnimationState s2 = exiting /\
  chartAnimationState s3 = hidden /\ droppedTablesRef s3 = [] /\ showChart s3 = false.
Proof. repeat split; reflexivity. Qed.

(** ** The generate action *)

Section Generate.
Local Open Scope float_scope.

(** C8. A pinch that starts on the generate button while DroppedSet is empty
    and the latch is free raises the error toast and nothing more: no
    catalog request is issued, the only callback scheduled is the toast's
    own expiry (no show of the chart), and the view stays as it was, so
    [hidden] stays [hidden]. *)
Theorem generate_with_empty_dropped_set :
  forall now w h s landmarks,
    showChart s = false ->
    PinchState.isPinching (pinchStateRef s) = false ->
    (distance landmarks <? pinchThreshold) = true ->
    onButton w h (pinchX landmarks) (pinchY landmarks) = true ->
    buttonClickedRef s = false ->
    droppedTablesRef s = [] ->
    let s' := renderLoop now w h [landmarks] s in
    toast s' = Some ("Please drop at least one table into the drop zone"%string, error) /\
    requests s' = requests s /\
    loadingData s' = loadingData s /\
    chartData s' = chartData s /\
    timers s' = timers s ++ [((now + 3000)%Z, ClearToast)] /\
    showChart s' = false /\
    chartAnimationState s' = chartAnimationState s /\
    (chartAnimationState s = hidden -> chartAnimationState s' = hidden) /\
    droppedTablesRef s' = [] /\
    buttonClickedRef s' = true /\
    generateButtonHoverRef s' = true.
Proof.
  intros now w h s landmarks Hshow Hp Hd Hb Hlatch Hempty s'. subst s'.
  unfold renderLoop. rewrite Hshow. unfold dragFrame. cbn [fold_left].
  unfold processHand. rewrite Hd, Hp. cbn [negb].
  unfold pinchStart. rewrite Hb.
  cbn [buttonClickedRef set_generateButtonHoverRef]. rewrite Hlatch. cbn [negb].
  unfold generate.
  cbn [droppedTablesRef set_buttonClickedRef set_generateButtonHoverRef].
  rewrite Hempty. cbn [List.length Nat.eqb].
  unfold showToast, setTimeout. cbn.
  rewrite Hempty. repeat split; first [reflexivity | assumption | intros E; exact E].
Qed.

(** C8 at the first pinch of a session, on the button of a 1280 x 720
    canvas. *)
Lemma generate_with_empty_dropped_set_witness :
  toast (renderLoop 50 1280 720 [pinchAt 0.7 0.7] initialState)
    = Some ("Please drop at least one table into the drop zone"%string, error) /\
  requests (renderLoop 50 1280 720 [pinchAt 0.7 0.7] initialState) = [] /\
  timers (renderLoop 50 1280 720 [pinchAt 0.7 0.7] initialState) = [(3050%Z, ClearToast)] /\
  chartAnimationState (renderLoop 50 1280 720 [pinchAt 0.7 0.7] initialState) = hidden.
Proof.
  pose proof (generate_with_empty_dropped_set 50%Z 1280 720 initialState (pinchAt 0.7 0.7)
                eq_refl eq_refl eq_refl eq_refl eq_refl eq_refl) as H.
  cbv zeta in H.
  destruct H as (Ht & Hr & _ & _ & Htm & _ & Hv & _).
  split; [exact Ht | split; [exact Hr | split; [exact Htm | exact Hv]]].
Defined.

End Generate.

(** ** The swipe timeout *)

Section SwipeTimeout.
Local Open Scope float_scope.

(** Past 1000 ms an unfinished swipe is dropped and emits nothing. *)
Lemma swipe_dropped_after_1000 now landmarks rest s :
  (Landmark.y (at_index landmarks 8) <? Landmark.y (at_index landmarks 6)) = true ->
  SwipeState.isTracking (swipeStateRef s) = true ->
  (now - SwipeState.startTime (swipeStateRef s) > 1000)%Z ->
  let s' := chartFrame now (landmarks :: rest) s in
  SwipeState.isTracking (swipeStateRef s') = false /\
  chartAnimationState s' = chartAnimationState s /\
  timers s' = timers s.
Proof.
  intros Hext Htr Hlate s'. subst s'. unfold chartFrame. cbv zeta.
  rewrite Hext, Htr. cbn [negb].
  cbn [swipeStateRef set_swipeStateRef SwipeState.startTime SwipeState.startX
       SwipeState.startY SwipeState.set_current].
  unfold swipeComplete.
  replace (now - SwipeState.startTime (swipeStateRef s) <? 1000)%Z with false
    by (symmetry; apply Z.ltb_ge; lia).
  rewrite andb_false_r.
  replace (now - SwipeState.startTime (swipeStateRef s) >? 1000)%Z with true
    by (symmetry; apply Z.gtb_lt; lia).
  repeat split.
Qed.

(** C7 at its boundary: exactly 1000 ms after tracking began, with the
    finger at (0.21, 0.5) and so no completion, tracking is still on (nothing
    is emitted either); one millisecond later it is off. *)
Theorem swipe_still_tracked_at_1000 :
  SwipeState.isTracking (swipeStateRef swipeStarted) = true /\
  SwipeState.startTime (swipeStateRef swipeStarted) = 710%Z /\
  SwipeState.isTracking
    (swipeStateRef (renderLoop 1710 1280 720 [pointAt 0.21 0.5] swipeStarted)) = true /\
  chartAnimationState (renderLoop 1710 1280 720 [pointAt 0.21 0.5] swipeStarted)
    = chartAnimationState swipeStarted /\
  SwipeState.isTracking
    (swipeStateRef (renderLoop 1711 1280 720 [pointAt 0.21 0.5] swipeStarted)) = false.
Proof. by_evaluation. Qed.

End SwipeTimeout.

(** ** Release with and without a hand *)

Section Release.
Local Open Scope float_scope.

(** The release taken when no hand is detected is the measured release
    without its two writes to the latch and to DroppedSet. *)
Lemma noHandsRelease_pinchRelease s :
  noHandsRelease s =
  set_droppedTablesRef (droppedTablesRef s)
    (set_buttonClickedRef (buttonClickedRef s) (pinchRelease s)).
Proof.
  unfold noHandsRelease, pinchRelease.
  cbn [draggedTableRef tablesRef set_buttonClickedRef set_generateButtonHoverRef].
  destruct (truthy (draggedTableRef s)); [|reflexivity].
  destruct (find (isDragged (draggedTableRef s)) (tablesRef s)) as [t|] eqn:Hfind.
  - destruct (inDropZone (TableObject.x t) (TableObject.y t)); [|reflexivity].
    cbn [droppedTablesRef set_tablesRef set_buttonClickedRef set_generateButtonHoverRef].
    destruct (negb (includes (droppedTablesRef s) (TableObject.name t))); reflexivity.
  - rewrite (updateFound_none _ _ _ Hfind). destruct s; reflexivity.
Qed.

(** C1 on the code: with orders held over the drop zone, a frame without
    hands ends the pinch but leaves DroppedSet empty, where a measured
    release records orders; and with the latch taken, a frame without hands
    leaves it taken, where a measured release frees it. *)
Theorem no_hands_release_skips_drop_and_latch :
  PinchState.isPinching (pinchStateRef carrying) = true /\
  droppedTablesRef (renderLoop 166 1280 720 [] carrying) = [] /\
  droppedTablesRef (renderLoop 166 1280 720 [openHand] carrying) = ["orders"%string] /\
  PinchState.isPinching (pinchStateRef latched) = true /\
  buttonClickedRef (renderLoop 166 1280 720 [] latched) = true /\
  buttonClickedRef (renderLoop 166 1280 720 [openHand] latched) = false.
Proof. by_evaluation. Qed.

End Release.

(** ** Frames with several hands *)

Section Hands.
Local Open Scope float_scope.

(** C5, as stated, fails: with an open first hand, a second hand that pinches
    over the table starts a pinch and a drag that the first hand alone does
    not. *)
Lemma second_hand_drives_pinch :
  let s := initTables 0 ["orders"%string] false initialState in
  PinchState.isPinching
    (pinchStateRef (renderLoop 100 1280 720 [openHand] s)) = false /\
  PinchState.isPinching
    (pinchStateRef (renderLoop 100 1280 720 [openHand; pinchAt 0.1 0.1] s)) = true /\
  draggedTableRef (renderLoop 100 1280 720 [openHand] s) = None /\
  draggedTableRef (renderLoop 100 1280 720 [openHand; pinchAt 0.1 0.1] s)
    = Some "orders-0-0"%string.
Proof. by_evaluation. Qed.

Lemma fold_processHand_swipeState now w h results s :
  swipeStateRef (fold_left (processHand now w h) results s) = swipeStateRef s.
Proof.
  revert s. induction results as [|landmarks results IH]; intros s; simpl; [reflexivity|].
  rewrite IH. unfold processHand. unfold_ops. split_branches; reflexivity.
Qed.

(** C5, amended. The swipe detector reads the first hand only, and no other
    hand ever changes the swipe tracking; pinch detection and the drag
    manager, however, run for every detected hand in array order on the one
    pinch state, so a frame with several hands acts as the frame of its first
    hand followed by the frame of the others. *)
Theorem hands_beyond_the_first :
  (forall now first rest s, chartFrame now (first :: rest) s = chartFrame now [first] s) /\
  (forall now w h first rest s,
      swipeStateRef (renderLoop now w h (first :: rest) s)
      = swipeStateRef (renderLoop now w h [first] s)) /\
  (forall now w h first second others s,
      dragFrame now w h (first :: second :: others) s =
      dragFrame now w h (second :: others) (dragFrame now w h [first] s)).
Proof.
  split; [intros; reflexivity|]. split; [|intros; reflexivity].
  intros now w h first rest s. unfold renderLoop.
  destruct (showChart s); [reflexivity|].
  unfold dragFrame. now rewrite !fold_processHand_swipeState.
Qed.

End Hands.

(** ** DroppedSet *)

Section Dropped.
Local Open Scope float_scope.

Lemma appended_refl l : appended l l.
Proof. exists []. now rewrite app_nil_r. Qed.

Lemma appended_trans l1 l2 l3 : appended l1 l2 -> appended l2 l3 -> appended l1 l3.
Proof. intros [a ->] [b ->]. exists (a ++ b). now rewrite app_assoc. Qed.

Lemma includes_In names n : includes names n = true <-> In n names.
Proof.
  unfold includes. rewrite existsb_exists. split.
  - intros (m & Hm & E). apply String.eqb_eq in E. now subst.
  - intros H. exists n. split; [exact H | apply String.eqb_refl].
Qed.

Lemma NoDup_snoc (l : list string) (n : string) : NoDup l -> ~ In n l -> NoDup (l ++ [n]).
Proof.
  intros Hnd Hn. apply NoDup_app; [exact Hnd | constructor; [intros [] | constructor] |].
  intros a Ha [<-|[]]. exact (Hn Ha).
Qed.

(** The measured release appends the dragged table's name when the table
    lies in the drop zone and the name is new, and leaves DroppedSet alone
    otherwise. *)
Lemma pinchRelease_dropped s :
  droppedTablesRef (pinchRelease s) =
  if truthy (draggedTableRef s) then
    match find (isDragged (draggedTableRef s)) (tablesRef s) with
    | Some t =>
        if inDropZone (TableObject.x t) (TableObject.y t)
           && negb (includes (droppedTablesRef s) (TableObject.name t))
        then droppedTablesRef s ++ [TableObject.name t]
        else droppedTablesRef s
    | None => droppedTablesRef s
    end
  else droppedTablesRef s.
Proof.
  unfold pinchRelease.
  cbn [draggedTableRef tablesRef set_buttonClickedRef set_generateButtonHoverRef].
  destruct (truthy (draggedTableRef s)); [|reflexivity].
  destruct (find (isDragged (draggedTableRef s)) (tablesRef s)) as [t|]; [|reflexivity].
  destruct (inDropZone (TableObject.x t) (TableObject.y t)); [|reflexivity].
  cbn [droppedTablesRef set_tablesRef set_buttonClickedRef set_generateButtonHoverRef andb].
  destruct (negb (includes (droppedTablesRef s) (TableObject.name t))); reflexivity.
Qed.

Lemma pinchRelease_keeps_set s :
  NoDup (droppedTablesRef s) ->
  appended (droppedTablesRef s) (droppedTablesRef (pinchRelease s)) /\
  NoDup (droppedTablesRef (pinchRelease s)).
Proof.
  intros Hnd. rewrite pinchRelease_dropped.
  destruct (truthy (draggedTableRef s)); [|split; [apply appended_refl | exact Hnd]].
  destruct (find (isDragged (draggedTableRef s)) (tablesRef s)) as [t|];
    [|split; [apply appended_refl | exact Hnd]].
  destruct (inDropZone (TableObject.x t) (TableObject.y t)); cbn [andb];
    [|split; [apply appended_refl | exact Hnd]].
  destruct (includes (droppedTablesRef s) (TableObject.name t)) eqn:Hin; cbn [negb];
    [split; [apply appended_refl | exact Hnd]|].
  split; [now exists [TableObject.name t]|].
  apply NoDup_snoc; [exact Hnd|].
  intros H. apply includes_In in H. congruence.
Qed.

Lemma processHand_keeps_set now w h s landmarks :
  NoDup (droppedTablesRef s) ->
  appended (droppedTablesRef s) (droppedTablesRef (processHand now w h s landmarks)) /\
  NoDup (droppedTablesRef (processHand now w h s landmarks)).
Proof.
  intros Hnd. unfold processHand.
  destruct (distance landmarks <? pinchThreshold).
  - assert (E : droppedTablesRef
                  (if negb (PinchState.isPinching (pinchStateRef s))
                   then pinchStart now w h (pinchX landmarks) (pinchY landmarks) s
                   else pinchContinue (pinchX landmarks) (pinchY landmarks) s)
                = droppedTablesRef s).
    { unfold_ops. split_branches; reflexivity. }
    rewrite E. split; [apply appended_refl | exact Hnd].
  - destruct (PinchState.isPinching (pinchStateRef s)).
    + now apply pinchRelease_keeps_set.
    + split; [apply appended_refl | exact Hnd].
Qed.

Lemma fold_processHand_keeps_set now w h results s :
  NoDup (droppedTablesRef s) ->
  appended (droppedTablesRef s)
    (droppedTablesRef (fold_left (processHand now w h) results s)) /\
  NoDup (droppedTablesRef (fold_left (processHand now w h) results s)).
Proof.
  revert s. induction results as [|landmarks results IH]; intros s Hnd; simpl.
  - split; [apply appended_refl | exact Hnd].
  - destruct (processHand_keeps_set now w h s landmarks Hnd) as [Ha Hnd'].
    destruct (IH _ Hnd') as [Ha' Hnd''].
    split; [exact (appended_trans _ _ _ Ha Ha') | exact Hnd''].
Qed.

Lemma renderLoop_keeps_set now w h results s :
  NoDup (droppedTablesRef s) ->
  appended (droppedTablesRef s) (droppedTablesRef (renderLoop now w h results s)) /\
  NoDup (droppedTablesRef (renderLoop now w h results s)).
Proof.
  intros Hnd. unfold renderLoop. destruct (showChart s).
  - assert (E : droppedTablesRef (chartFrame now results s) = droppedTablesRef s).
    { unfold chartFrame. destruct results as [|landmarks rest]; [reflexivity|].
      cbv zeta. unfold_ops. split_branches; reflexivity. }
    rewrite E. split; [apply appended_refl | exact Hnd].
  - unfold dragFrame. destruct results as [|landmarks rest].
    + assert (E : droppedTablesRef
                    (if PinchState.isPinching (pinchStateRef s) then noHandsRelease s else s)
                  = droppedTablesRef s).
      { unfold_ops. split_branches; reflexivity. }
      rewrite E. split; [apply appended_refl | exact Hnd].
    + now apply fold_processHand_keeps_set.
Qed.

(** Every event either appends to DroppedSet or is the exit callback, which
    empties it and sets [hidden]; duplicates never arise. *)
Lemma step_dropped s e :
  NoDup (droppedTablesRef s) ->
  NoDup (droppedTablesRef (step s e)) /\
  (appended (droppedTablesRef s) (droppedTablesRef (step s e)) \/
   (exitRuns s e /\ droppedTablesRef (step s e) = [] /\
    chartAnimationState (step s e) = hidden)).
Proof.
  intros Hnd. destruct e as [now w h results|now n|now names loading]; simpl.
  - destruct (renderLoop_keeps_set now w h results s Hnd) as [Ha Hnd'].
    split; [exact Hnd' | left; exact Ha].
  - destruct (nth_error (timers s) n) as [[due cb]|] eqn:Hn;
      [|split; [exact Hnd | left; apply appended_refl]].
    destruct (due <=? now)%Z eqn:Hdue; [|split; [exact Hnd | left; apply appended_refl]].
    destruct cb; simpl; try (split; [exact Hnd | left; apply appended_refl]).
    split; [constructor|]. right. split; [|split; reflexivity].
    exists now, n, due. repeat split; [exact Hn | now apply Z.leb_le].
  - assert (E : droppedTablesRef (initTables now names loading s) = droppedTablesRef s).
    { unfold initTables. split_branches; reflexivity. }
    rewrite E. split; [exact Hnd | left; apply appended_refl].
Qed.

(** Only the exit callback takes the view state to [hidden]. *)
Lemma step_to_hidden s e :
  chartAnimationState s <> hidden -> chartAnimationState (step s e) = hidden ->
  exitRuns s e.
Proof.
  intros Hbefore Hafter. destruct e as [now w h results|now n|now names loading].
  - simpl in Hafter.
    destruct (renderLoop_view now w h results s) as [_ [H|[_ H]]]; congruence.
  - simpl in Hafter. destruct (nth_error (timers s) n) as [[due cb]|] eqn:Hn; [|congruence].
    destruct (due <=? now)%Z eqn:Hdue; [|congruence].
    rewrite runCallback_view in Hafter.
    destruct cb; simpl in Hafter; try congruence.
    exists now, n, due. repeat split; [exact Hn | now apply Z.leb_le].
  - simpl in Hafter. destruct (initTables_view now names loading s) as [_ H]. congruence.
Qed.

Lemma exitRuns_clears s e : exitRuns s e -> droppedTablesRef (step s e) = [].
Proof.
  intros (now & n & due & -> & Hn & Hdue). simpl. rewrite Hn.
  apply Z.leb_le in Hdue. rewrite Hdue. reflexivity.
Qed.

Lemma reachable_NoDup s : reachable s -> NoDup (droppedTablesRef s).
Proof.
  revert s. apply (reachable_induction (fun s => NoDup (droppedTablesRef s))).
  - constructor.
  - intros s e _ Hnd. apply (step_dropped s e Hnd).
Qed.

(** What does hold of DroppedSet.  In every reachable state it has no
    duplicates; every event appends to it (possibly nothing) or is an exit
    callback, which sets [hidden] and empties it, and whenever the view
    state returns to [hidden] it is empty; a measured release of a table
    inside the drop zone leaves it unchanged when the name is a member and
    puts the name last when it is new. *)
Lemma dropped_set_appends_or_clears :
  forall s, reachable s ->
    NoDup (droppedTablesRef s) /\
    (forall e,
        appended (droppedTablesRef s) (droppedTablesRef (step s e)) \/
        (exitRuns s e /\ droppedTablesRef (step s e) = [] /\
         chartAnimationState (step s e) = hidden)) /\
    (forall e,
        chartAnimationState s <> hidden -> chartAnimationState (step s e) = hidden ->
        droppedTablesRef (step s e) = []) /\
    (forall t,
        truthy (draggedTableRef s) = true ->
        find (isDragged (draggedTableRef s)) (tablesRef s) = Some t ->
        inDropZone (TableObject.x t) (TableObject.y t) = true ->
        (In (TableObject.name t) (droppedTablesRef s) ->
         droppedTablesRef (pinchRelease s) = droppedTablesRef s) /\
        (~ In (TableObject.name t) (droppedTablesRef s) ->
         droppedTablesRef (pinchRelease s) = droppedTablesRef s ++ [TableObject.name t])).
Proof.
  intros s Hr. pose proof (reachable_NoDup s Hr) as Hnd.
  split; [exact Hnd|]. split; [intros e; apply (step_dropped s e Hnd)|]. split.
  - intros e Hbefore Hafter.
    apply exitRuns_clears, step_to_hidden; assumption.
  - intros t Htr Hfind Hzone. rewrite pinchRelease_dropped, Htr, Hfind, Hzone. cbn [andb].
    split; intros H.
    + apply includes_In in H. now rewrite H.
    + destruct (includes (droppedTablesRef s) (TableObject.name t)) eqn:Hin; [|reflexivity].
      apply includes_In in Hin. contradiction.
Qed.

(** Orders, a member already, released in the zone again. *)
Example readded_name_is_ignored :
  NoDup (droppedTablesRef carryingAgain) /\
  droppedTablesRef (pinchRelease carryingAgain) = droppedTablesRef carryingAgain /\
  droppedTablesRef carryingAgain = ["orders"%string].
Proof.
  assert (Hr : reachable carryingAgain).
  { unfold carryingAgain, carrying. do 2 apply reachable_run. apply reachable_initial. }
  destruct (dropped_set_appends_or_clears carryingAgain Hr) as (Hnd & _ & _ & Hrel).
  split; [exact Hnd|]. split; [|vm_compute; reflexivity].
  apply (Hrel (TableObject.mk "orders-0-0" "orders" 0.5 0.7 true));
    [vm_compute; reflexivity | vm_compute; reflexivity | vm_compute; reflexivity|].
  vm_compute. left. reflexivity.
Qed.

(** The exit callback does not look at the view state: it empties DroppedSet
    and sets [hidden] whenever it runs. *)
Lemma exit_callback_unguarded now s :
  droppedTablesRef (runCallback now ExitDone s) = [] /\
  chartAnimationState (runCallback now ExitDone s) = hidden.
Proof. split; reflexivity. Qed.

(** C6 on the code.  A swipe completes at 2000 ms and a second one at 2200
    ms, while the view is [exiting]: two exit callbacks are pending, due at
    2600 and 2800 ms.  The first one returns the view to [hidden] with an
    empty DroppedSet.  Orders is then dropped into the zone and DroppedSet
    is [orders], the view still [hidden].  At 2800 ms the second callback
    runs: the view is [hidden] before and after, and DroppedSet is emptied
    although the view state did not return to [hidden]. *)
Theorem stale_exit_clears_dropped_set :
  reachable droppedAfterExit /\
  chartAnimationState exitingTwice = exiting /\
  timers exitingTwice = [(3200, ClearToast); (2600, ExitDone); (2800, ExitDone)]%Z /\
  chartAnimationState (step exitingTwice (Timer 2600 1)) = hidden /\
  droppedTablesRef (step exitingTwice (Timer 2600 1)) = [] /\
  chartAnimationState droppedAfterExit = hidden /\
  droppedTablesRef droppedAfterExit = ["orders"%string] /\
  nth_error (timers droppedAfterExit) 1 = Some (2800%Z, ExitDone) /\
  chartAnimationState (step droppedAfterExit (Timer 2800 1)) = hidden /\
  droppedTablesRef (step droppedAfterExit (Timer 2800 1)) = [].
Proof.
  split; [|by_evaluation].
  unfold droppedAfterExit, exitingTwice, chartEntering, carrying.
  do 4 apply reachable_run. apply reachable_initial.
Qed.

End Dropped.

(** ** Creation of the table objects *)

Section Creation.
Local Open Scope float_scope.

Lemma nth_error_mapi_from {A B : Type} (f : A -> nat -> B) (l : list A) (start i : nat) (a : A) :
  nth_error l i = Some a -> nth_error (mapi_from f start l) i = Some (f a (start + i)%nat).
Proof.
  revert start i. induction l as [|b l IH]; intros start i; destruct i as [|i]; simpl;
    try discriminate.
  - intros [= ->]. now rewrite Nat.add_0_r.
  - intros H. rewrite (IH (S start) i H). f_equal. f_equal. lia.
Qed.

Lemma length_mapi_from {A B : Type} (f : A -> nat -> B) (l : list A) (start : nat) :
  List.length (mapi_from f start l) = List.length l.
Proof. revert start. induction l as [|b l IH]; intros start; simpl; [reflexivity|]. now rewrite IH. Qed.

(** Indices 6 to 4095, by evaluation. *)
Lemma initialX_beyond_clamp (i : nat) :
  (6 <= i < 4096)%nat -> (0.95 <? initialX i) = true.
Proof.
  intros Hi.
  assert (H : forallb (fun i => 0.95 <? initialX i) (seq 6 4090) = true)
    by (vm_compute; reflexivity).
  rewrite forallb_forall in H. apply H. apply in_seq. lia.
Qed.

Lemma initialX_at_least_one (i : nat) :
  (7 <= i < 4096)%nat -> (1 <=? initialX i) = true.
Proof.
  intros Hi.
  assert (H : forallb (fun i => 1 <=? initialX i) (seq 7 4089) = true)
    by (vm_compute; reflexivity).
  rewrite forallb_forall in H. apply H. apply in_seq. lia.
Qed.

(** C10, as stated, fails at index 6: in binary64, 0.1 + 6 * 0.15 is
    0.9999999999999999, below 1.0. *)
Lemma seventh_table_below_one :
  exists t,
    nth_error (tablesRef (initTables 0 sevenTables false initialState)) 6 = Some t /\
    TableObject.x t = 0.9999999999999999 /\
    (TableObject.x t <? 1) = true /\
    geb (TableObject.x t) 1 = false.
Proof.
  exists (TableObject.mk "g-0-6" "g" 0.9999999999999999 0.1 false).
  by_evaluation.
Qed.

(** C10, amended. When the list first becomes available with n >= 1 names,
    n objects are created, the one at [index] named by the list, at
    x = 0.1 + index * 0.15 in binary64 and y = 0.1, not dragging, and
    unclamped: from index 6 on x is above 0.95, outside the range of the
    drag clamp; index 6 gets 0.9999999999999999, below 1.0, and indices 7 to
    4095 get at least 1.0. *)
Theorem tables_created_unclamped :
  forall now names s,
    tablesInitialized s = false -> names <> [] ->
    let s' := initTables now names false s in
    List.length (tablesRef s') = List.length names /\
    tablesInitialized s' = true /\
    forall index tableName,
      nth_error names index = Some tableName ->
      exists t,
        nth_error (tablesRef s') index = Some t /\
        TableObject.name t = tableName /\
        TableObject.x t = 0.1 + (Math.of_index index * 0.15) /\
        TableObject.y t = 0.1 /\
        TableObject.isDragging t = false /\
        ((6 <= index < 4096)%nat -> (0.95 <? TableObject.x t) = true) /\
        (index = 6%nat -> TableObject.x t = 0.9999999999999999 /\
                          (TableObject.x t <? 1) = true) /\
        ((7 <= index < 4096)%nat -> (1 <=? TableObject.x t) = true).
Proof.
  intros now names s Hinit Hne s'. subst s'. unfold initTables.
  rewrite Hinit. cbn [negb andb].
  destruct names as [|n0 names]; [congruence|].
  cbn [List.length Nat.ltb Nat.leb tablesRef tablesInitialized set_tablesInitialized
       set_tablesRef].
  split; [exact (length_mapi_from (newTable now) (n0 :: names) 0)|]. split; [reflexivity|].
  intros index tableName Hnth.
  exists (newTable now tableName index). split.
  - apply (nth_error_mapi_from (newTable now) (n0 :: names) 0 index tableName Hnth).
  - cbn [newTable TableObject.name TableObject.x TableObject.y TableObject.isDragging].
    repeat split.
    + apply initialX_beyond_clamp.
    + subst index. vm_compute. reflexivity.
    + subst index. vm_compute. reflexivity.
    + apply initialX_at_least_one.
Qed.

(** C10, amended, for seven names: seven tables, the last one at
    0.9999999999999999. *)
Lemma tables_created_unclamped_witness :
  List.length (tablesRef (initTables 0 sevenTables false initialState)) = 7%nat /\
  exists t,
    nth_error (tablesRef (initTables 0 sevenTables false initialState)) 6 = Some t /\
    (0.95 <? TableObject.x t) = true /\ (TableObject.x t <? 1) = true.
Proof.
  assert (Hne : sevenTables <> []) by discriminate.
  destruct (tables_created_unclamped 0%Z sevenTables initialState eq_refl Hne)
    as (Hlen & _ & Hall).
  split; [exact Hlen|].
  destruct (Hall 6%nat "g"%string eq_refl) as (t & Ht & _ & _ & _ & _ & Hout & Hsix & _).
  exists t. split; [exact Ht|]. split; [apply Hout; lia | apply (Hsix eq_refl)].
Defined.

(** With no name available the four fallback names are used. *)
Example tables_fallback :
  map TableObject.name (tablesRef (initTables 0 [] false initialState))
  = ["users"; "posts"; "comments"; "products"]%string.
Proof. reflexivity. Qed.

End Creation.

(** * Further properties of the gesture engine *)

(** ** The swipe detector *)

Section SwipeDetector.
Local Open Scope float_scope.

(** X1. While a swipe is tracked and the index finger is extended, the tick
    ends the chart view exactly when the horizontal travel exceeds 0.3, the
    vertical travel is below 0.2 and less than 1000 ms have passed: it then
    sets [exiting], stamps the start of the animation, schedules the exit
    callback 600 ms ahead and stops tracking; in every other case the view
    state, the animation start and the pending callbacks are untouched.  In
    both cases the current point is recorded and the start of the swipe is
    kept. *)
Theorem swipe_completes_iff :
  forall now landmarks rest s,
    (Landmark.y (at_index landmarks 8) <? Landmark.y (at_index landmarks 6)) = true ->
    SwipeState.isTracking (swipeStateRef s) = true ->
    let s' := chartFrame now (landmarks :: rest) s in
    let deltaX := Landmark.x (at_index landmarks 8) - SwipeState.startX (swipeStateRef s) in
    let deltaY :=
      Math.abs (Landmark.y (at_index landmarks 8) - SwipeState.startY (swipeStateRef s)) in
    let timeElapsed := (now - SwipeState.startTime (swipeStateRef s))%Z in
    ((0.3 <? Math.abs deltaX) = true /\ (deltaY <? 0.2) = true /\ (timeElapsed < 1000)%Z ->
     chartAnimationState s' = exiting /\
     chartAnimationStartRef s' = now /\
     timers s' = timers s ++ [((now + 600)%Z, ExitDone)] /\
     SwipeState.isTracking (swipeStateRef s') = false) /\
    ((0.3 <? Math.abs deltaX) = false \/ (deltaY <? 0.2) = false \/ (timeElapsed >= 1000)%Z ->
     chartAnimationState s' = chartAnimationState s /\
     chartAnimationStartRef s' = chartAnimationStartRef s /\
     timers s' = timers s) /\
    SwipeState.currentX (swipeStateRef s') = Landmark.x (at_index landmarks 8) /\
    SwipeState.currentY (swipeStateRef s') = Landmark.y (at_index landmarks 8) /\
    SwipeState.startX (swipeStateRef s') = SwipeState.startX (swipeStateRef s) /\
    SwipeState.startY (swipeStateRef s') = SwipeState.startY (swipeStateRef s) /\
    SwipeState.startTime (swipeStateRef s') = SwipeState.startTime (swipeStateRef s).
Proof.
  intros now landmarks rest s Hext Htr s' deltaX deltaY timeElapsed.
  assert (Hs : s' =
    let s1 := set_swipeStateRef
                (SwipeState.set_current (Landmark.x (at_index landmarks 8))
                   (Landmark.y (at_index landmarks 8)) (swipeStateRef s)) s in
    if swipeComplete deltaX deltaY timeElapsed then
      let s2 := hideChartWithAnimation now s1 in
      set_swipeStateRef (SwipeState.set_isTracking false (swipeStateRef s2)) s2
    else if (timeElapsed >? 1000)%Z then
      set_swipeStateRef (SwipeState.set_isTracking false (swipeStateRef s1)) s1
    else s1).
  { subst s'. unfold chartFrame. cbv zeta. rewrite Hext, Htr. reflexivity. }
  clearbody s'. subst s'. cbv zeta. unfold swipeComplete, gtb.
  destruct (0.3 <? Math.abs deltaX) eqn:Hx; destruct (deltaY <? 0.2) eqn:Hy;
    destruct (timeElapsed <? 1000)%Z eqn:Ht; cbn [andb];
    try apply Z.ltb_lt in Ht; try apply Z.ltb_ge in Ht;
    try destruct (timeElapsed >? 1000)%Z;
    (split; [intros (H1 & H2 & H3); first [discriminate | lia | repeat split]
            |split; [intros [H|[H|H]]; first [discriminate | lia | repeat split]
                    |repeat split]]).
Qed.

(** X1 at a completing tick (from (0.2, 0.5) to (0.6, 0.5) in 40 ms). *)
Lemma swipe_completes_iff_witness :
  chartAnimationState (chartFrame 750 [pointAt 0.6 0.5] swipeStarted) = exiting /\
  timers (chartFrame 750 [pointAt 0.6 0.5] swipeStarted)
    = timers swipeStarted ++ [(1350%Z, ExitDone)].
Proof.
  pose proof (swipe_completes_iff 750%Z (pointAt 0.6 0.5) [] swipeStarted eq_refl eq_refl) as H.
  cbv zeta in H. destruct H as [H _].
  destruct H as (H1 & _ & H3 & _).
  - split; [vm_compute; reflexivity|]. split; [vm_compute; reflexivity | reflexivity].
  - split; [exact H1 | exact H3].
Defined.

(** X2. A swipe never completes on the tick that starts it: with no swipe
    tracked before the tick, the view state, the animation start and the
    pending callbacks are as before, whatever the landmarks; tracking is on
    afterwards exactly when a hand is present with the index tip above its
    PIP joint, and then it starts at the index tip at the current time. *)
Theorem swipe_needs_a_tracked_start :
  forall now w h results s,
    showChart s = true ->
    SwipeState.isTracking (swipeStateRef s) = false ->
    let s' := renderLoop now w h results s in
    chartAnimationState s' = chartAnimationState s /\
    chartAnimationStartRef s' = chartAnimationStartRef s /\
    timers s' = timers s /\
    match results with
    | [] => swipeStateRef s' = swipeStateRef s
    | landmarks :: _ =>
        if Landmark.y (at_index landmarks 8) <? Landmark.y (at_index landmarks 6)
        then swipeStateRef s' =
             SwipeState.mk true (Landmark.x (at_index landmarks 8))
               (Landmark.y (at_index landmarks 8)) (Landmark.x (at_index landmarks 8))
               (Landmark.y (at_index landmarks 8)) now
        else SwipeState.isTracking (swipeStateRef s') = false
    end.
Proof.
  intros now w h results s Hshow Htr s'. subst s'.
  unfold renderLoop. rewrite Hshow. unfold chartFrame.
  destruct results as [|landmarks rest]; [repeat split|].
  cbv zeta. rewrite Htr. cbn [negb].
  destruct (Landmark.y (at_index landmarks 8) <? Landmark.y (at_index landmarks 6));
    repeat split.
Qed.

(** X2 at the tick that starts the swipe of the samples. *)
Lemma swipe_needs_a_tracked_start_witness :
  chartAnimationState (renderLoop 710 1280 720 [pointAt 0.2 0.5] chartEntering)
    = chartAnimationState chartEntering /\
  timers (renderLoop 710 1280 720 [pointAt 0.2 0.5] chartEntering) = timers chartEntering.
Proof.
  pose proof (swipe_needs_a_tracked_start 710%Z 1280 720 [pointAt 0.2 0.5] chartEntering
                eq_refl eq_refl) as H.
  cbv zeta in H. destruct H as (H1 & _ & H3 & _). split; [exact H1 | exact H3].
Defined.

End SwipeDetector.

(** ** The two modes of a tick *)

Section Modes.
Local Open Scope float_scope.

Lemma chartFrame_tables now results s :
  tablesRef (chartFrame now results s) = tablesRef s.
Proof.
  unfold chartFrame. destruct results as [|landmarks rest]; [reflexivity|].
  cbv zeta. unfold_ops. split_branches; reflexivity.
Qed.

(** X3. The branch a tick takes is fixed by the [showChart] its loop
    captured, and each branch keeps to its own state.  A tick of a loop that
    captured [showChart = true] touches nothing of the manipulation surface:
    tables, drag target, DroppedSet, pinch state, hover flag, latch, toast
    and catalog requests are as before.  A tick of a loop that captured
    [showChart = false] touches neither the swipe tracker nor the chart:
    swipe state, view state, animation start and chart data are as before.
    [showChart] itself is never written by a tick. *)
Theorem tick_modes_are_separate :
  forall shown now w h results s,
    let s' := loopTick shown now w h results s in
    showChart s' = showChart s /\
    (shown = true ->
     tablesRef s' = tablesRef s /\ draggedTableRef s' = draggedTableRef s /\
     droppedTablesRef s' = droppedTablesRef s /\ pinchStateRef s' = pinchStateRef s /\
     generateButtonHoverRef s' = generateButtonHoverRef s /\
     buttonClickedRef s' = buttonClickedRef s /\
     toast s' = toast s /\ requests s' = requests s /\ loadingData s' = loadingData s) /\
    (shown = false ->
     swipeStateRef s' = swipeStateRef s /\
     chartAnimationState s' = chartAnimationState s /\
     chartAnimationStartRef s' = chartAnimationStartRef s /\
     chartData s' = chartData s).
Proof.
  intros shown now w h results s s'. subst s'.
  split; [apply loopTick_showChart|]. split; intros ->; cbn [loopTick].
  - unfold chartFrame.
    destruct results as [|landmarks rest]; [repeat split|].
    cbv zeta. unfold_ops. split_branches; repeat split.
  - unfold dragFrame.
    destruct results as [|landmarks rest].
    + unfold_ops. split_branches; repeat split.
    + generalize (landmarks :: rest). clear landmarks rest. intros hands.
      revert s. induction hands as [|landmarks hands IH]; intros s;
        [repeat split|].
      cbn [fold_left].
      assert (Hone : swipeStateRef (processHand now w h s landmarks) = swipeStateRef s /\
                     chartAnimationState (processHand now w h s landmarks)
                       = chartAnimationState s /\
                     chartAnimationStartRef (processHand now w h s landmarks)
                       = chartAnimationStartRef s /\
                     chartData (processHand now w h s landmarks) = chartData s).
      { unfold processHand. unfold_ops. split_branches; repeat split. }
      destruct Hone as (E1 & E2 & E3 & E4).
      destruct (IH (processHand now w h s landmarks)) as (F1 & F2 & F3 & F4).
      repeat split; congruence.
Qed.

(** The current [showChart] does not decide: with the chart shown, a loop
    that captured [showChart = false] before the show and was not cancelled
    lets go of the button, grabs orders and carries it away. *)
Example stale_loop_drags_under_the_chart :
  let s := fold_left act
             [LoopTick false 733 1280 720 [openHand];
              LoopTick false 766 1280 720 [pinchAt 0.5 0.7];
              LoopTick false 800 1280 720 [pinchAt 0.3 0.3]] chartEntering in
  showChart chartEntering = true /\ showChart s = true /\
  map position (tablesRef chartEntering) = [(0.5, 0.7)] /\
  map position (tablesRef s) = [(0.3, 0.3)].
Proof. by_evaluation. Qed.

End Modes.

(** ** Pinch start: button, latch and hit test *)

Section PinchStart.
Local Open Scope float_scope.

Lemma processHand_start now w h s landmarks :
  PinchState.isPinching (pinchStateRef s) = false ->
  (distance landmarks <? pinchThreshold) = true ->
  processHand now w h s landmarks =
  pinchStart now w h (pinchX landmarks) (pinchY landmarks) s.
Proof. intros Hp Hd. unfold processHand. now rewrite Hd, Hp. Qed.

(** X4. The button is tested before the tables: a pinch that starts inside
    the generate button's rectangle grabs nothing, even with a table under
    the pinch point; tables and drag target are as before and the hover flag
    is set. *)
Theorem button_shadows_tables :
  forall now w h s landmarks,
    PinchState.isPinching (pinchStateRef s) = false ->
    (distance landmarks <? pinchThreshold) = true ->
    onButton w h (pinchX landmarks) (pinchY landmarks) = true ->
    let s' := processHand now w h s landmarks in
    tablesRef s' = tablesRef s /\
    draggedTableRef s' = draggedTableRef s /\
    generateButtonHoverRef s' = true /\
    buttonClickedRef s' = true /\
    pinchStateRef s' = PinchState.mk true (pinchX landmarks) (pinchY landmarks).
Proof.
  intros now w h s landmarks Hp Hd Hb s'. subst s'.
  rewrite (processHand_start _ _ _ _ _ Hp Hd). unfold pinchStart. rewrite Hb.
  unfold_ops. split_branches; repeat split.
  cbn in *. destruct (buttonClickedRef s); [reflexivity | discriminate].
Qed.

(** X4 with a table lying exactly under the pinch point on the button. *)
Lemma button_shadows_tables_witness :
  tablesRef (processHand 0 1280 720 underButton (pinchAt 0.7 0.7)) = tablesRef underButton /\
  draggedTableRef (processHand 0 1280 720 underButton (pinchAt 0.7 0.7)) = None.
Proof.
  pose proof (button_shadows_tables 0%Z 1280 720 underButton (pinchAt 0.7 0.7)
                eq_refl eq_refl eq_refl) as H.
  cbv zeta in H. destruct H as (H1 & H2 & _). split; [exact H1 | exact H2].
Defined.

(** X5. The generate action runs once per latch: while the latch is taken, a
    pinch that starts on the button only sets the hover flag and the pinch
    state; no toast, no catalog request and no callback are added. *)
Theorem latched_button_does_nothing :
  forall now w h s landmarks,
    PinchState.isPinching (pinchStateRef s) = false ->
    (distance landmarks <? pinchThreshold) = true ->
    onButton w h (pinchX landmarks) (pinchY landmarks) = true ->
    buttonClickedRef s = true ->
    processHand now w h s landmarks =
    set_pinchStateRef (PinchState.mk true (pinchX landmarks) (pinchY landmarks))
      (set_generateButtonHoverRef true s).
Proof.
  intros now w h s landmarks Hp Hd Hb Hlatch.
  rewrite (processHand_start _ _ _ _ _ Hp Hd). unfold pinchStart. rewrite Hb.
  cbn [buttonClickedRef set_generateButtonHoverRef]. rewrite Hlatch. reflexivity.
Qed.

(** X5 after the pinch was lost without a measured release: the latch of
    [latched] survives the frame without hands, and the next pinch on the
    button, now with orders dropped, requests nothing. *)
Lemma latched_button_does_nothing_witness :
  requests (processHand 300 1280 720 stillLatched (pinchAt 0.7 0.7)) = [] /\
  timers (processHand 300 1280 720 stillLatched (pinchAt 0.7 0.7)) = timers stillLatched.
Proof.
  rewrite (latched_button_does_nothing 300%Z 1280 720 stillLatched (pinchAt 0.7 0.7)
             eq_refl eq_refl eq_refl eq_refl).
  split; reflexivity.
Defined.

(** X6. With the latch free and at least one name in DroppedSet, a pinch
    that starts on the button raises the info toast with the count, issues
    one catalog request for a copy of DroppedSet, and schedules the toast's
    expiry at 3000 ms and the show of the chart at 500 ms; the view itself is
    not changed by this tick, and DroppedSet is kept. *)
Theorem generate_with_dropped_tables :
  forall now w h s landmarks,
    PinchState.isPinching (pinchStateRef s) = false ->
    (distance landmarks <? pinchThreshold) = true ->
    onButton w h (pinchX landmarks) (pinchY landmarks) = true ->
    buttonClickedRef s = false ->
    droppedTablesRef s <> [] ->
    let s' := processHand now w h s landmarks in
    toast s' =
      Some (("Creating chart with " ++ string_of_nat (List.length (droppedTablesRef s))
               ++ " table(s)")%string, info) /\
    requests s' = requests s ++ [droppedTablesRef s] /\
    loadingData s' = true /\
    timers s' = timers s ++ [((now + 3000)%Z, ClearToast); ((now + 500)%Z, ShowChart)] /\
    showChart s' = showChart s /\
    chartAnimationState s' = chartAnimationState s /\
    droppedTablesRef s' = droppedTablesRef s /\
    buttonClickedRef s' = true.
Proof.
  intros now w h s landmarks Hp Hd Hb Hlatch Hne s'. subst s'.
  rewrite (processHand_start _ _ _ _ _ Hp Hd). unfold pinchStart. rewrite Hb.
  cbn [buttonClickedRef set_generateButtonHoverRef]. rewrite Hlatch. cbn [negb].
  unfold generate.
  cbn [droppedTablesRef set_buttonClickedRef set_generateButtonHoverRef].
  destruct (droppedTablesRef s) as [|n dropped] eqn:Hdropped; [congruence|].
  cbn [List.length Nat.eqb]. unfold showToast, fetchTableData, setTimeout. cbn.
  rewrite Hdropped, <- app_assoc. repeat split.
Qed.

(** X6 with orders in DroppedSet. *)
Lemma generate_with_dropped_tables_witness :
  requests (processHand 200 1280 720 ordersDropped (pinchAt 0.7 0.7)) = [["orders"%string]] /\
  timers (processHand 200 1280 720 ordersDropped (pinchAt 0.7 0.7))
    = [(3200%Z, ClearToast); (700%Z, ShowChart)] /\
  chartAnimationState (processHand 200 1280 720 ordersDropped (pinchAt 0.7 0.7)) = hidden.
Proof.
  assert (Hne : droppedTablesRef ordersDropped <> []) by (vm_compute; discriminate).
  pose proof (generate_with_dropped_tables 200%Z 1280 720 ordersDropped (pinchAt 0.7 0.7)
                eq_refl eq_refl eq_refl eq_refl Hne) as H.
  cbv zeta in H. destruct H as (_ & H2 & _ & H4 & _ & H6 & _).
  split; [exact H2 | split; [exact H4 | exact H6]].
Defined.

End PinchStart.

(** ** Hit test of the tables *)

Section HitTest.
Local Open Scope float_scope.

Variables px py tableSize : float.

Lemma grabFirst_hit (l1 l2 : list TableObject.t) (t : TableObject.t) :
  Forall (fun u => hit px py tableSize u = false) l1 -> hit px py tableSize t = true ->
  grabFirst px py tableSize (l1 ++ t :: l2) =
  (Some (TableObject.id t), l1 ++ TableObject.set_isDragging true t :: l2).
Proof.
  intros Hl1 Ht. induction Hl1 as [|u l1 Hu _ IH]; simpl.
  - unfold hit in Ht. now rewrite Ht.
  - unfold hit in Hu. now rewrite Hu, IH.
Qed.

Lemma grabFirst_miss (l : list TableObject.t) :
  Forall (fun u => hit px py tableSize u = false) l -> grabFirst px py tableSize l = (None, l).
Proof.
  intros Hl. induction Hl as [|u l Hu _ IH]; simpl; [reflexivity|].
  unfold hit in Hu. now rewrite Hu, IH.
Qed.

(** Either some table is the first one hit, or none is. *)
Lemma first_hit (l : list TableObject.t) :
  Forall (fun u => hit px py tableSize u = false) l \/
  exists l1 t l2, l = l1 ++ t :: l2 /\ Forall (fun u => hit px py tableSize u = false) l1 /\ hit px py tableSize t = true.
Proof.
  induction l as [|u l IH]; [left; constructor|].
  destruct (hit px py tableSize u) eqn:Hu.
  - right. exists [], u, l. repeat split; [constructor | exact Hu].
  - destruct IH as [IH|(l1 & t & l2 & -> & Hl1 & Ht)].
    + left. now constructor.
    + right. exists (u :: l1), t, l2. repeat split; [now constructor | exact Ht].
Qed.

End HitTest.

Section Grab.
Local Open Scope float_scope.

(** X7. Off the button, a pinch start grabs the first table of the array
    whose centre is nearer to the pinch point than 60 px over the smaller
    canvas side: that table alone gets the dragging flag and its id becomes
    the drag target; with no table that near, tables and drag target stay as
    they are.  Either way no position, DroppedSet entry, toast or callback
    changes. *)
Theorem pinch_start_grabs_first_hit :
  forall now w h s landmarks,
    PinchState.isPinching (pinchStateRef s) = false ->
    (distance landmarks <? pinchThreshold) = true ->
    onButton w h (pinchX landmarks) (pinchY landmarks) = false ->
    let s' := processHand now w h s landmarks in
    let near := hit (pinchX landmarks) (pinchY landmarks) (60 / Math.min w h) in
    (forall l1 t l2,
        tablesRef s = l1 ++ t :: l2 ->
        Forall (fun u => near u = false) l1 -> near t = true ->
        tablesRef s' = l1 ++ TableObject.set_isDragging true t :: l2 /\
        draggedTableRef s' = Some (TableObject.id t)) /\
    (Forall (fun u => near u = false) (tablesRef s) ->
     tablesRef s' = tablesRef s /\ draggedTableRef s' = draggedTableRef s) /\
    map TableObject.x (tablesRef s') = map TableObject.x (tablesRef s) /\
    map TableObject.y (tablesRef s') = map TableObject.y (tablesRef s) /\
    droppedTablesRef s' = droppedTablesRef s /\
    toast s' = toast s /\ timers s' = timers s /\ requests s' = requests s /\
    buttonClickedRef s' = buttonClickedRef s /\
    generateButtonHoverRef s' = generateButtonHoverRef s.
Proof.
  intros now w h s landmarks Hp Hd Hb s' near. subst s'.
  rewrite (processHand_start _ _ _ _ _ Hp Hd). unfold pinchStart. rewrite Hb.
  destruct (first_hit (pinchX landmarks) (pinchY landmarks) (60 / Math.min w h) (tablesRef s))
    as [Hmiss|(l1 & t & l2 & E & Hl1 & Ht)].
  - rewrite (grabFirst_miss _ _ _ _ Hmiss). read_fields.
    split; [|repeat split].
    intros k1 u k2 E Hk1 Hu. exfalso. rewrite E in Hmiss.
    apply Forall_app in Hmiss as [_ Hmiss]. inversion Hmiss as [|? ? Hu' _]; subst.
    unfold near in Hu. congruence.
  - rewrite E, (grabFirst_hit _ _ _ _ _ _ Hl1 Ht). read_fields. rewrite <- E.
    split; [|split]; [| |rewrite E, !map_app; repeat split].
    + intros k1 u k2 E' Hk1 Hu. rewrite E in E'.
      assert (Hsame : l1 = k1 /\ t = u /\ l2 = k2).
      { clear - E' Hl1 Ht Hk1 Hu. fold near in Hl1, Ht.
        revert k1 E' Hk1. induction Hl1 as [|a l1 Ha _ IH]; intros k1 E' Hk1.
        - destruct k1 as [|b k1]; simpl in E'.
          + injection E' as -> ->. repeat split.
          + injection E' as -> _. inversion Hk1; subst. congruence.
        - destruct k1 as [|b k1]; simpl in E'.
          + injection E' as -> _. congruence.
          + injection E' as -> E'. inversion Hk1; subst.
            destruct (IH k1 E') as (-> & -> & ->); [assumption|]. repeat split. }
      destruct Hsame as (-> & -> & ->). split; reflexivity.
    + intros Hmiss. exfalso. rewrite E in Hmiss.
      apply Forall_app in Hmiss as [_ Hmiss]. inversion Hmiss as [|? ? Hu' _]; subst.
      unfold near in Hu'. congruence.
Qed.

(** X7 on the first pinch of the samples: orders, at (0.1, 0.1), is grabbed. *)
Lemma pinch_start_grabs_first_hit_witness :
  draggedTableRef
    (processHand 100 1280 720 (initTables 0 ["orders"%string] false initialState)
       (pinchAt 0.1 0.1)) = Some "orders-0-0"%string.
Proof.
  pose proof (pinch_start_grabs_first_hit 100%Z 1280 720
                (initTables 0 ["orders"%string] false initialState) (pinchAt 0.1 0.1)
                eq_refl eq_refl eq_refl) as H.
  cbv zeta in H. destruct H as (H & _).
  apply (H [] (TableObject.mk "orders-0-0" "orders" 0.1 0.1 false) []);
    [reflexivity | constructor | vm_compute; reflexivity].
Defined.

End Grab.

(** ** Tables keep their identity *)

Section Identity.
Local Open Scope float_scope.

Lemma map_updateFound {B : Type} (g : TableObject.t -> B) p f (l : list TableObject.t) :
  (forall t, g (f t) = g t) -> map g (updateFound p f l) = map g l.
Proof.
  intros Hg. induction l as [|u l IH]; simpl; [reflexivity|].
  destruct (p u); simpl; [now rewrite Hg | now rewrite IH].
Qed.

Lemma map_grabFirst {B : Type} (g : TableObject.t -> B) px py tableSize
  (l : list TableObject.t) :
  (forall t, g (TableObject.set_isDragging true t) = g t) ->
  map g (snd (grabFirst px py tableSize l)) = map g l.
Proof.
  intros Hg. induction l as [|u l IH]; simpl; [reflexivity|].
  destruct (dist px py (TableObject.x u) (TableObject.y u) <? tableSize); simpl.
  - now rewrite Hg.
  - destruct (grabFirst px py tableSize l) as [r rest']. simpl in *. now rewrite IH.
Qed.

(** A hand changes of the tables at most flags and positions ([g] reads
    neither), or only flags ([g] may read positions) when it is no continue
    step. *)
Lemma processHand_map {B : Type} (g : TableObject.t -> B) now w h s landmarks :
  (forall b t, g (TableObject.set_isDragging b t) = g t) ->
  (forall a b t, g (TableObject.set_xy a b t) = g t) \/
  PinchState.isPinching (pinchStateRef s) = false \/
  (distance landmarks <? pinchThreshold) = false ->
  map g (tablesRef (processHand now w h s landmarks)) = map g (tablesRef s).
Proof.
  intros Hflag Hxy. unfold processHand.
  destruct (distance landmarks <? pinchThreshold) eqn:Hd;
    destruct (PinchState.isPinching (pinchStateRef s)) eqn:Hp; cbn [negb].
  - destruct Hxy as [Hxy|[Hxy|Hxy]]; try discriminate.
    rewrite pinchContinue_tables. destruct (truthy (draggedTableRef s)); [|reflexivity].
    apply map_updateFound. intros t. unfold moved. apply Hxy.
  - unfold pinchStart. destruct (onButton w h (pinchX landmarks) (pinchY landmarks)).
    + unfold_ops. split_branches; reflexivity.
    + pose proof (map_grabFirst g (pinchX landmarks) (pinchY landmarks)
                    (60 / Math.min w h) (tablesRef s) (Hflag true)) as Hg.
      destruct (grabFirst (pinchX landmarks) (pinchY landmarks) (60 / Math.min w h)
                  (tablesRef s)) as [[i|] tables']; [exact Hg | reflexivity].
  - unfold pinchRelease. read_fields.
    destruct (truthy (draggedTableRef s)); [|reflexivity].
    destruct (find (isDragged (draggedTableRef s)) (tablesRef s)) as [t|]; [|reflexivity].
    assert (E : map g (updateFound (isDragged (draggedTableRef s))
                         (TableObject.set_isDragging false) (tablesRef s))
                = map g (tablesRef s)) by (apply map_updateFound, Hflag).
    split_branches; read_fields; exact E.
  - reflexivity.
Qed.

Lemma noHandsRelease_map {B : Type} (g : TableObject.t -> B) s :
  (forall b t, g (TableObject.set_isDragging b t) = g t) ->
  map g (tablesRef (noHandsRelease s)) = map g (tablesRef s).
Proof.
  intros Hflag. unfold noHandsRelease. read_fields.
  destruct (truthy (draggedTableRef s)); [|reflexivity].
  read_fields. apply map_updateFound, Hflag.
Qed.

Lemma renderLoop_map {B : Type} (g : TableObject.t -> B) now w h results s :
  (forall b t, g (TableObject.set_isDragging b t) = g t) ->
  (forall a b t, g (TableObject.set_xy a b t) = g t) ->
  map g (tablesRef (renderLoop now w h results s)) = map g (tablesRef s).
Proof.
  intros Hflag Hxy. unfold renderLoop. destruct (showChart s) eqn:Hshow.
  - pose proof (chartFrame_tables now results s) as E. now rewrite E.
  - unfold dragFrame. destruct results as [|landmarks rest].
    + destruct (PinchState.isPinching (pinchStateRef s)); [|reflexivity].
      now apply noHandsRelease_map.
    + generalize (landmarks :: rest). clear landmarks rest. intros hands. clear Hshow.
      revert s. induction hands as [|landmarks hands IH]; intros s; [reflexivity|].
      cbn [fold_left]. rewrite IH. apply processHand_map; [exact Hflag | now left].
Qed.

Lemma runCallback_tables now cb s : tablesRef (runCallback now cb s) = tablesRef s.
Proof. destruct cb; reflexivity. Qed.

(** X8. Tables are never destroyed, added or renamed after their creation:
    once the list is initialised, every event (tick, callback, later run of
    the creation effect) leaves the number of tables and each table's id and
    name as they are, in the same order; callbacks leave the whole array as
    it is. *)
Theorem tables_keep_identity :
  forall s e,
    tablesInitialized s = true ->
    map identity (tablesRef (step s e)) = map identity (tablesRef s) /\
    List.length (tablesRef (step s e)) = List.length (tablesRef s) /\
    tablesInitialized (step s e) = true /\
    (forall now n, e = Timer now n -> tablesRef (step s e) = tablesRef s).
Proof.
  intros s e Hinit.
  assert (Hid : map identity (tablesRef (step s e)) = map identity (tablesRef s)).
  { destruct e as [now w h results|now n|now names loading]; simpl.
    - apply renderLoop_map; intros; reflexivity.
    - destruct (nth_error (timers s) n) as [[due cb]|]; [|reflexivity].
      destruct (due <=? now)%Z; [|reflexivity]. now rewrite runCallback_tables.
    - unfold initTables. rewrite Hinit, andb_false_r. reflexivity. }
  split; [exact Hid|]. split; [|split].
  - rewrite <- (length_map identity (tablesRef (step s e))), Hid. apply length_map.
  - destruct e as [now w h results|now n|now names loading]; simpl.
    + unfold renderLoop, chartFrame, dragFrame.
      destruct (showChart s).
      * destruct results as [|landmarks rest]; [exact Hinit|].
        cbv zeta. unfold_ops. split_branches; exact Hinit.
      * destruct results as [|landmarks rest].
        -- unfold_ops. split_branches; exact Hinit.
        -- clear Hid. generalize (landmarks :: rest). clear landmarks rest. intros hands.
           revert s Hinit. induction hands as [|landmarks hands IH]; intros s Hinit;
             [exact Hinit|].
           cbn [fold_left]. apply IH.
           unfold processHand. unfold_ops. split_branches; exact Hinit.
    + destruct (nth_error (timers s) n) as [[due cb]|]; [|exact Hinit].
      destruct (due <=? now)%Z; [|exact Hinit]. destruct cb; exact Hinit.
    + unfold initTables. rewrite Hinit, andb_false_r. exact Hinit.
  - intros now n ->. simpl.
    destruct (nth_error (timers s) n) as [[due cb]|]; [|reflexivity].
    destruct (due <=? now)%Z; [|reflexivity]. now rewrite runCallback_tables.
Qed.

(** X8 on a tick that moves orders from its place of creation. *)
Lemma tables_keep_identity_witness :
  map identity
    (tablesRef (step (run [TablesEffect 0 ["orders"%string] false;
                           Tick 100 1280 720 [pinchAt 0.1 0.1]] initialState)
                  (Tick 133 1280 720 [pinchAt 0.5 0.7])))
  = [("orders-0-0", "orders")]%string.
Proof.
  destruct (tables_keep_identity
              (run [TablesEffect 0 ["orders"%string] false;
                    Tick 100 1280 720 [pinchAt 0.1 0.1]] initialState)
              (Tick 133 1280 720 [pinchAt 0.5 0.7]) eq_refl) as [H _].
  rewrite H. reflexivity.
Defined.

End Identity.

(** ** Where positions change *)

Section Positions.
Local Open Scope float_scope.

(** X11. A table's position is written by the continue step only.  A hand
    that starts a pinch, ends one or does not pinch, a frame without hands,
    a tick of the chart view and every callback leave all positions as they
    are: grabbing does not move a table, and a release, inside the drop zone
    or not, leaves the table where it was let go. *)
Theorem positions_change_only_on_continue :
  (forall now w h s landmarks,
      PinchState.isPinching (pinchStateRef s) = false \/
      (distance landmarks <? pinchThreshold) = false ->
      map position (tablesRef (processHand now w h s landmarks))
      = map position (tablesRef s)) /\
  (forall s, map position (tablesRef (noHandsRelease s)) = map position (tablesRef s)) /\
  (forall now w h s results,
      PinchState.isPinching (pinchStateRef s) = false -> (List.length results <= 1)%nat ->
      map position (tablesRef (renderLoop now w h results s)) = map position (tablesRef s)) /\
  (forall now w h s results,
      showChart s = true -> tablesRef (renderLoop now w h results s) = tablesRef s) /\
  (forall now cb s, tablesRef (runCallback now cb s) = tablesRef s).
Proof.
  assert (Hhand : forall now w h s landmarks,
             PinchState.isPinching (pinchStateRef s) = false \/
             (distance landmarks <? pinchThreshold) = false ->
             map position (tablesRef (processHand now w h s landmarks))
             = map position (tablesRef s)).
  { intros now w h s landmarks H. apply processHand_map; [reflexivity | now right]. }
  split; [exact Hhand|]. split; [intros s; now apply noHandsRelease_map|].
  split; [|split; [|apply runCallback_tables]].
  - intros now w h s results Hp Hlen. unfold renderLoop.
    destruct (showChart s); [now rewrite chartFrame_tables|].
    unfold dragFrame. destruct results as [|landmarks [|second rest]].
    + now rewrite Hp.
    + cbn [fold_left]. apply Hhand. now left.
    + simpl in Hlen. lia.
  - intros now w h s results Hshow. unfold renderLoop. rewrite Hshow.
    apply chartFrame_tables.
Qed.

End Positions.

(** ** Ids of the created tables *)

Section Ids.
Local Open Scope string_scope.

Lemma append_assoc (a b c : string) : (a ++ b) ++ c = a ++ (b ++ c).
Proof. induction a as [|x a IH]; simpl; [reflexivity | now rewrite IH]. Qed.

Lemma dashless_digits (d : Decimal.uint) : dashless (NilEmpty.string_of_uint d) = true.
Proof. induction d; simpl; auto. Qed.

Lemma dashless_string_of_nat (n : nat) : dashless (string_of_nat n) = true.
Proof.
  unfold string_of_nat, NilZero.string_of_uint.
  destruct (Nat.to_uint n); try apply (dashless_digits (_ _)); reflexivity.
Qed.

Lemma dashless_no_dash (a b : string) : dashless (a ++ String "-" b) = false.
Proof.
  induction a as [|x a IH]; simpl; [reflexivity|].
  rewrite IH. apply andb_false_r.
Qed.

(** The text after the last dash is determined by the whole string. *)
Lemma after_last_dash (a b d d' : string) :
  dashless d = true -> dashless d' = true ->
  a ++ String "-" d = b ++ String "-" d' -> d = d'.
Proof.
  intros Hd Hd'. revert b. induction a as [|x a IH]; intros [|y b] E; simpl in E.
  - now injection E.
  - injection E as _ E. rewrite E, dashless_no_dash in Hd. discriminate.
  - injection E as _ E. rewrite <- E, dashless_no_dash in Hd'. discriminate.
  - injection E as _ E. now apply (IH b).
Qed.

Lemma string_of_nat_inj (n m : nat) : string_of_nat n = string_of_nat m -> n = m.
Proof.
  unfold string_of_nat. intros E.
  assert (Hnz : forall k, Nat.to_uint k <> Decimal.Nil).
  { intros k. rewrite <- (DecimalNat.Unsigned.of_to k) at 1.
    rewrite DecimalNat.Unsigned.to_of. apply DecimalFacts.unorm_nonnil. }
  apply DecimalNat.Unsigned.to_uint_inj.
  pose proof (NilZero.usu _ (Hnz n)) as Hn. pose proof (NilZero.usu _ (Hnz m)) as Hm.
  rewrite E in Hn. congruence.
Qed.

Lemma newTable_id now n i :
  TableObject.id (newTable now n i)
  = (n ++ String "-" (string_of_Z now)) ++ String "-" (string_of_nat i).
Proof. unfold newTable. cbn [TableObject.id]. rewrite append_assoc. reflexivity. Qed.

Lemma newTable_id_inj now n m i j :
  TableObject.id (newTable now n i) = TableObject.id (newTable now m j) -> i = j.
Proof.
  rewrite !newTable_id. intros E. apply string_of_nat_inj.
  apply (after_last_dash _ _ _ _ (dashless_string_of_nat i) (dashless_string_of_nat j) E).
Qed.

Lemma newTable_id_nonempty now n i : TableObject.id (newTable now n i) <> "".
Proof.
  unfold newTable. cbn [TableObject.id]. destruct n; simpl; discriminate.
Qed.

Lemma mapi_from_ids now (names : list string) (k : nat) (i : string) :
  In i (map TableObject.id (mapi_from (newTable now) k names)) ->
  exists n j, (k <= j)%nat /\ i = TableObject.id (newTable now n j).
Proof.
  revert k. induction names as [|n names IH]; intros k; simpl; [intros []|].
  intros [<-|H].
  - exists n, k. split; [lia | reflexivity].
  - destruct (IH (S k) H) as (m & j & Hj & ->). exists m, j. split; [lia | reflexivity].
Qed.

Lemma mapi_from_ids_NoDup now (names : list string) (k : nat) :
  NoDup (map TableObject.id (mapi_from (newTable now) k names)).
Proof.
  revert k. induction names as [|n names IH]; intros k; simpl; constructor; [|apply IH].
  intros H. apply mapi_from_ids in H as (m & j & Hj & E).
  apply newTable_id_inj in E. lia.
Qed.

Lemma mapi_from_ids_nonempty now (names : list string) (k : nat) :
  Forall (fun i => i <> "") (map TableObject.id (mapi_from (newTable now) k names)).
Proof.
  revert k. induction names as [|n names IH]; intros k; simpl; constructor;
    [apply newTable_id_nonempty | apply IH].
Qed.

(** X9. The ids given at creation are pairwise distinct and never empty,
    whatever the names (repeated names included), and every reachable state
    keeps them so: a table is found by its id without ambiguity. *)
Theorem table_ids_are_unique :
  (forall now availableTables tablesLoading s,
      tablesInitialized s = false -> tablesLoading = false ->
      NoDup (map TableObject.id (tablesRef (initTables now availableTables tablesLoading s))) /\
      Forall (fun i => i <> "")
        (map TableObject.id (tablesRef (initTables now availableTables tablesLoading s)))) /\
  (forall s, reachable s ->
      NoDup (map TableObject.id (tablesRef s)) /\
      Forall (fun i => i <> "") (map TableObject.id (tablesRef s))).
Proof.
  assert (Hinit : forall now availableTables tablesLoading s,
             tablesInitialized s = false -> tablesLoading = false ->
             NoDup (map TableObject.id
                      (tablesRef (initTables now availableTables tablesLoading s))) /\
             Forall (fun i => i <> "")
               (map TableObject.id
                  (tablesRef (initTables now availableTables tablesLoading s)))).
  { intros now names loading s Hs ->. unfold initTables. rewrite Hs. cbn [negb andb].
    read_fields. split; [apply mapi_from_ids_NoDup | apply mapi_from_ids_nonempty]. }
  split; [exact Hinit|].
  apply (reachable_induction
           (fun s => NoDup (map TableObject.id (tablesRef s)) /\
                     Forall (fun i => i <> "") (map TableObject.id (tablesRef s)))).
  - split; constructor.
  - intros s e _ IH.
    assert (Hsame : map TableObject.id (tablesRef (step s e)) = map TableObject.id (tablesRef s)
                    \/ exists now names loading,
                         e = TablesEffect now names loading /\
                         tablesInitialized s = false /\ loading = false).
    { destruct e as [now w h results|now n|now names loading]; simpl.
      - left. apply renderLoop_map; intros; reflexivity.
      - left. destruct (nth_error (timers s) n) as [[due cb]|]; [|reflexivity].
        destruct (due <=? now)%Z; [|reflexivity]. now rewrite runCallback_tables.
      - destruct loading; [left; reflexivity|].
        destruct (tablesInitialized s) eqn:Hs.
        + left. unfold initTables. rewrite Hs. reflexivity.
        + right. exists now, names, false. repeat split. }
    destruct Hsame as [->|(now & names & loading & -> & Hs & ->)]; [exact IH|].
    simpl. now apply Hinit.
Qed.

(** X9 for a list that names the same table twice. *)
Lemma table_ids_are_unique_witness :
  NoDup (map TableObject.id
           (tablesRef (initTables 0 ["orders"; "orders"] false initialState))).
Proof.
  destruct table_ids_are_unique as [H _].
  apply (H 0%Z ["orders"; "orders"] false initialState eq_refl eq_refl).
Defined.

End Ids.

(** ** One drag at a time *)

Section OneDrag.
Local Open Scope float_scope.

Lemma In_updateFound p f (l : list TableObject.t) (t' : TableObject.t) :
  In t' (updateFound p f l) -> In t' l \/ exists t, In t l /\ p t = true /\ t' = f t.
Proof.
  induction l as [|u l IH]; simpl; [intros []|].
  destruct (p u) eqn:Hu; simpl.
  - intros [<-|H]; [right; exists u; repeat split; [now left | exact Hu] | left; now right].
  - intros [<-|H]; [left; now left|].
    destruct (IH H) as [H'|(t & Ht & Hp & ->)]; [left; now right|].
    right. exists t. repeat split; [now right | exact Hp].
Qed.

Lemma NoDup_map_In {A B : Type} (f : A -> B) (l : list A) (a b : A) :
  NoDup (map f l) -> In a l -> In b l -> f a = f b -> a = b.
Proof.
  induction l as [|c l IH]; simpl; [intros _ []|].
  intros Hnd Ha Hb E. apply NoDup_cons_iff in Hnd as [Hc Hnd].
  destruct Ha as [->|Ha]; destruct Hb as [->|Hb]; try reflexivity.
  - exfalso. apply Hc. rewrite E. now apply in_map.
  - exfalso. apply Hc. rewrite <- E. now apply in_map.
  - now apply IH.
Qed.

Lemma isDragged_true d t : isDragged d t = true <-> d = Some (TableObject.id t).
Proof.
  destruct d as [i|]; simpl; [|split; discriminate].
  rewrite String.eqb_eq. split; [now intros -> | now intros [= ->]].
Qed.

Lemma consistent_truthy l d b i : consistent l d b -> d = Some i -> truthy d = true.
Proof.
  intros (_ & _ & D & _) ->. simpl. destruct (String.eqb_spec i ""); [|reflexivity].
  exfalso. now apply (D i).
Qed.

Lemma consistent_continue l d f :
  (forall t, TableObject.id (f t) = TableObject.id t) ->
  (forall t, TableObject.isDragging (f t) = TableObject.isDragging t) ->
  consistent l d true -> consistent (updateFound (isDragged d) f l) d true.
Proof.
  intros Hid Hflag (C & E & D & A & B). unfold consistent.
  rewrite (map_updateFound TableObject.id _ _ _ Hid).
  repeat split; try assumption.
  intros t' Hin Ht'. apply In_updateFound in Hin as [Hin|(t & Hin & _ & ->)].
  - now apply B.
  - rewrite Hid. apply B; [exact Hin | now rewrite <- Hflag].
Qed.

Lemma consistent_release l d b :
  consistent l d b ->
  consistent (if truthy d
              then updateFound (isDragged d) (TableObject.set_isDragging false) l
              else l)
             (if truthy d then None else d) false.
Proof.
  intros H. pose proof H as (C & E & D & A & B). destruct (truthy d) eqn:Htr.
  - unfold consistent.
    rewrite (map_updateFound TableObject.id _ (TableObject.set_isDragging false) l)
      by reflexivity.
    repeat split; try assumption; try discriminate.
    intros t' Hin Ht'. exfalso.
    destruct (find (isDragged d) l) as [t|] eqn:Hfind.
    + destruct (updateFound_split _ (TableObject.set_isDragging false) _ _ Hfind)
        as (l1 & l2 & El & Hl1 & Ht & Eu).
      rewrite Eu in Hin. apply in_app_or in Hin as [Hin|[<-|Hin]].
      * assert (Hd : d = Some (TableObject.id t')).
        { apply B; [rewrite El; apply in_or_app; now left | exact Ht']. }
        apply isDragged_true in Hd. rewrite (Hl1 _ Hin) in Hd. discriminate.
      * discriminate Ht'.
      * assert (Hd : d = Some (TableObject.id t')).
        { apply B; [rewrite El; apply in_or_app; right; now right | exact Ht']. }
        apply isDragged_true in Ht. rewrite Ht in Hd. injection Hd as Hd.
        rewrite El, map_app in C. simpl in C. apply NoDup_remove_2 in C.
        apply C. apply in_or_app. right. rewrite Hd. now apply in_map.
    + rewrite (updateFound_none _ _ _ Hfind) in Hin.
      assert (Hd : d = Some (TableObject.id t')) by now apply B.
      apply isDragged_true in Hd. rewrite (find_none _ _ Hfind _ Hin) in Hd. discriminate.
  - assert (Hd : d = None).
    { destruct d as [i|]; [|reflexivity].
      rewrite (consistent_truthy _ _ _ i H eq_refl) in Htr. discriminate. }
    repeat split; try assumption. intros _. exact Hd.
Qed.

Lemma consistent_grab l1 t l2 :
  consistent (l1 ++ t :: l2) None false ->
  consistent (l1 ++ TableObject.set_isDragging true t :: l2) (Some (TableObject.id t)) true.
Proof.
  intros (C & E & D & A & B). unfold consistent.
  assert (Hmap : map TableObject.id (l1 ++ TableObject.set_isDragging true t :: l2)
                 = map TableObject.id (l1 ++ t :: l2)) by (rewrite !map_app; reflexivity).
  rewrite Hmap. repeat split; try assumption; try discriminate.
  - intros i [= <-]. rewrite Forall_forall in E. apply E, in_map, in_or_app. right. now left.
  - intros t' Hin Ht'. apply in_app_or in Hin as [Hin|[<-|Hin]]; [|reflexivity|].
    + exfalso. assert (H : None = Some (TableObject.id t'))
        by (apply B; [apply in_or_app; now left | exact Ht']). discriminate.
    + exfalso. assert (H : None = Some (TableObject.id t'))
        by (apply B; [apply in_or_app; right; now right | exact Ht']). discriminate.
Qed.

Lemma consistent_pinching l d b : consistent l d b -> consistent l d true.
Proof. intros (C & E & D & A & B). repeat split; try assumption. discriminate. Qed.

Lemma pinchStart_drag now w h px py s :
  drag_consistent s -> PinchState.isPinching (pinchStateRef s) = false ->
  drag_consistent (pinchStart now w h px py s).
Proof.
  unfold drag_consistent. intros H Hp.
  assert (Hd : draggedTableRef s = None) by (destruct H as (_ & _ & _ & A & _); now apply A).
  unfold pinchStart. destruct (onButton w h px py).
  - assert (E : forall s', tablesRef s' = tablesRef s -> draggedTableRef s' = draggedTableRef s ->
                 consistent (tablesRef (set_pinchStateRef (PinchState.mk true px py) s'))
                   (draggedTableRef (set_pinchStateRef (PinchState.mk true px py) s')) true).
    { intros s' E1 E2. read_fields. rewrite E1, E2. apply (consistent_pinching _ _ _ H). }
    read_fields. apply E; unfold_ops; split_branches; reflexivity.
  - destruct (first_hit px py (60 / Math.min w h) (tablesRef s))
      as [Hmiss|(l1 & t & l2 & El & Hl1 & Ht)].
    + rewrite (grabFirst_miss _ _ _ _ Hmiss). read_fields.
      apply (consistent_pinching _ _ _ H).
    + rewrite El, (grabFirst_hit _ _ _ _ _ _ Hl1 Ht). read_fields.
      apply consistent_grab. rewrite <- El, <- Hd, <- Hp. exact H.
Qed.

Lemma noHandsRelease_drag_fields s :
  tablesRef (noHandsRelease s) =
    (if truthy (draggedTableRef s)
     then updateFound (isDragged (draggedTableRef s)) (TableObject.set_isDragging false)
            (tablesRef s)
     else tablesRef s) /\
  draggedTableRef (noHandsRelease s) =
    (if truthy (draggedTableRef s) then None else draggedTableRef s) /\
  PinchState.isPinching (pinchStateRef (noHandsRelease s)) = false.
Proof.
  unfold noHandsRelease. read_fields. destruct (truthy (draggedTableRef s)); repeat split.
Qed.

Lemma noHandsRelease_drag s : drag_consistent s -> drag_consistent (noHandsRelease s).
Proof.
  unfold drag_consistent. intros H.
  destruct (noHandsRelease_drag_fields s) as (-> & -> & ->).
  exact (consistent_release _ _ _ H).
Qed.

Lemma pinchRelease_drag s : drag_consistent s -> drag_consistent (pinchRelease s).
Proof.
  intros H. apply noHandsRelease_drag in H. rewrite noHandsRelease_pinchRelease in H.
  exact H.
Qed.

Lemma processHand_drag now w h s landmarks :
  drag_consistent s -> drag_consistent (processHand now w h s landmarks).
Proof.
  intros H. unfold processHand.
  destruct (distance landmarks <? pinchThreshold);
    destruct (PinchState.isPinching (pinchStateRef s)) eqn:Hp; cbn [negb].
  - unfold drag_consistent in *. rewrite Hp in H.
    rewrite pinchContinue_tables. unfold pinchContinue. read_fields.
    destruct (truthy (draggedTableRef s)); read_fields; [|exact H].
    apply consistent_continue; [reflexivity | reflexivity | exact H].
  - now apply pinchStart_drag.
  - now apply pinchRelease_drag.
  - exact H.
Qed.

Lemma chartFrame_drag_fields now results s :
  draggedTableRef (chartFrame now results s) = draggedTableRef s /\
  pinchStateRef (chartFrame now results s) = pinchStateRef s.
Proof.
  unfold chartFrame. destruct results as [|landmarks rest]; [now split|].
  cbv zeta. unfold_ops. split_branches; split; reflexivity.
Qed.

Lemma mapi_from_unflagged now (names : list string) (k : nat) (t : TableObject.t) :
  In t (mapi_from (newTable now) k names) -> TableObject.isDragging t = false.
Proof.
  revert k. induction names as [|n names IH]; intros k; simpl; [intros []|].
  intros [<-|H]; [reflexivity | now apply (IH (S k))].
Qed.

Lemma step_drag s e : drag_consistent s -> drag_consistent (step s e).
Proof.
  intros H. destruct e as [now w h results|now n|now names loading]; simpl.
  - unfold renderLoop. destruct (showChart s).
    + unfold drag_consistent in *.
      destruct (chartFrame_drag_fields now results s) as [-> ->].
      now rewrite chartFrame_tables.
    + unfold dragFrame. destruct results as [|landmarks rest].
      * destruct (PinchState.isPinching (pinchStateRef s)); [|exact H].
        now apply noHandsRelease_drag.
      * generalize (landmarks :: rest). clear landmarks rest. intros hands.
        revert s H. induction hands as [|landmarks hands IH]; intros s H; [exact H|].
        cbn [fold_left]. apply IH. now apply processHand_drag.
  - destruct (nth_error (timers s) n) as [[due cb]|]; [|exact H].
    destruct (due <=? now)%Z; [|exact H]. destruct cb; exact H.
  - unfold initTables. destruct (negb loading && negb (tablesInitialized s)); [|exact H].
    destruct H as (_ & _ & D & A & _). unfold drag_consistent, consistent. read_fields.
    repeat split; try assumption.
    + apply mapi_from_ids_NoDup.
    + apply mapi_from_ids_nonempty.
    + intros t Hin Ht. apply mapi_from_unflagged in Hin. congruence.
Qed.

Lemma reachable_drag_consistent s : reachable s -> drag_consistent s.
Proof.
  revert s. apply (reachable_induction drag_consistent).
  - repeat split; try constructor; try discriminate. intros t [].
  - intros s e _. apply step_drag.
Qed.

(** X10. Only one object is dragged at a time.  In every reachable state,
    outside a pinch there is no drag target and no table is flagged as
    dragging; a flagged table is always the one whose id is the drag target;
    and two flagged tables are the same table. *)
Theorem one_drag_at_a_time :
  forall s, reachable s ->
    (PinchState.isPinching (pinchStateRef s) = false ->
     draggedTableRef s = None /\
     Forall (fun t => TableObject.isDragging t = false) (tablesRef s)) /\
    (forall t, In t (tablesRef s) -> TableObject.isDragging t = true ->
               draggedTableRef s = Some (TableObject.id t)) /\
    (forall t u, In t (tablesRef s) -> In u (tablesRef s) ->
                 TableObject.isDragging t = true -> TableObject.isDragging u = true ->
                 t = u).
Proof.
  intros s Hr. destruct (reachable_drag_consistent s Hr) as (C & E & D & A & B).
  split; [|split; [exact B|]].
  - intros Hp. split; [now apply A|]. apply Forall_forall. intros t Hin.
    destruct (TableObject.isDragging t) eqn:Ht; [|reflexivity].
    rewrite (A Hp) in B. specialize (B t Hin Ht). discriminate.
  - intros t u Ht Hu Ft Fu. apply (NoDup_map_In TableObject.id (tablesRef s)); try assumption.
    pose proof (B t Ht Ft) as E1. pose proof (B u Hu Fu) as E2. congruence.
Qed.

(** X10 while orders is carried, and after it has been dropped. *)
Lemma one_drag_at_a_time_witness :
  draggedTableRef carrying = Some "orders-0-0"%string /\
  draggedTableRef ordersDropped = None /\
  Forall (fun t => TableObject.isDragging t = false) (tablesRef ordersDropped).
Proof.
  assert (Hc : reachable carrying).
  { unfold carrying. apply reachable_run, reachable_initial. }
  assert (Hd : reachable ordersDropped).
  { apply (reachable_step carrying (Tick 166 1280 720 [openHand]) Hc). }
  destruct (one_drag_at_a_time carrying Hc) as (_ & B & _).
  destruct (one_drag_at_a_time ordersDropped Hd) as (A & _).
  split; [|apply A; vm_compute; reflexivity].
  apply (B (TableObject.mk "orders-0-0" "orders" 0.5 0.7 true));
    [vm_compute; left; reflexivity | reflexivity].
Defined.

End OneDrag.

(** ** What the catalog is asked for *)

Section Requests.
Local Open Scope float_scope.

Lemma processHand_requests now w h s landmarks :
  requests (processHand now w h s landmarks) = requests s \/
  (droppedTablesRef s <> [] /\
   requests (processHand now w h s landmarks) = requests s ++ [droppedTablesRef s]).
Proof.
  unfold processHand. unfold_ops. split_branches; read_fields;
    try (left; reflexivity).
  right. split; [|reflexivity].
  intros E.
  match goal with
  | H : (_ =? 0)%nat = false |- _ => cbn in H; rewrite E in H; discriminate H
  end.
Qed.

Lemma processHand_dropped now w h s landmarks :
  droppedTablesRef (processHand now w h s landmarks) = droppedTablesRef s \/
  exists t, In t (tablesRef s) /\
            droppedTablesRef (processHand now w h s landmarks)
            = droppedTablesRef s ++ [TableObject.name t].
Proof.
  unfold processHand.
  destruct (distance landmarks <? pinchThreshold).
  - left. unfold_ops. split_branches; reflexivity.
  - destruct (PinchState.isPinching (pinchStateRef s)); [|left; reflexivity].
    rewrite pinchRelease_dropped.
    destruct (truthy (draggedTableRef s)); [|left; reflexivity].
    destruct (find (isDragged (draggedTableRef s)) (tablesRef s)) as [t|] eqn:Hfind;
      [|left; reflexivity].
    destruct (inDropZone (TableObject.x t) (TableObject.y t)
              && negb (includes (droppedTablesRef s) (TableObject.name t)));
      [|left; reflexivity].
    right. exists t. split; [apply (find_some _ _ Hfind) | reflexivity].
Qed.

Lemma processHand_initialized now w h s landmarks :
  tablesInitialized (processHand now w h s landmarks) = tablesInitialized s.
Proof. unfold processHand. unfold_ops. split_branches; reflexivity. Qed.

Lemma processHand_names now w h s landmarks :
  names_known s -> names_known (processHand now w h s landmarks).
Proof.
  intros (Hinit & Hnd & Hincl & Hreq). unfold names_known.
  rewrite processHand_initialized.
  rewrite (processHand_map TableObject.name now w h s landmarks)
    by (first [reflexivity | left; reflexivity]).
  split; [|split; [apply (processHand_keeps_set now w h s landmarks Hnd)|split]].
  - intros Hi. specialize (Hinit Hi).
    apply (f_equal (map TableObject.name)) in Hinit.
    rewrite <- (processHand_map TableObject.name now w h s landmarks) in Hinit
      by (first [reflexivity | left; reflexivity]).
    now apply map_eq_nil in Hinit.
  - destruct (processHand_dropped now w h s landmarks) as [->|(t & Hin & ->)];
      [exact Hincl|].
    apply incl_app; [exact Hincl|]. intros n [<-|[]]. now apply in_map.
  - destruct (processHand_requests now w h s landmarks) as [->|(Hne & ->)];
      [exact Hreq|].
    apply Forall_app. split; [exact Hreq|]. constructor; [|constructor].
    repeat split; assumption.
Qed.

Lemma step_names s e : names_known s -> names_known (step s e).
Proof.
  intros H. destruct e as [now w h results|now n|now names loading]; simpl.
  - unfold renderLoop. destruct (showChart s).
    + destruct H as (Hinit & Hnd & Hincl & Hreq).
      assert (E : tablesInitialized (chartFrame now results s) = tablesInitialized s /\
                  droppedTablesRef (chartFrame now results s) = droppedTablesRef s /\
                  requests (chartFrame now results s) = requests s).
      { unfold chartFrame. destruct results as [|landmarks rest]; [repeat split|].
        cbv zeta. unfold_ops. split_branches; repeat split. }
      destruct E as (E1 & E2 & E3). unfold names_known.
      rewrite E1, E2, E3, chartFrame_tables. repeat split; assumption.
    + unfold dragFrame. destruct results as [|landmarks rest].
      * destruct (PinchState.isPinching (pinchStateRef s)); [|exact H].
        destruct H as (Hinit & Hnd & Hincl & Hreq). unfold names_known.
        rewrite (noHandsRelease_map TableObject.name s) by reflexivity.
        assert (E : tablesInitialized (noHandsRelease s) = tablesInitialized s /\
                    droppedTablesRef (noHandsRelease s) = droppedTablesRef s /\
                    requests (noHandsRelease s) = requests s).
        { unfold_ops. split_branches; repeat split. }
        destruct E as (E1 & E2 & E3). rewrite E1, E2, E3.
        repeat split; try assumption.
        intros Hi. specialize (Hinit Hi). apply (f_equal (map TableObject.name)) in Hinit.
        rewrite <- (noHandsRelease_map TableObject.name s) in Hinit by reflexivity.
        now apply map_eq_nil in Hinit.
      * generalize (landmarks :: rest). clear landmarks rest. intros hands.
        revert s H. induction hands as [|landmarks hands IH]; intros s H; [exact H|].
        cbn [fold_left]. apply IH. now apply processHand_names.
  - destruct (nth_error (timers s) n) as [[due cb]|]; [|exact H].
    destruct (due <=? now)%Z; [|exact H].
    destruct H as (Hinit & Hnd & Hincl & Hreq).
    destruct cb; unfold names_known; simpl; repeat split; try assumption;
      first [constructor | intros a []].
  - unfold initTables.
    destruct (negb loading && negb (tablesInitialized s)) eqn:Hgo; [|exact H].
    apply andb_prop in Hgo as [_ Hs]. apply negb_true_iff in Hs.
    destruct H as (Hinit & Hnd & Hincl & Hreq). specialize (Hinit Hs).
    rewrite Hinit in Hincl, Hreq. simpl in Hincl, Hreq.
    unfold names_known. read_fields.
    repeat split; try assumption; try discriminate.
    + intros n Hn. destruct (Hincl n Hn).
    + apply Forall_forall. intros r Hr. rewrite Forall_forall in Hreq.
      destruct (Hreq r Hr) as (Hne & _ & Hr0). exfalso. apply Hne.
      destruct r as [|n r]; [reflexivity|]. destruct (Hr0 n (or_introl eq_refl)).
Qed.

Lemma reachable_names_known s : reachable s -> names_known s.
Proof.
  revert s. apply (reachable_induction names_known).
  - repeat split; try constructor. intros n [].
  - intros s e _. apply step_names.
Qed.

(** X12. The catalog is only ever asked for tables that exist.  In every
    reachable state each name in DroppedSet is the name of a table object,
    and every request issued so far asks for at least one table, for no
    table twice, and only for names of table objects; before the table list
    is initialised there is no table at all. *)
Theorem requests_name_existing_tables :
  forall s, reachable s ->
    (tablesInitialized s = false -> tablesRef s = []) /\
    (forall n, In n (droppedTablesRef s) ->
               exists t, In t (tablesRef s) /\ TableObject.name t = n) /\
    (forall r, In r (requests s) ->
               r <> [] /\ NoDup r /\
               forall n, In n r -> exists t, In t (tablesRef s) /\ TableObject.name t = n).
Proof.
  intros s Hr. destruct (reachable_names_known s Hr) as (Hinit & _ & Hincl & Hreq).
  split; [exact Hinit|]. split.
  - intros n Hn. apply Hincl, in_map_iff in Hn as (t & E & Ht). now exists t.
  - intros r Hin. rewrite Forall_forall in Hreq. destruct (Hreq r Hin) as (Hne & Hnd & Hr0).
    repeat split; try assumption.
    intros n Hn. apply Hr0, in_map_iff in Hn as (t & E & Ht). now exists t.
Qed.

(** X12 once the chart has been requested for orders. *)
Lemma requests_name_existing_tables_witness :
  requests chartEntering = [["orders"%string]] /\
  exists t, In t (tablesRef chartEntering) /\ TableObject.name t = "orders"%string.
Proof.
  split; [vm_compute; reflexivity|].
  assert (Hr : reachable chartEntering).
  { unfold chartEntering, carrying. do 2 apply reachable_run. apply reachable_initial. }
  destruct (requests_name_existing_tables chartEntering Hr) as (_ & _ & H).
  destruct (H ["orders"%string]) as (_ & _ & Hn); [vm_compute; left; reflexivity|].
  apply Hn. left. reflexivity.
Defined.

End Requests.

(** ** The frame rate cap *)

Section Cap.
Local Open Scope float_scope.

Lemma last_cons_default {A : Type} (a : A) (l : list A) (d d' : A) :
  List.last (a :: l) d = List.last (a :: l) d'.
Proof.
  revert a. induction l as [|b l IH]; intros a; [reflexivity|].
  change (List.last (b :: l) d = List.last (b :: l) d'). apply IH.
Qed.

Lemma loopRun_passes (shown : bool) (steps : list LoopStep) (last : float) (s : State) :
  loopRun shown steps (last, s) =
  (List.last (map currentTime (passes last (ownFrames steps))) last,
   fold_left (fun s' g => g s') (effects shown last steps) s).
Proof.
  revert last s. induction steps as [|x steps IH]; intros last s; [reflexivity|].
  unfold loopRun in *. destruct x as [f|g].
  - cbn [fold_left loopStep animationFrame ownFrames passes effects].
    destruct (currentTime f - last <? frameInterval); [apply IH|].
    rewrite IH. cbn [map fold_left]. f_equal.
    destruct (map currentTime (passes (currentTime f) (ownFrames steps))) as [|t stamps];
      [reflexivity|].
    change (List.last (t :: stamps) (currentTime f) = List.last (t :: stamps) last).
    apply last_cons_default.
  - cbn [fold_left loopStep ownFrames effects fst snd]. apply IH.
Qed.

Lemma passes_spaced (frames : list Frame) (last : float) :
  spaced last (map currentTime (passes last frames)).
Proof.
  revert last. induction frames as [|f frames IH]; intros last; simpl; [exact I|].
  destruct (currentTime f - last <? frameInterval) eqn:Hguard; [apply IH|].
  simpl. split; [exact Hguard | apply IH].
Qed.

Lemma In_ownFrames (steps : list LoopStep) (f : Frame) :
  In f (ownFrames steps) -> In (Own f) steps.
Proof.
  induction steps as [|x steps IH]; [intros []|].
  destruct x as [f'|g]; cbn [ownFrames].
  - intros [->|H]; [now left | right; now apply IH].
  - intros H. right. now apply IH.
Qed.

Lemma In_passes (frames : list Frame) (last : float) (f : Frame) :
  In f (passes last frames) -> In f frames.
Proof.
  revert last. induction frames as [|g frames IH]; intros last; simpl; [intros []|].
  destruct (currentTime g - last <? frameInterval).
  - intros H. right. now apply (IH last).
  - intros [<-|H]; [now left | right; now apply (IH (currentTime g))].
Qed.

(** X13. Each render loop is capped by its own guard.  [lastFrameTime] is a
    local of the run of the effect that created the loop, so nothing that
    happens in between changes it: of the callbacks of one loop, interleaved
    with whatever else writes the state, only a subsequence runs a tick, each
    of them not less than 1000/30 ms (by the loop's own test) after the one
    before; [lastFrameTime] ends as the timestamp of the last of them, the
    state is the state after exactly these ticks and what happened in
    between, and a callback that comes too early changes nothing.  The cap
    does not bind two loops together: a loop just created, its
    [lastFrameTime] at 0, runs a tick at its first callback whose timestamp
    passes the test against 0, however recently another loop has run one. *)
Theorem render_loop_is_capped :
  forall shown steps last s,
    fst (loopRun shown steps (last, s))
      = List.last (map currentTime (passes last (ownFrames steps))) last /\
    spaced last (map currentTime (passes last (ownFrames steps))) /\
    snd (loopRun shown steps (last, s))
      = fold_left (fun s' g => g s') (effects shown last steps) s /\
    (forall f, In f (passes last (ownFrames steps)) -> In (Own f) steps) /\
    (forall f rest, (currentTime f - last <? frameInterval) = true ->
                    loopRun shown (Own f :: rest) (last, s) = loopRun shown rest (last, s)) /\
    (forall f, (currentTime f - 0 <? frameInterval) = false ->
               animationFrame shown (0, s) f
               = (currentTime f,
                  loopTick shown (frameNow f) (innerWidth f) (innerHeight f)
                    (handResults f) s)).
Proof.
  intros shown steps last s. rewrite loopRun_passes.
  split; [reflexivity|]. split; [apply passes_spaced|]. split; [reflexivity|].
  split; [|split].
  - intros f H. apply In_ownFrames. exact (In_passes _ _ _ H).
  - intros f rest Hguard. unfold loopRun. cbn [fold_left loopStep animationFrame].
    now rewrite Hguard.
  - intros f Hguard. cbn [animationFrame]. now rewrite Hguard.
Qed.

(** Callbacks of one loop at 16, 32 and 48 ms after its tick at 0, the
    toast expiring meanwhile: only the callback at 48 ms runs a tick. *)
Example cap_at_60_hz :
  map currentTime (passes 0 (ownFrames threeCallbacks)) = [48] /\
  fst (loopRun false threeCallbacks (0, latched)) = 48 /\
  toast latched <> None /\
  toast (snd (loopRun false threeCallbacks (0, latched))) = None.
Proof.
  split; [vm_compute; reflexivity|]. split; [vm_compute; reflexivity|].
  split; [discriminate | vm_compute; reflexivity].
Qed.

(** Two loops are not capped together.  A loop ticks at 1000 ms; the tick
    raises the toast, the effect runs again and its new loop, 16 ms later,
    ticks at once, where the first loop would have waited.  The call
    [renderLoop(0)] that starts a loop never runs a tick. *)
Example cap_is_per_loop :
  let first := mkFrame 1000 1000 1280 720 [pinchAt 0.7 0.7] in
  let second := mkFrame 1016 1016 1280 720 [pinchAt 0.7 0.7] in
  let s := snd (animationFrame false (0, initialState) first) in
  fst (animationFrame false (0, initialState) first) = 1000 /\
  toast initialState = None /\
  toast s = Some ("Please drop at least one table into the drop zone"%string, error) /\
  fst (animationFrame false (0, s) second) = 1016 /\
  animationFrame false (1000, s) second = (1000, s) /\
  animationFrame false (0, s) (mkFrame 0 1017 1280 720 []) = (0, s).
Proof. by_evaluation. Qed.

End Cap.

(** ** The basic variant *)

Section BasicVariant.
Local Open Scope float_scope.

Lemma basic_of_pinchRelease s :
  basic_of (pinchRelease s) = Basic.pinchRelease (basic_of s).
Proof.
  unfold pinchRelease, Basic.pinchRelease, basic_of. read_fields.
  cbn [Basic.tablesRef Basic.draggedTableRef Basic.pinchStateRef].
  destruct (truthy (draggedTableRef s)); [|reflexivity].
  destruct (find (isDragged (draggedTableRef s)) (tablesRef s)) as [t|] eqn:Hfind.
  - split_branches; reflexivity.
  - read_fields. now rewrite (updateFound_none _ _ _ Hfind).
Qed.

(** X14. The drop zone, the button and the chart extend the basic variant
    without changing its drag manager, as far as the canvases agree.  The
    richer variant sizes its canvas to the window and the basic one to the
    video; when the two have the same smaller side, the manipulation branch
    of the richer variant computes, for every hand that does not start a
    pinch on the generate button and for a frame without hands, the same
    tables, drag target and pinch state as the basic variant.  In the basic
    variant itself, losing the hand during a pinch gives exactly the state
    of a measured release. *)
Theorem richer_variant_refines_basic :
  forall w h videoWidth videoHeight,
    Math.min w h = Math.min videoWidth videoHeight ->
    (forall now s landmarks,
        PinchState.isPinching (pinchStateRef s) = true \/
        (distance landmarks <? pinchThreshold) = false \/
        onButton w h (pinchX landmarks) (pinchY landmarks) = false ->
        basic_of (processHand now w h s landmarks)
        = Basic.processHand videoWidth videoHeight (basic_of s) landmarks) /\
    (forall s, basic_of (noHandsRelease s) = Basic.noHandsRelease (basic_of s)) /\
    (forall s landmarks,
        PinchState.isPinching (Basic.pinchStateRef s) = true ->
        (distance landmarks <? pinchThreshold) = false ->
        Basic.renderLoop videoWidth videoHeight [] s
        = Basic.renderLoop videoWidth videoHeight [landmarks] s).
Proof.
  intros w h videoWidth videoHeight Hmin. split; [|split].
  - intros now s landmarks Hcase.
    unfold processHand, Basic.processHand.
    cbn [basic_of Basic.pinchStateRef].
    destruct (distance landmarks <? pinchThreshold) eqn:Hd;
      destruct (PinchState.isPinching (pinchStateRef s)) eqn:Hp; cbn [negb].
    + unfold pinchContinue, Basic.pinchContinue, basic_of.
      cbn [Basic.tablesRef Basic.draggedTableRef Basic.pinchStateRef].
      destruct (truthy (draggedTableRef s)); reflexivity.
    + destruct Hcase as [H|[H|Hb]]; try discriminate.
      unfold pinchStart, Basic.pinchStart, basic_of. rewrite Hb, <- Hmin.
      cbn [Basic.tablesRef Basic.draggedTableRef Basic.pinchStateRef].
      destruct (grabFirst (pinchX landmarks) (pinchY landmarks) (60 / Math.min w h)
                  (tablesRef s)) as [[i|] tables']; reflexivity.
    + apply basic_of_pinchRelease.
    + reflexivity.
  - intros s. unfold noHandsRelease, Basic.noHandsRelease, basic_of. read_fields.
    cbn [Basic.tablesRef Basic.draggedTableRef Basic.pinchStateRef].
    destruct (truthy (draggedTableRef s)); reflexivity.
  - intros s landmarks Hp Hd. unfold Basic.renderLoop. cbn [fold_left].
    unfold Basic.processHand. rewrite Hd, Hp.
    unfold Basic.noHandsRelease, Basic.pinchRelease.
    destruct (truthy (Basic.draggedTableRef s)); reflexivity.
Qed.

(** A 1920 x 720 window over a 1280 x 720 video: a pinch at orders grabs it
    in both variants. *)
Lemma richer_variant_refines_basic_witness :
  Math.min 1920 720 = Math.min 1280 720 /\
  onButton 1920 720 (pinchX (pinchAt 0.1 0.1)) (pinchY (pinchAt 0.1 0.1)) = false /\
  basic_of (processHand 100 1920 720 ordersCreated (pinchAt 0.1 0.1))
  = Basic.processHand 1280 720 (basic_of ordersCreated) (pinchAt 0.1 0.1) /\
  Basic.draggedTableRef (Basic.processHand 1280 720 (basic_of ordersCreated) (pinchAt 0.1 0.1))
  = Some "orders-0-0"%string.
Proof.
  split; [vm_compute; reflexivity|]. split; [vm_compute; reflexivity|]. split.
  - apply (proj1 (richer_variant_refines_basic 1920 720 1280 720 eq_refl)).
    right. right. vm_compute. reflexivity.
  - vm_compute. reflexivity.
Defined.

(** With different smaller sides the two variants part: a pinch 0.07 away
    from orders grabs it on the 1280 x 720 video canvas and misses it on a
    1920 x 1080 window canvas. *)
Example canvas_size_matters :
  onButton 1920 1080 (pinchX (pinchAt 0.17 0.1)) (pinchY (pinchAt 0.17 0.1)) = false /\
  draggedTableRef (processHand 100 1920 1080 ordersCreated (pinchAt 0.17 0.1)) = None /\
  Basic.draggedTableRef (Basic.processHand 1280 720 (basic_of ordersCreated) (pinchAt 0.17 0.1))
  = Some "orders-0-0"%string.
Proof. by_evaluation. Qed.

End BasicVariant.

(** ** String methods *)

Section StringMethods.
Local Open Scope string_scope.

Lemma append_nil_r (s : string) : s ++ "" = s.
Proof. induction s as [|c s IH]; simpl; [reflexivity | now rewrite IH]. Qed.

Lemma length_append (a b : string) :
  String.length (a ++ b) = (String.length a + String.length b)%nat.
Proof. induction a as [|c a IH]; simpl; [reflexivity | now rewrite IH]. Qed.

Lemma prefix_iff (p s : string) : prefix p s = true <-> exists b, s = p ++ b.
Proof.
  revert s. induction p as [|c p IH]; intros s.
  - split; [intros _; now exists s | intros _; now destruct s].
  - destruct s as [|d s]; simpl.
    + split; [discriminate | intros [b E]; discriminate].
    + destruct (ascii_dec c d) as [->|Hcd].
      * rewrite IH. split; intros [b E]; exists b; [now rewrite E | now injection E].
      * split; [discriminate | intros [b E]; injection E as E _; congruence].
Qed.

Lemma includes_iff (s sub : string) :
  JSString.includes s sub = true <-> exists a b, s = a ++ sub ++ b.
Proof.
  induction s as [|c s IH]; cbn [JSString.includes].
  - rewrite orb_false_r, prefix_iff. split.
    + intros [b E]. now exists "", b.
    + intros (a & b & E). destruct a; [now exists b | discriminate].
  - rewrite orb_true_iff, IH, prefix_iff. split.
    + intros [[b E]|(a & b & E)]; [now exists "", b | exists (String c a), b; now rewrite E].
    + intros (a & b & E). destruct a as [|d a]; [left; now exists b|].
      right. injection E as _ E. now exists a, b.
Qed.

Lemma endsWith_iff (s suf : string) :
  JSString.endsWith s suf = true <-> exists a, s = a ++ suf.
Proof.
  induction s as [|c s IH]; cbn [JSString.endsWith].
  - rewrite orb_false_r, String.eqb_eq. split.
    + intros <-. now exists "".
    + intros [a E]. destruct a; [exact E | discriminate].
  - rewrite orb_true_iff, IH, String.eqb_eq. split.
    + intros [E|[a E]]; [now exists "" | exists (String c a); now rewrite E].
    + intros [a E]. destruct a as [|d a]; [left; exact E|].
      right. injection E as _ E. now exists a.
Qed.

Lemma substring_prefix (a b : string) : substring 0 (String.length a) (a ++ b) = a.
Proof.
  induction a as [|c a IH]; simpl; [now destruct b | now rewrite IH].
Qed.

Lemma dropLast_append (a suf : string) :
  JSString.dropLast (String.length suf) (a ++ suf) = a.
Proof.
  unfold JSString.dropLast. rewrite length_append.
  replace (String.length a + String.length suf - String.length suf)%nat
    with (String.length a) by lia.
  apply substring_prefix.
Qed.

Lemma append_inj_r (a b suf : string) : a ++ suf = b ++ suf -> a = b.
Proof.
  intros E. rewrite <- (dropLast_append a suf), <- (dropLast_append b suf). now rewrite E.
Qed.

End StringMethods.

(** ** Foreign keys *)

Section ForeignKeyFacts.
Local Open Scope string_scope.

Variable toLowerCase : string -> string.

(** When a column is marked as a foreign key, and to what. *)
Lemma detectForeignKey_iff (tableName : string) (col : Column.raw) (r : string) :
  Column.foreignKey (detectForeignKey toLowerCase tableName col) = Some r <->
  r <> "" /\ r <> toLowerCase tableName /\
  (toLowerCase (Column.column_name col) = r ++ "_id" \/
   (toLowerCase (Column.column_name col) = r ++ "id" /\
    JSString.endsWith (toLowerCase (Column.column_name col)) "_id" = false)).
Proof.
  unfold detectForeignKey. cbn [Column.foreignKey].
  set (c := toLowerCase (Column.column_name col)).
  assert (Hpick : forall t,
             (if JSString.nonEmpty t && negb (t =? toLowerCase tableName)
              then Some t else None) = Some r <->
             t = r /\ r <> "" /\ r <> toLowerCase tableName).
  { intros t. unfold JSString.nonEmpty.
    destruct (String.eqb_spec t ""); destruct (String.eqb_spec t (toLowerCase tableName));
      cbn [negb andb]; split; try discriminate.
    - intros (-> & H & _). contradiction.
    - intros (-> & H & _). contradiction.
    - intros (-> & _ & H). contradiction.
    - intros [= ->]. repeat split; assumption.
    - intros (-> & _). reflexivity. }
  assert (Hd3 : forall a, JSString.dropLast 3 (a ++ "_id") = a)
    by (intros a; apply (dropLast_append a "_id")).
  assert (Hd2 : forall a, JSString.dropLast 2 (a ++ "id") = a)
    by (intros a; apply (dropLast_append a "id")).
  destruct (JSString.endsWith c "_id") eqn:H3.
  - cbn [orb]. rewrite Hpick. apply endsWith_iff in H3 as [a Ea].
    rewrite Ea, Hd3. split.
    + intros (-> & H1 & H2). repeat split; try assumption. now left.
    + intros (H1 & H2 & [E|[_ E]]); [|discriminate].
      apply append_inj_r in E. subst. repeat split; assumption.
  - cbn [orb]. destruct (JSString.endsWith c "id") eqn:H2.
    + apply endsWith_iff in H2 as [a Ea].
      destruct (String.eqb_spec c "id") as [Eid|Nid]; cbn [negb andb].
      * rewrite Hpick. split; [intros (<- & H & _); contradiction|].
        intros (H1 & _ & [E|[E _]]).
        -- rewrite E in H3. assert (JSString.endsWith (r ++ "_id") "_id" = true)
             by (apply endsWith_iff; now exists r). congruence.
        -- rewrite Eid in E. destruct r; [contradiction|].
           apply (f_equal String.length) in E. simpl in E.
           rewrite length_append in E. simpl in E. lia.
      * rewrite Hpick, Ea, Hd2. split.
        -- intros (-> & H1 & H2). repeat split; try assumption. right. now split.
        -- intros (H1 & H2 & [E|[E _]]).
           ++ rewrite Ea in H3. rewrite E in H3.
              assert (JSString.endsWith (r ++ "_id") "_id" = true)
                by (apply endsWith_iff; now exists r). congruence.
           ++ apply append_inj_r in E. subst. repeat split; assumption.
    + split; [discriminate|].
      intros (_ & _ & [E|[E _]]).
      * assert (JSString.endsWith c "_id" = true)
          by (apply endsWith_iff; now exists r). congruence.
      * assert (JSString.endsWith c "id" = true)
          by (apply endsWith_iff; now exists r). congruence.
Qed.

(** X15. [detectForeignKeys] keeps the columns, their order, names and types,
    and marks a column as a foreign key to [r] exactly when its lower-cased
    name is [r] followed by "_id", or by "id" (without ending in "_id"),
    with [r] not empty and different from the lower-cased name of the table
    itself.  So the columns "id" and "_id" are never foreign keys, and neither
    is a reference of a table to its own name. *)
Theorem foreign_key_detected_iff :
  forall tableName columns,
    map Column.name (detectForeignKeys toLowerCase tableName columns)
      = map Column.column_name columns /\
    map Column.type (detectForeignKeys toLowerCase tableName columns)
      = map Column.data_type columns /\
    (forall col r,
        Column.foreignKey (detectForeignKey toLowerCase tableName col) = Some r <->
        r <> "" /\ r <> toLowerCase tableName /\
        (toLowerCase (Column.column_name col) = r ++ "_id" \/
         (toLowerCase (Column.column_name col) = r ++ "id" /\
          JSString.endsWith (toLowerCase (Column.column_name col)) "_id" = false))) /\
    (forall col,
        toLowerCase (Column.column_name col) = "id" \/
        toLowerCase (Column.column_name col) = "_id" ->
        Column.foreignKey (detectForeignKey toLowerCase tableName col) = None).
Proof.
  intros tableName columns.
  pose proof (detectForeignKey_iff tableName) as Hiff.
  split; [|split; [|split; [exact Hiff|]]].
  - unfold detectForeignKeys. rewrite map_map. reflexivity.
  - unfold detectForeignKeys. rewrite map_map. reflexivity.
  - intros col Hc.
    destruct (Column.foreignKey (detectForeignKey toLowerCase tableName col)) as [r|] eqn:E;
      [|reflexivity].
    exfalso. apply Hiff in E as (Hr & _ & Hcase).
    destruct Hc as [Hc|Hc]; rewrite Hc in Hcase; destruct Hcase as [E|[E Hends]];
      try discriminate Hends;
      apply (f_equal String.length) in E; rewrite length_append in E; simpl in E;
      destruct r; try contradiction; simpl in E; lia.
Qed.

End ForeignKeyFacts.

Section RelationshipFacts.
Local Open Scope string_scope.

Variable toLowerCase : string -> string.

(** Which relationships [findTableRelationships] reports. *)
Lemma In_findTableRelationships :
  forall schemas r,
    In r (findTableRelationships toLowerCase schemas) <->
    exists schema column fk target,
      In schema schemas /\ In column (TableSchema.columns schema) /\
      Column.foreignKey column = Some fk /\ fk <> "" /\
      find (referenced toLowerCase fk) schemas = Some target /\
      r = TableRelationship.mk (TableSchema.name schema) (TableSchema.name target)
            (Column.name column) (TableSchema.name schema) (TableSchema.name target).
Proof.
  intros schemas r. unfold findTableRelationships. rewrite in_flat_map. split.
  - intros (schema & Hs & Hr). apply in_flat_map in Hr as (column & Hc & Hr).
    unfold columnRelationships in Hr.
    destruct (Column.foreignKey column) as [fk|] eqn:Hfk; [|destruct Hr].
    unfold JSString.nonEmpty in Hr.
    destruct (String.eqb_spec fk "") as [|Hne]; cbn [negb] in Hr; [destruct Hr|].
    destruct (find (referenced toLowerCase fk) schemas) as [target|] eqn:Hfind;
      [|destruct Hr].
    destruct Hr as [<-|[]]. exists schema, column, fk, target. repeat split; assumption.
  - intros (schema & column & fk & target & Hs & Hc & Hfk & Hne & Hfind & ->).
    exists schema. split; [exact Hs|]. apply in_flat_map. exists column. split; [exact Hc|].
    unfold columnRelationships, JSString.nonEmpty. rewrite Hfk.
    destruct (String.eqb_spec fk ""); [contradiction|]. cbn [negb].
    rewrite Hfind. now left.
Qed.

Lemma In_sampledSchemas samples schema :
  In schema (sampledSchemas toLowerCase samples) <->
  exists tableName columns,
    In (tableName, Some columns) samples /\
    schema = TableSchema.mk tableName (detectForeignKeys toLowerCase tableName columns).
Proof.
  unfold sampledSchemas. rewrite in_flat_map. split.
  - intros ([tableName sample] & Hin & H). cbn [fst snd] in H.
    destruct sample as [columns|]; [|destruct H]. destruct H as [<-|[]].
    exists tableName, columns. split; [exact Hin | reflexivity].
  - intros (tableName & columns & Hin & ->). exists (tableName, Some columns).
    split; [exact Hin | now left].
Qed.

(** The first schema that matches a key matches it in one of three ways. *)
Lemma referenced_forms fk schemas target :
  find (referenced toLowerCase fk) schemas = Some target ->
  In target schemas /\
  (toLowerCase (TableSchema.name target) = toLowerCase fk \/
   toLowerCase (TableSchema.name target) = toLowerCase fk ++ "s" \/
   toLowerCase (TableSchema.name target) = JSString.dropLast 1 (toLowerCase fk)).
Proof.
  intros H. apply find_some in H as [Hin H]. split; [exact Hin|].
  unfold referenced in H.
  apply orb_prop in H as [H|H]; [apply orb_prop in H as [H|H]|];
    apply String.eqb_eq in H; auto.
Qed.

Lemma length_flat_map_le {A B : Type} (f : A -> list B) (l : list A) :
  (forall a, List.length (f a) <= 1)%nat ->
  (List.length (flat_map f l) <= List.length l)%nat.
Proof.
  intros Hf. induction l as [|a l IH]; [reflexivity|].
  cbn [flat_map]. rewrite length_app. specialize (Hf a). simpl. lia.
Qed.

Lemma list_sum_cons (a : nat) (l : list nat) : list_sum (a :: l) = (a + list_sum l)%nat.
Proof. reflexivity. Qed.

Lemma length_findTableRelationships schemas :
  (List.length (findTableRelationships toLowerCase schemas)
   <= list_sum (map (fun schema => List.length (TableSchema.columns schema)) schemas))%nat.
Proof.
  unfold findTableRelationships. generalize schemas at 1. intros all.
  induction schemas as [|schema schemas IH]; [reflexivity|].
  cbn [flat_map map]. rewrite length_app, list_sum_cons.
  assert (H : (List.length (flat_map (columnRelationships toLowerCase all schema)
                              (TableSchema.columns schema))
               <= List.length (TableSchema.columns schema))%nat).
  { apply length_flat_map_le. intros column. unfold columnRelationships.
    destruct (Column.foreignKey column) as [fk|]; [|simpl; lia].
    destruct (JSString.nonEmpty fk); [|simpl; lia].
    destruct (find (referenced toLowerCase fk) all); simpl; lia. }
  lia.
Qed.

Lemma columns_sampledSchemas samples :
  list_sum (map (fun schema => List.length (TableSchema.columns schema))
              (sampledSchemas toLowerCase samples))
  = columnCount samples.
Proof.
  unfold sampledSchemas, columnCount.
  induction samples as [|[tableName sample] samples IH]; [reflexivity|].
  cbn [flat_map map fst snd]. rewrite map_app, list_sum_app, list_sum_cons, IH.
  destruct sample as [columns|]; [|reflexivity].
  cbn [map TableSchema.columns]. rewrite list_sum_cons. unfold detectForeignKeys.
  rewrite length_map. cbn [list_sum fold_right]. lia.
Qed.

(** X16. The relationships [fetchTables] publishes, read off the column
    names of the sampled tables whose foreign keys end in an ASCII
    character.  A relationship is published exactly for a column of a
    sampled table whose lower-cased name is a key [k] followed by "_id", or
    by "id" without ending in "_id", with [k] not empty and not the
    lower-cased name of the column's own table, when some sampled table
    matches [k]; it runs from the column's table to the first sampled table
    that matches.  The lower-cased name of the referenced table is the key,
    its plural in "s", or the key without its last character; [table1] and
    [table2] repeat the two tables; a column gives at most one relationship,
    and a table that could not be sampled is neither end of one. *)
Theorem relationships_of_sampled_tables :
  forall samples,
    asciiKeys toLowerCase (sampledSchemas toLowerCase samples) = true ->
    (forall r,
        In r (fetchedRelationships toLowerCase samples) <->
        exists tableName columns col k target,
          In (tableName, Some columns) samples /\ In col columns /\
          k <> "" /\ k <> toLowerCase tableName /\
          (toLowerCase (Column.column_name col) = k ++ "_id" \/
           (toLowerCase (Column.column_name col) = k ++ "id" /\
            JSString.endsWith (toLowerCase (Column.column_name col)) "_id" = false)) /\
          find (referenced toLowerCase k) (sampledSchemas toLowerCase samples)
            = Some target /\
          r = TableRelationship.mk tableName (TableSchema.name target)
                (Column.column_name col) tableName (TableSchema.name target)) /\
    (forall r,
        In r (fetchedRelationships toLowerCase samples) ->
        TableRelationship.table1 r = TableRelationship.referencingTable r /\
        TableRelationship.table2 r = TableRelationship.referencedTable r /\
        (exists columns,
            In (TableRelationship.referencingTable r, Some columns) samples /\
            In (TableRelationship.foreignKey r) (map Column.column_name columns)) /\
        (exists columns, In (TableRelationship.referencedTable r, Some columns) samples) /\
        exists k,
          (toLowerCase (TableRelationship.foreignKey r) = k ++ "_id" \/
           toLowerCase (TableRelationship.foreignKey r) = k ++ "id") /\
          (toLowerCase (TableRelationship.referencedTable r) = toLowerCase k \/
           toLowerCase (TableRelationship.referencedTable r) = toLowerCase k ++ "s" \/
           toLowerCase (TableRelationship.referencedTable r)
           = JSString.dropLast 1 (toLowerCase k))) /\
    (List.length (fetchedRelationships toLowerCase samples) <= columnCount samples)%nat.
Proof.
  intros samples _.
  assert (Hiff : forall r,
             In r (fetchedRelationships toLowerCase samples) <->
             exists tableName columns col k target,
               In (tableName, Some columns) samples /\ In col columns /\
               k <> "" /\ k <> toLowerCase tableName /\
               (toLowerCase (Column.column_name col) = k ++ "_id" \/
                (toLowerCase (Column.column_name col) = k ++ "id" /\
                 JSString.endsWith (toLowerCase (Column.column_name col)) "_id" = false)) /\
               find (referenced toLowerCase k) (sampledSchemas toLowerCase samples)
                 = Some target /\
               r = TableRelationship.mk tableName (TableSchema.name target)
                     (Column.column_name col) tableName (TableSchema.name target)).
  { intros r. unfold fetchedRelationships. rewrite In_findTableRelationships. split.
    - intros (schema & column & fk & target & Hs & Hc & Hfk & Hne & Hfind & ->).
      apply In_sampledSchemas in Hs as (tableName & columns & Hin & ->).
      cbn [TableSchema.columns TableSchema.name] in *.
      unfold detectForeignKeys in Hc. apply in_map_iff in Hc as (col & <- & Hcol).
      apply detectForeignKey_iff in Hfk as (_ & Hself & Hcase).
      exists tableName, columns, col, fk, target. repeat split; assumption.
    - intros (tableName & columns & col & k & target & Hin & Hcol & Hne & Hself & Hcase
              & Hfind & ->).
      exists (TableSchema.mk tableName (detectForeignKeys toLowerCase tableName columns)),
        (detectForeignKey toLowerCase tableName col), k, target.
      split; [apply In_sampledSchemas; now exists tableName, columns|].
      split; [now apply in_map|].
      split; [apply detectForeignKey_iff; repeat split; assumption|].
      split; [exact Hne|]. split; [exact Hfind | reflexivity]. }
  split; [exact Hiff|]. split.
  - intros r Hr.
    apply Hiff in Hr as (tableName & columns & col & k & target & Hin & Hcol & Hne & Hself
                         & Hcase & Hfind & ->).
    cbn [TableRelationship.table1 TableRelationship.table2 TableRelationship.foreignKey
         TableRelationship.referencingTable TableRelationship.referencedTable].
    apply referenced_forms in Hfind as [Htarget Hforms].
    apply In_sampledSchemas in Htarget as (targetName & targetColumns & Htarget & ->).
    cbn [TableSchema.name] in *.
    split; [reflexivity|]. split; [reflexivity|]. split.
    { exists columns. split; [exact Hin | now apply in_map]. }
    split; [now exists targetColumns|].
    exists k. split; [|exact Hforms].
    destruct Hcase as [E|[E _]]; [now left | now right].
  - unfold fetchedRelationships. rewrite <- columns_sampledSchemas.
    apply length_findTableRelationships.
Qed.

(** The three disjuncts of the column test come down to the first. *)
Lemma refersTo_includes (table col : string) :
  refersTo toLowerCase table col
  = JSString.includes (toLowerCase col) (toLowerCase table).
Proof.
  unfold refersTo.
  destruct (JSString.includes (toLowerCase col) (toLowerCase table)) eqn:Hinc;
    [reflexivity|].
  cbn [orb].
  destruct (String.eqb_spec (toLowerCase col) (toLowerCase table ++ "_id")) as [E|_].
  - assert (H : JSString.includes (toLowerCase col) (toLowerCase table) = true)
      by (apply includes_iff; exists "", "_id"; exact E). congruence.
  - destruct (String.eqb_spec (toLowerCase col) (toLowerCase table ++ "id")) as [E|_];
      [|reflexivity].
    assert (H : JSString.includes (toLowerCase col) (toLowerCase table) = true)
      by (apply includes_iff; exists "", "id"; exact E). congruence.
Qed.

Lemma filter_head {A : Type} (p : A -> bool) (l : list A) (a : A) (rest : list A) :
  filter p l = a :: rest -> In a l /\ p a = true.
Proof.
  intros E. apply filter_In. rewrite E. now left.
Qed.

Lemma filter_filter {A : Type} (p q : A -> bool) (l : list A) :
  filter p (filter q l) = filter (fun a => q a && p a) l.
Proof.
  induction l as [|a l IH]; [reflexivity|]. cbn [filter].
  destruct (q a); cbn [filter andb]; [destruct (p a)|]; now rewrite IH.
Qed.

(** The columns of the first row that qualify as a reference to [table]. *)
Lemma refColumns (table : string) (first : Row.t) (rest : list Row.t) :
  filter (refersTo toLowerCase table) (columnsOf (first :: rest))
  = filter (fun key => negb (JSString.startsWith key "_")
                       && JSString.includes (toLowerCase key) (toLowerCase table))
      (Row.keys first).
Proof.
  unfold columnsOf. rewrite filter_filter. apply filter_ext.
  intros key. now rewrite refersTo_includes.
Qed.

(** X17. [detectTableRelationships] answers exactly as follows.  For two
    table names that both have rows, take of the first row of each table the
    keys that do not start with an underscore and whose lower-cased name
    contains the lower-cased name of the other table.  If the first table
    has such keys, the answer is its first one as foreign key, the first
    table as the referencing and the second as the referenced one;
    otherwise, if the second table has such keys, its first one, with the
    roles exchanged; the two data lists are the rows of the two tables.
    There is no answer when neither table has such a key, when the chosen key
    is the empty string, when a table has no row, and when the names are not
    exactly two.  The tests for "<table>_id" and "<table>id" add nothing to
    the containment test. *)
Theorem table_relationship_detected :
  forall tableNames allData,
    let rowsOf := fun table => filter (fun item => Row._table item =? table) allData in
    let refs := fun table (first : Row.t) =>
      filter (fun key => negb (JSString.startsWith key "_")
                         && JSString.includes (toLowerCase key) (toLowerCase table))
        (Row.keys first) in
    (forall table1 table2 first1 rest1 first2 rest2,
        tableNames = [table1; table2] ->
        rowsOf table1 = first1 :: rest1 -> rowsOf table2 = first2 :: rest2 ->
        detectTableRelationships toLowerCase tableNames allData =
        match refs table2 first1, refs table1 first2 with
        | fk :: _, _ =>
            if JSString.nonEmpty fk
            then Some (Relationship.mk fk table1 table2 (rowsOf table1) (rowsOf table2))
            else None
        | [], fk :: _ =>
            if JSString.nonEmpty fk
            then Some (Relationship.mk fk table2 table1 (rowsOf table2) (rowsOf table1))
            else None
        | [], [] => None
        end) /\
    (List.length tableNames <> 2%nat ->
     detectTableRelationships toLowerCase tableNames allData = None) /\
    (forall table1 table2,
        tableNames = [table1; table2] -> rowsOf table1 = [] \/ rowsOf table2 = [] ->
        detectTableRelationships toLowerCase tableNames allData = None) /\
    (forall table col,
        refersTo toLowerCase table col
        = JSString.includes (toLowerCase col) (toLowerCase table)).
Proof.
  intros tableNames allData rowsOf refs.
  split; [|split; [|split; [|apply refersTo_includes]]].
  - intros table1 table2 first1 rest1 first2 rest2 -> R1 R2.
    unfold detectTableRelationships.
    fold (rowsOf table1). fold (rowsOf table2). rewrite R1, R2.
    cbn [List.length Nat.eqb orb]. cbv zeta. rewrite !refColumns.
    fold (refs table2 first1). fold (refs table1 first2).
    destruct (refs table2 first1) as [|fk more].
    + destruct (refs table1 first2) as [|fk more]; [reflexivity|].
      destruct (JSString.nonEmpty fk); [|reflexivity].
      rewrite String.eqb_refl.
      destruct (String.eqb_spec table2 table1) as [E|_]; [|reflexivity].
      subst table2. rewrite R1 in R2. now rewrite R2.
    + destruct (JSString.nonEmpty fk); [|reflexivity].
      rewrite String.eqb_refl.
      destruct (String.eqb_spec table2 table1) as [E|_]; [|reflexivity].
      subst table2. rewrite R1 in R2. now rewrite R2.
  - intros Hlen. destruct tableNames as [|a [|b [|c rest]]]; try reflexivity.
    simpl in Hlen. congruence.
  - intros table1 table2 -> Hrows. unfold detectTableRelationships.
    fold (rowsOf table1). fold (rowsOf table2).
    destruct Hrows as [->| ->]; cbn [List.length Nat.eqb orb]; [reflexivity|].
    now rewrite orb_true_r.
Qed.

End RelationshipFacts.

Section RelationshipSamples.
Local Open Scope string_scope.

(** The blog: posts refers to users through its column User_ID. *)
Lemma relationships_of_sampled_tables_witness :
  asciiKeys JSString.asciiLower (sampledSchemas JSString.asciiLower blogTables) = true /\
  In (TableRelationship.mk "posts" "users" "User_ID" "posts" "users")
    (fetchedRelationships JSString.asciiLower blogTables).
Proof.
  split; [vm_compute; reflexivity|].
  apply (proj1 (relationships_of_sampled_tables JSString.asciiLower blogTables eq_refl)).
  exists "posts",
    [Column.mkRaw "id" "number"; Column.mkRaw "User_ID" "number";
     Column.mkRaw "title" "string"],
    (Column.mkRaw "User_ID" "number"), "user",
    (TableSchema.mk "users"
       (detectForeignKeys JSString.asciiLower "users"
          [Column.mkRaw "id" "number"; Column.mkRaw "name" "string"])).
  split; [right; left; reflexivity|]. split; [right; left; reflexivity|].
  split; [discriminate|]. split; [vm_compute; discriminate|].
  split; [left; vm_compute; reflexivity|]. split; vm_compute; reflexivity.
Defined.

(** The relationships of the blog, and a table that refers to itself: the
    test against the table's own name compares the singular key with the
    plural name, and the plural rule then finds the table itself. *)
Example relationships_of_the_blog :
  fetchedRelationships JSString.asciiLower blogTables
  = [TableRelationship.mk "posts" "users" "User_ID" "posts" "users"] /\
  fetchedRelationships JSString.asciiLower selfTable
  = [TableRelationship.mk "users" "users" "user_id" "users" "users"].
Proof. by_evaluation. Qed.

(** A post and its user: post is the referencing table through user_id,
    in whichever order the two tables are named. *)
Lemma table_relationship_detected_witness :
  detectTableRelationships JSString.asciiLower ["post"; "user"] blogRows
  = Some (Relationship.mk "user_id" "post" "user"
            [Row.mk "post" ["id"; "user_id"; "title"; "_table"]]
            [Row.mk "user" ["id"; "name"; "_table"]]) /\
  detectTableRelationships JSString.asciiLower ["user"; "post"] blogRows
  = Some (Relationship.mk "user_id" "post" "user"
            [Row.mk "post" ["id"; "user_id"; "title"; "_table"]]
            [Row.mk "user" ["id"; "name"; "_table"]]).
Proof.
  split.
  - rewrite (proj1 (table_relationship_detected JSString.asciiLower ["post"; "user"]
                      blogRows)
               "post" "user" _ _ _ _ eq_refl eq_refl eq_refl).
    vm_compute. reflexivity.
  - rewrite (proj1 (table_relationship_detected JSString.asciiLower ["user"; "post"]
                      blogRows)
               "user" "post" _ _ _ _ eq_refl eq_refl eq_refl).
    vm_compute. reflexivity.
Defined.

(** The containment test wants the table's name inside the column's: with
    the plural names posts and users the column user_id is not found. *)
Example plural_names_are_not_detected :
  detectTableRelationships JSString.asciiLower ["posts"; "users"] pluralRows = None.
Proof. vm_compute. reflexivity. Qed.

End RelationshipSamples.

(** ** Bars of the chart *)

Section GroupingFacts.
Local Open Scope string_scope.












(** Three rows of two tables: two bars, in the order of first appearance. *)
Example two_bars :
  groupByValue [("ann", "users"); ("bob", "posts"); ("ann", "posts")]
  = [Group.mk "ann" 2 "users"; Group.mk "bob" 1 "posts"].
Proof. reflexivity. Qed.

End GroupingFacts.

(** ** The x axis of the chart *)

Section XAxisFacts.
Local Open Scope string_scope.

Variable toLowerCase : string -> string.
Hypothesis lower_empty : toLowerCase "" = "".

Lemma isNameField_nonEmpty (key : string) :
  isNameField toLowerCase key = true -> JSString.nonEmpty key = true.
Proof.
  destruct key; [|reflexivity]. unfold isNameField. rewrite lower_empty. discriminate.
Qed.

Lemma dateFields_nonEmpty (field : string) :
  In field dateFields -> JSString.nonEmpty field = true.
Proof.
  intros H. repeat (destruct H as [<-|H]; [reflexivity|]). destruct H.
Qed.

Lemma hasOwnProperty_In (keys : list string) (field : string) :
  hasOwnProperty keys field = true <-> In field keys.
Proof.
  unfold hasOwnProperty. rewrite existsb_exists. split.
  - intros (k & Hk & E). apply String.eqb_eq in E. now subst.
  - intros H. exists field. split; [exact H | apply String.eqb_refl].
Qed.

End XAxisFacts.

(** X19. The four steps that choose the x axis of the chart form one
    priority chain: the first key containing [title], else the first key
    containing [name] (type name); else the first of the six date fields the
    record has (type date); else [id] when the record has it; else the first
    key that is neither [id] nor starts with an underscore (type other); else
    [id].  The chosen field is a key of the record or [id]. *)
Theorem x_axis_priority (toLowerCase : string -> string) (keys : list string) :
  toLowerCase ""%string = ""%string ->
  let nameFields := filter (isNameField toLowerCase) keys in
  let available :=
    filter (fun key => negb (JSString.startsWith key "_"%string) && negb (key =? "id")%string)
      keys in
  chooseXAxis toLowerCase keys
  = match find (fun f => JSString.includes (toLowerCase f) "title"%string) nameFields,
          nameFields with
    | Some f, _ => (f, XAxisType.name)
    | None, first :: _ => (first, XAxisType.name)
    | None, [] =>
        match find (hasOwnProperty keys) dateFields with
        | Some field => (field, XAxisType.date)
        | None =>
            if hasOwnProperty keys "id"%string then ("id"%string, XAxisType.id)
            else match available with
                 | first :: _ => (first, XAxisType.other)
                 | [] => ("id"%string, XAxisType.id)
                 end
        end
    end /\
  (In (fst (chooseXAxis toLowerCase keys)) keys \/
   chooseXAxis toLowerCase keys = ("id"%string, XAxisType.id)).
Proof.
  intros Hlower nameFields available.
  assert (Hname : forall f, In f nameFields -> JSString.nonEmpty f = true /\ In f keys).
  { intros f Hf. apply filter_In in Hf as [Hin Hf].
    split; [exact (isNameField_nonEmpty _ Hlower _ Hf) | exact Hin]. }
  unfold chooseXAxis. fold nameFields. fold available.
  destruct nameFields as [|first rest] eqn:En.
  - (* no name field *)
    cbn [find fst JSString.nonEmpty String.eqb negb].
    destruct (find (hasOwnProperty keys) dateFields) as [field|] eqn:Ed.
    + apply find_some in Ed as [Hd Hown].
      cbn [fst]. rewrite (dateFields_nonEmpty _ Hd). cbn [negb andb fst].
      rewrite (dateFields_nonEmpty _ Hd).
      split; [reflexivity|]. left. now apply hasOwnProperty_In.
    + cbn [fst JSString.nonEmpty String.eqb negb andb].
      destruct (hasOwnProperty keys "id"%string) eqn:Eid.
      * split; [reflexivity|]. now right.
      * cbn [fst JSString.nonEmpty String.eqb negb].
        destruct available as [|a rest] eqn:Ea.
        -- split; [reflexivity|]. now right.
        -- split; [reflexivity|]. left. cbn [fst].
           assert (Hin : In a available) by (rewrite Ea; now left).
           apply filter_In in Hin. exact (proj1 Hin).
  - (* a name field: its choice is never empty, so the later steps are skipped *)
    destruct (find (fun f => JSString.includes (toLowerCase f) "title"%string) (first :: rest))
      as [f|] eqn:Ef.
    + apply find_some in Ef as [Hin _]. destruct (Hname _ Hin) as [Hf Hk].
      repeat (cbn [fst negb andb]; rewrite ?Hf).
      split; [reflexivity|]. now left.
    + destruct (Hname first (or_introl eq_refl)) as [Hf Hk].
      repeat (cbn [fst negb andb]; rewrite ?Hf).
      split; [reflexivity|]. now left.
Qed.

(** The keys of a post: the title wins over the user name and the date. *)
Lemma x_axis_priority_witness :
  JSString.asciiLower ""%string = ""%string /\
  chooseXAxis JSString.asciiLower postKeys = ("Title"%string, XAxisType.name).
Proof.
  split; [reflexivity|].
  rewrite (proj1 (x_axis_priority JSString.asciiLower postKeys eq_refl)).
  vm_compute. reflexivity.
Defined.

(** ** The start screen *)

Section CameraFacts.
Local Open Scope string_scope.

Lemma nonEmpty_false (s : string) : JSString.nonEmpty s = false -> s = "".
Proof. destruct s; [reflexivity | discriminate]. Qed.

Lemma not_tracking (a : App) :
  app_ok a -> tracking a = false -> selectedCameraId a = None.
Proof.
  intros [H _] Ht. destruct (selectedCameraId a) as [id|] eqn:E; [|reflexivity].
  destruct (H id eq_refl) as [Hid _]. unfold tracking in Ht. rewrite E in Ht.
  unfold JSString.nonEmpty in Hid. cbn in Ht. congruence.
Qed.

Lemma formShown_fields (a : App) :
  formShown a = true ->
  tracking a = false /\ Selector.loading (selector a) = false /\
  Selector.error (selector a) = "".
Proof.
  unfold formShown. intros H.
  apply andb_prop in H as [H He]. apply andb_prop in H as [Ht Hl].
  apply negb_true_iff in Ht, Hl, He. repeat split; try assumption.
  now apply nonEmpty_false.
Qed.

Lemma appStep_ok (a : App) (e : AppEvent) : app_ok a -> app_ok (appStep a e).
Proof.
  intros Hok. destruct e as [devices|value|]; cbn [appStep].
  - destruct (tracking a) eqn:Ht; [exact Hok|].
    pose proof (not_tracking a Hok Ht) as Hnone.
    split; cbn [selectedCameraId selector]; [intros id E; congruence|].
    unfold getCameras. destruct devices as [devices|].
    + destruct (videoDevices devices); cbn; [discriminate | intros; discriminate].
    + cbn. discriminate.
  - destruct (formShown a) eqn:Hf; [|exact Hok].
    apply formShown_fields in Hf as (Ht & Hl & He).
    pose proof (not_tracking a Hok Ht) as Hnone.
    split; cbn [selectedCameraId selector]; [intros id E; congruence|].
    cbn. exact (proj2 Hok).
  - destruct (formShown a) eqn:Hf; [|exact Hok].
    destruct (JSString.nonEmpty (Selector.selectedCamera (selector a))) eqn:Hs; [|exact Hok].
    apply formShown_fields in Hf as (Ht & Hl & He).
    split; cbn [selectedCameraId selector]; [|exact (proj2 Hok)].
    intros id [= <-]. repeat split; try assumption. exact (proj2 Hok Hl He).
Qed.

Lemma appRun_ok (events : list AppEvent) (a : App) : app_ok a -> app_ok (appRun events a).
Proof.
  unfold appRun. revert a. induction events as [|e events IH]; intros a Hok; [exact Hok|].
  simpl. apply IH. now apply appStep_ok.
Qed.

Lemma In_mapi_from {A B : Type} (f : A -> nat -> B) (l : list A) (start : nat) (b : B) :
  In b (mapi_from f start l) -> exists a index, In a l /\ b = f a index.
Proof.
  revert start. induction l as [|a l IH]; intros start; simpl; [intros []|].
  intros [<-|Hin].
  - exists a, start. split; [now left | reflexivity].
  - destruct (IH _ Hin) as (a' & index & Ha & E). exists a', index. split; [now right | exact E].
Qed.

(** X20. The start screen.  The cameras offered are the video inputs in the
    order of the browser's list; one without a label is called Camera k, k
    counting the video inputs from 1, and no camera has an empty label.
    After any sequence of enumerations, selections and clicks from the
    initial screen, a camera handed to the tracker is non-empty, is the
    selected one, and was chosen while the list was loaded, without error
    and not empty; once tracking, no event of the start screen changes
    anything.  Clicking right after the enumeration starts the first video
    input, unless its device id is empty, in which case nothing starts. *)
Theorem start_screen_hands_over_a_camera :
  (forall devices,
     let inputs :=
       filter (fun device => MediaDeviceInfo.kind device =? "videoinput") devices in
     List.length (videoDevices devices) = List.length inputs /\
     (forall index device,
        nth_error inputs index = Some device ->
        nth_error (videoDevices devices) index
        = Some (CameraDevice.mk (MediaDeviceInfo.deviceId device)
                  (if JSString.nonEmpty (MediaDeviceInfo.label device)
                   then MediaDeviceInfo.label device
                   else "Camera " ++ string_of_nat (index + 1)))) /\
     (forall camera, In camera (videoDevices devices) ->
                     JSString.nonEmpty (CameraDevice.label camera) = true)) /\
  (forall events, app_ok (appRun events initialApp)) /\
  (forall a e, tracking a = true -> appStep a e = a) /\
  (forall devices first rest,
     videoDevices devices = first :: rest ->
     selectedCameraId (appRun [Enumerated (Some devices); StartTracking] initialApp)
     = if JSString.nonEmpty (CameraDevice.deviceId first)
       then Some (CameraDevice.deviceId first) else None).
Proof.
  split; [|split; [|split]].
  - intros devices inputs. unfold videoDevices. fold inputs. split; [apply length_mapi_from|].
    split.
    + intros index device Hnth.
      exact (nth_error_mapi_from _ inputs 0 index device Hnth).
    + intros camera Hin. apply In_mapi_from in Hin as (device & k & _ & ->).
      cbn [CameraDevice.label].
      destruct (JSString.nonEmpty (MediaDeviceInfo.label device)) eqn:El; [exact El|].
      reflexivity.
  - intros events. apply appRun_ok. split; cbn; [discriminate | discriminate].
  - intros a e Ht. destruct e; cbn [appStep]; unfold formShown; rewrite Ht; reflexivity.
  - intros devices first rest E. cbn. rewrite E. cbn.
    destruct (CameraDevice.deviceId first); reflexivity.
Qed.

(** The numbering counts the video inputs, not the places in the list. *)
Example cameras_are_numbered :
  videoDevices someDevices
  = [CameraDevice.mk "cam-a" "Camera 1"; CameraDevice.mk "cam-b" "Camera 2"].
Proof. reflexivity. Qed.

End CameraFacts.
